(** * Minimum-cost genome construction planners

    A shallow embedding of the two planners of the repository,
    [genome_planner_flex.cpp] (optimal dynamic programming) and
    [greedy_planner_clean.cpp] (replication-first greedy sweep), the
    properties their specification states about them, and further
    properties of the planners, of the sequence loader and of the runs.

    Conventions of the embedding.
    - The planners are embedded twice, for two readings of a [double].
      In the module [Binary64] a [double] is an IEEE 754 binary64 number
      ([float]): every sum and every product is rounded on its own, to
      nearest with ties to even, in the order in which the source writes
      them, [<] is the comparison of the machine and [1e18] is the double
      of that value (no operation is fused or carried out in a wider
      format).  This is the reading of what the programs compute.
      Outside that module a [double] is an exact rational ([Q]): sums and
      products are the mathematical ones and nothing is rounded.  This is
      the reading of the planners as algorithms; it tells what the programs
      compute where the statement does not depend on the rounding or on
      the order of the sums, and the statements that do are marked
      "with exact sums".  The two readings differ: the DP planner adds
      [(DP[j] + acquisition) + join] where the greedy planner adds
      [(total + join) + acquisition], and in binary64 the two sums can
      differ in the last place.
    - Positions in the target ([i], [j], [cur]) and block lengths ([w]) are
      natural numbers: in the source they are [long long]/[int] values that
      are only ever used between [0] and [N] and are cast to [size_t] for
      every access.  [W] is an [int] and stays a [Z], since the source
      accepts non-positive values.  [pred] holds [long long] values with the
      sentinel [-1] and is a list of [Z].
    - [uint16_t] and [uint64_t] values are [Z] with the wrap-around of the
      casts and of the additions written out ([wrap16], [wrap64]); the
      [uint8_t] flags of [chosen_is_reuse], only ever [0] or [1], are [bool].
    - The sdsl FM-index is a library object: it is a record of the three
      operations the planners call on it.  [build_index] is a reference
      model of the index that sdsl's [construct] builds over a text, by the
      suffix array of the text.
    - The two loops that are not counted loops ([while (cur > 0)] of the
      backtracking, [while (i < N)] of the greedy sweep) take a fuel and
      return [None] when it runs out; the planners are then proved to
      return [Some] result on every input.
    - A file that is read is its text, a list of characters, or nothing
      when it cannot be opened, where the source calls [exit(1)];
      [std::getline] cuts the text at the line feeds; [std::toupper] is
      that of the "C" locale; the [std::map] of the loader is the list of
      its entries in the order of its keys.
    - [main] is modelled from the loading of the index on: the parsing of
      the command line ([std::stoi], [std::stod]) is not modelled.  A row
      holds the numbers handed to [operator<<], not their text. *)

From Stdlib Require Import ZArith NArith QArith Lqa Lia List Ascii String Bool Sorted.
From Stdlib Require Import Floats.
From stdpp Require Import base list.
Import ListNotations.

#[global] Instance Q_inhabited : Inhabited Q := populate 0%Q.
#[global] Instance ascii_inhabited : Inhabited ascii := populate Ascii.zero.

(** ** Numbers *)

(** [a < b] on doubles, as a boolean. *)
Definition Qlt_bool (x y : Q) : bool :=
  match (x ?= y)%Q with Lt => true | _ => false end.

(** [static_cast<double>(w)] *)
Definition to_double (w : nat) : Q := inject_Z (Z.of_nat w).

(** [static_cast<uint16_t>(z)] *)
Definition wrap16 (z : Z) : Z := z mod 65536.

(** arithmetic on [std::uint64_t] *)
Definition wrap64 (z : Z) : Z := z mod 18446744073709551616.

(** ** The FM-index interface (sdsl) *)

(** The operations of [fm_index_t] used by the planners.  [size_type] values
    are [N].
    - [fm_size idx] is [index.size()];
    - [fm_backward_search idx l r c] is
      [sdsl::backward_search(index, l, r, c, l2, r2)]: it returns the number
      of occurrences [occ] together with the new interval [(l2, r2)];
    - [fm_count idx p] is [sdsl::count(index, p.begin(), p.end())]. *)
Record fm_index : Type := {
  fm_size : N;
  fm_backward_search : N -> N -> ascii -> N * (N * N);
  fm_count : list ascii -> N
}.

(** [s.substr(pos, len)], also the iterator range [s.begin()+pos, s.begin()+pos+len). *)
Definition substr (s : list ascii) (pos len : nat) : list ascii :=
  firstn len (skipn pos s).

(** The interval reached by extending the empty pattern leftwards with the
    characters of [p], last character first: what the incremental scan of
    [update_min_cost_for_i] holds after it has read [p]. *)
Fixpoint bsearch (idx : fm_index) (p : list ascii) : N * (N * N) :=
  match p with
  | [] => (fm_size idx, (0%N, ((fm_size idx + 18446744073709551615) mod 18446744073709551616)%N))
  | c :: p' =>
      let '(_, (l, r)) := bsearch idx p' in
      fm_backward_search idx l r c
  end.

(** The contract of the oracle: a pattern that occurs has all its suffixes
    occurring (so an empty interval stays empty), and extending the interval
    of an occurring pattern by one character answers as a one-shot count of
    the extended pattern. *)
Definition index_coherent (idx : fm_index) : Prop :=
  (forall c p, p <> [] -> (0 < fm_count idx (c :: p))%N -> (0 < fm_count idx p)%N) /\
  (forall c p, (p = [] \/ (0 < fm_count idx p)%N) ->
     ((0 < fst (bsearch idx (c :: p)))%N <-> (0 < fm_count idx (c :: p))%N)).

(** ** A reference model of the index built by [create_index] *)

(** Order on characters and the lexicographic order on suffixes. *)
Definition ascii_ltb (a b : ascii) : bool := (nat_of_ascii a <? nat_of_ascii b)%nat.

Fixpoint lex_leb (x y : list ascii) : bool :=
  match x, y with
  | [], _ => true
  | _ :: _, [] => false
  | a :: x', b :: y' =>
      if ascii_ltb a b then true
      else if ascii_ltb b a then false
      else lex_leb x' y'
  end.

Fixpoint lex_insert (x : list ascii) (l : list (list ascii)) : list (list ascii) :=
  match l with
  | [] => [x]
  | y :: l' => if lex_leb x y then x :: y :: l' else y :: lex_insert x l'
  end.

Fixpoint lex_sort (l : list (list ascii)) : list (list ascii) :=
  match l with
  | [] => []
  | x :: l' => lex_insert x (lex_sort l')
  end.

(** All suffixes of the text, the empty one (the end marker) included. *)
Fixpoint suffixes (s : list ascii) : list (list ascii) :=
  match s with
  | [] => [[]]
  | _ :: s' => s :: suffixes s'
  end.

(** The suffix array, as the sorted list of the suffixes themselves. *)
Definition suffix_array (src : list ascii) : list (list ascii) :=
  lex_sort (suffixes src).

Fixpoint is_prefix (p x : list ascii) : bool :=
  match p, x with
  | [], _ => true
  | _ :: _, [] => false
  | a :: p', b :: x' => if Ascii.eqb a b then is_prefix p' x' else false
  end.

Fixpoint list_ascii_eqb (x y : list ascii) : bool :=
  match x, y with
  | [], [] => true
  | a :: x', b :: y' => Ascii.eqb a b && list_ascii_eqb x' y'
  | _, _ => false
  end.

(** Rows [l..r] of the suffix array. *)
Definition sa_rows (sa : list (list ascii)) (l r : nat) : list (list ascii) :=
  firstn (S r - l) (skipn l sa).

(** One leftward extension: the rows that start with [c] and continue with a
    suffix of rows [l..r]. *)
Definition sa_extend (sa : list (list ascii)) (l r : nat) (c : ascii) : list nat :=
  List.filter (fun k =>
            match nth k sa [] with
            | a :: t => Ascii.eqb a c && existsb (list_ascii_eqb t) (sa_rows sa l r)
            | [] => false
            end)
         (seq 0 (length sa)).

Definition build_index (src : list ascii) : fm_index :=
  let sa := suffix_array src in
  {| fm_size := N.of_nat (length sa);
     fm_backward_search := fun l r c =>
       match sa_extend sa (N.to_nat l) (N.to_nat r) c with
       | [] => (0%N, (1%N, 0%N))
       | k :: ks => (N.of_nat (length (k :: ks)),
                     (N.of_nat k, N.of_nat (List.last ks k)))
       end;
     fm_count := fun p =>
       N.of_nat (length (List.filter (is_prefix p) sa)) |}.

(** ** Results and tables *)

(** [struct PlannerStats] of [genome_planner_flex.cpp]; [struct GreedyStats]
    of [greedy_planner_clean.cpp] has the same fields.  [length_] is the
    field [length]. *)
Record PlannerStats : Type := {
  cost : Q;
  reuse_moves : Z;
  synth_moves : Z;
  joins : Z;
  segments : Z;
  reuse_bases : Z;
  synth_bases : Z;
  length_ : Z
}.

Definition GreedyStats : Type := PlannerStats.

(** A default-constructed [PlannerStats]. *)
Definition stats0 : PlannerStats :=
  {| cost := 0; reuse_moves := 0; synth_moves := 0; joins := 0; segments := 0;
     reuse_bases := 0; synth_bases := 0; length_ := 0 |}.

(** The four vectors of [solve_dp_for_chromosome], each of size [N + 1]. *)
Record dp_tables : Type := {
  DP : list Q;
  pred : list Z;
  chosen_len : list Z;
  chosen_is_reuse : list bool
}.

(** The five counters of the backtracking loop and of the greedy sweep. *)
Record counters : Type := {
  c_segments : Z;
  c_reuse_moves : Z;
  c_synth_moves : Z;
  c_reuse_bases : Z;
  c_synth_bases : Z
}.

Definition counters0 : counters :=
  {| c_segments := 0; c_reuse_moves := 0; c_synth_moves := 0;
     c_reuse_bases := 0; c_synth_bases := 0 |}.

(** The body shared by the backtracking loop and the greedy sweep:
    [segments++], then the moves and bases of the kind of the block. *)
Definition count_block (is_reuse : bool) (len : Z) (c : counters) : counters :=
  if is_reuse then
    {| c_segments := wrap64 (c_segments c + 1);
       c_reuse_moves := wrap64 (c_reuse_moves c + 1);
       c_synth_moves := c_synth_moves c;
       c_reuse_bases := wrap64 (c_reuse_bases c + len);
       c_synth_bases := c_synth_bases c |}
  else
    {| c_segments := wrap64 (c_segments c + 1);
       c_reuse_moves := c_reuse_moves c;
       c_synth_moves := wrap64 (c_synth_moves c + 1);
       c_reuse_bases := c_reuse_bases c;
       c_synth_bases := wrap64 (c_synth_bases c + len) |}.

(** [stats] once its field [length] is assigned, the state in which both
    planners return an empty target. *)
Definition stats_of_length (N : nat) : PlannerStats :=
  {| cost := 0; reuse_moves := 0; synth_moves := 0; joins := 0; segments := 0;
     reuse_bases := 0; synth_bases := 0; length_ := wrap64 (Z.of_nat N) |}.

(** [stats] after the assignments that end both planners. *)
Definition make_stats (total_cost : Q) (N : nat) (c : counters) : PlannerStats :=
  {| cost := total_cost;
     reuse_moves := c_reuse_moves c;
     synth_moves := c_synth_moves c;
     joins := if (0 <? c_segments c)%Z then wrap64 (c_segments c - 1) else 0;
     segments := c_segments c;
     reuse_bases := c_reuse_bases c;
     synth_bases := c_synth_bases c;
     length_ := wrap64 (Z.of_nat N) |}.

(** A block [[b_start, b_end)] of the target with its kind; [b_len] is the
    length the planner recorded for it. *)
Record block : Type := {
  b_start : nat;
  b_end : nat;
  b_len : Z;
  b_reuse : bool
}.

Section Planners.

Variable chrom_seq : list ascii.
Variable W : Z.
Variable indexes : list fm_index.
Variables cost_pcr cost_join cost_synth_linear cost_synth_quad : Q.

(** [query_kmer] (both files). *)
Definition query_kmer (kmer : list ascii) : bool :=
  existsb (fun index => (0 <? fm_count index kmer)%N) indexes.

(** [cost_synth_nonlinear] of [greedy_planner_clean.cpp]. *)
Definition cost_synth_nonlinear (len : nat) (linear_per_base quad_coeff : Q) : Q :=
  let x := to_double len in
  ((linear_per_base * x) + (quad_coeff * x * x))%Q.

(** *** The DP planner, [genome_planner_flex.cpp] *)

(** The conditional that ends every candidate of the sweep:
    [if (path_cost < min_cost_for_i) { min_cost_for_i = path_cost;
    pred[i] = j; chosen_len[i] = w; chosen_is_reuse[i] = is_reuse; }].
    The pair is the tables and [min_cost_for_i]. *)
Definition relax (i j w : nat) (is_reuse : bool) (path_cost : Q)
    (tm : dp_tables * Q) : dp_tables * Q :=
  if Qlt_bool path_cost (snd tm) then
    ({| DP := DP (fst tm);
        pred := <[i := Z.of_nat j]> (pred (fst tm));
        chosen_len := <[i := wrap16 (Z.of_nat w)]> (chosen_len (fst tm));
        chosen_is_reuse := <[i := is_reuse]> (chosen_is_reuse (fst tm)) |},
     path_cost)
  else tm.

(** The inner loop of [update_min_cost_for_i] entered once [occ == 0]:
    [for (w2 = w + 1; w2 <= max_w; ++w2)], with [n] iterations left. *)
Fixpoint synth_tail (n : nat) (i w2 : nat) (tm : dp_tables * Q) : dp_tables * Q :=
  match n with
  | O => tm
  | S n' =>
      let j2 := i - w2 in
      let ww := to_double w2 in
      let path_cost2 :=
        (DP (fst tm) !!! j2
         + (cost_synth_linear * ww + cost_synth_quad * ww * ww)
         + (if (0 <? j2)%nat then cost_join else 0))%Q in
      synth_tail n' i (S w2) (relax i j2 w2 false path_cost2 tm)
  end.

(** The main loop of [update_min_cost_for_i]:
    [for (w = 1; w <= max_w; ++w)], with [n] iterations left and the
    interval [[l, r]] of the characters read so far. *)
Fixpoint scan_incremental (n : nat) (i w : nat) (index : fm_index) (l r : N)
    (tm : dp_tables * Q) : dp_tables * Q :=
  match n with
  | O => tm
  | S n' =>
      let j := i - w in
      let c := chrom_seq !!! j in
      let '(occ, (l2, r2)) := fm_backward_search index l r c in
      let is_reuse := (0 <? occ)%N in
      let acquisition_cost :=
        if is_reuse then cost_pcr
        else (cost_synth_linear * to_double w
              + cost_synth_quad * to_double w * to_double w)%Q in
      let path_cost :=
        (DP (fst tm) !!! j + acquisition_cost
         + (if (0 <? j)%nat then cost_join else 0))%Q in
      let tm' := relax i j w is_reuse path_cost tm in
      if (occ =? 0)%N then synth_tail n' i (S w) tm'
      else scan_incremental n' i (S w) index l2 r2 tm'
  end.

Definition update_min_cost_for_i (i : nat) (index : fm_index)
    (tm : dp_tables * Q) : dp_tables * Q :=
  let max_w := Z.min W (Z.of_nat i) in
  if (max_w <=? 0)%Z then tm
  else
    let l := 0%N in
    let r := ((fm_size index + 18446744073709551615) mod 18446744073709551616)%N in
    scan_incremental (Z.to_nat max_w) i 1 index l r tm.

(** The loop of the fallback branch of [solve_dp_for_chromosome]:
    one [sdsl::count] per index and per candidate length. *)
Fixpoint scan_fallback (n : nat) (i w : nat) (tm : dp_tables * Q) : dp_tables * Q :=
  match n with
  | O => tm
  | S n' =>
      let j := i - w in
      let reusable :=
        existsb (fun index => (0 <? fm_count index (substr chrom_seq j w))%N) indexes in
      let ww := to_double w in
      let acquisition_cost :=
        if reusable then cost_pcr
        else (cost_synth_linear * ww + cost_synth_quad * ww * ww)%Q in
      let path_cost :=
        (DP (fst tm) !!! j + acquisition_cost
         + (if (0 <? j)%nat then cost_join else 0))%Q in
      scan_fallback n' i (S w) (relax i j w reusable path_cost tm)
  end.

(** One iteration of [for (i = 1; i <= N; ++i)]. *)
Definition dp_step (single_index : bool) (i : nat) (t : dp_tables) : dp_tables :=
  let min_cost_for_i := 1e18%Q in
  let tm :=
    if single_index then
      match indexes with
      | index0 :: _ => update_min_cost_for_i i index0 (t, min_cost_for_i)
      | [] => (t, min_cost_for_i)
      end
    else
      let max_w := Z.min W (Z.of_nat i) in
      scan_fallback (Z.to_nat max_w) i 1 (t, min_cost_for_i) in
  {| DP := <[i := snd tm]> (DP (fst tm));
     pred := pred (fst tm);
     chosen_len := chosen_len (fst tm);
     chosen_is_reuse := chosen_is_reuse (fst tm) |}.

(** [n] iterations of the sweep, from position [i]. *)
Fixpoint dp_sweep (single_index : bool) (n : nat) (i : nat) (t : dp_tables) : dp_tables :=
  match n with
  | O => t
  | S n' => dp_sweep single_index n' (S i) (dp_step single_index i t)
  end.

(** The tables as allocated, with [DP[0] = 0.0]. *)
Definition init_tables (N : nat) : dp_tables :=
  {| DP := <[0%nat := 0%Q]> (replicate (N + 1) 1e18%Q);
     pred := replicate (N + 1) (-1)%Z;
     chosen_len := replicate (N + 1) 0%Z;
     chosen_is_reuse := replicate (N + 1) false |}.

Definition dp_fill (single_index : bool) : dp_tables :=
  let N := length chrom_seq in
  dp_sweep single_index N 1 (init_tables N).

(** The loop [while (cur > 0)] of the backtracking, folding [f] over the
    blocks it visits; [None] when [fuel] iterations do not end it. *)
Fixpoint backtrack {A : Type} (f : block -> A -> A) (fuel : nat) (t : dp_tables)
    (cur : nat) (acc : A) : option A :=
  if (0 <? cur)%nat then
    match fuel with
    | O => None
    | S fuel' =>
        let len := chosen_len t !!! cur in
        let is_reuse := chosen_is_reuse t !!! cur in
        let p := pred t !!! cur in
        if ((p <? 0)%Z || (len =? 0)%Z)%bool then Some acc
        else
          backtrack f fuel' t (Z.to_nat p)
            (f {| b_start := Z.to_nat p; b_end := cur; b_len := len; b_reuse := is_reuse |} acc)
    end
  else Some acc.

(** [solve_dp_for_chromosome], with the choice of the branch as a parameter. *)
Definition solve_dp_with (single_index : bool) : option PlannerStats :=
  let N := length chrom_seq in
  if (N =? 0)%nat then Some (stats_of_length N)
  else
    let t := dp_fill single_index in
    match backtrack (fun b => count_block (b_reuse b) (b_len b)) N t N counters0 with
    | Some c => Some (make_stats (DP t !!! N) N c)
    | None => None
    end.

Definition solve_dp_for_chromosome : option PlannerStats :=
  solve_dp_with (length indexes =? 1)%nat.

(** The blocks visited by the backtracking of [solve_dp_for_chromosome],
    first block first. *)
Definition dp_blocks : option (list block) :=
  let N := length chrom_seq in
  backtrack (fun b acc => b :: acc) N (dp_fill (length indexes =? 1)%nat) N [].

(** *** The greedy planner, [greedy_planner_clean.cpp] *)

(** [for (w = n; w >= 1; --w) if (query_kmer(substr(i, w))) { best_w = w; break; }] *)
Fixpoint find_best_w (n : nat) (i : nat) : nat :=
  match n with
  | O => 0
  | S n' =>
      if query_kmer (substr chrom_seq i n) then n
      else find_best_w n' i
  end.

(** The state of the sweep: position, cost and counters. *)
Record greedy_state : Type := {
  g_i : nat;
  g_total_cost : Q;
  g_counters : counters
}.

(** The block chosen at position [i]: its length and kind. *)
Definition greedy_choice (i : nat) : nat * bool :=
  let N := length chrom_seq in
  let best_w := find_best_w (Z.to_nat (Z.min W (Z.of_nat (N - i)))) i in
  if (0 <? best_w)%nat then (best_w, true) else (1%nat, false).

(** One iteration of [while (i < N)] in [solve_greedy_for_chromosome_stats]. *)
Definition greedy_step (st : greedy_state) : greedy_state :=
  let N := length chrom_seq in
  let i := g_i st in
  let best_w := find_best_w (Z.to_nat (Z.min W (Z.of_nat (N - i)))) i in
  let total_cost := if (0 <? i)%nat then (g_total_cost st + cost_join)%Q else g_total_cost st in
  if (0 <? best_w)%nat then
    {| g_i := i + best_w;
       g_total_cost := (total_cost + cost_pcr)%Q;
       g_counters := count_block true (Z.of_nat best_w) (g_counters st) |}
  else
    let synth_len := 1%nat in
    {| g_i := i + synth_len;
       g_total_cost :=
         (total_cost + cost_synth_nonlinear synth_len cost_synth_linear cost_synth_quad)%Q;
       g_counters := count_block false (Z.of_nat synth_len) (g_counters st) |}.

Fixpoint greedy_loop (fuel : nat) (st : greedy_state) : option greedy_state :=
  if (g_i st <? length chrom_seq)%nat then
    match fuel with
    | O => None
    | S fuel' => greedy_loop fuel' (greedy_step st)
    end
  else Some st.

Definition solve_greedy_for_chromosome_stats : option GreedyStats :=
  let N := length chrom_seq in
  if (N =? 0)%nat then Some (stats_of_length N)
  else
    match greedy_loop N {| g_i := 0; g_total_cost := 0; g_counters := counters0 |} with
    | Some st => Some (make_stats (g_total_cost st) N (g_counters st))
    | None => None
    end.

(** The blocks emitted by the sweep from position [i], first block first. *)
Fixpoint greedy_blocks (fuel : nat) (i : nat) : list block :=
  match fuel with
  | O => []
  | S fuel' =>
      if (i <? length chrom_seq)%nat then
        let '(w, r) := greedy_choice i in
        {| b_start := i; b_end := i + w; b_len := Z.of_nat w; b_reuse := r |}
          :: greedy_blocks fuel' (i + w)
      else []
  end.

(** *** The cost model and partitions, for the statements *)

(** A block [[j, j + w)] is reusable when some index holds its text. *)
Definition reusable (j w : nat) : bool := query_kmer (substr chrom_seq j w).

(** Cost of acquiring a block of length [L] of the given kind. *)
Definition acquisition_cost (is_reuse : bool) (L : nat) : Q :=
  if is_reuse then cost_pcr
  else (cost_synth_linear * to_double L + cost_synth_quad * to_double L * to_double L)%Q.

(** Cost of the block [[j, j + w)]: its acquisition, by reuse exactly when
    it is reusable, and the junction before it unless it is the first. *)
Definition block_cost (j w : nat) : Q :=
  (acquisition_cost (reusable j w) w + (if (0 <? j)%nat then cost_join else 0))%Q.

(** The candidate path cost of length [w] at position [i], over the prefix
    costs [D]. *)
Definition path_cost (D : list Q) (i w : nat) : Q :=
  (D !!! (i - w)%nat + acquisition_cost (reusable (i - w) w) w
   + (if (0 <? i - w)%nat then cost_join else 0))%Q.

(** [w] is a candidate length at position [i]: [1 <= w <= min(W, i)]. *)
Definition candidate (i w : nat) : Prop :=
  (1 <= w)%nat /\ (w <= i)%nat /\ (Z.of_nat w <= W)%Z.

(** A partition is the list of its block lengths, first block first. *)
Fixpoint partition_cost (start : nat) (ws : list nat) : Q :=
  match ws with
  | [] => 0%Q
  | w :: ws' => (block_cost start w + partition_cost (start + w) ws')%Q
  end.

(** [ws] cuts [[0, n)] into blocks of lengths in [[1, W]]. *)
Definition is_partition (n : nat) (ws : list nat) : Prop :=
  Forall (fun w => (1 <= w)%nat /\ (Z.of_nat w <= W)%Z) ws /\ list_sum ws = n.

(** [m] is the least cost of a partition of [[0, n)]. *)
Definition is_min_cost (n : nat) (m : Q) : Prop :=
  (exists ws, is_partition n ws /\ (partition_cost 0 ws == m)%Q) /\
  (forall ws, is_partition n ws -> (m <= partition_cost 0 ws)%Q).

(** *** The state of the tables during the sweep, for the proofs *)

(** Nothing was recorded for position [i]: the entries are as allocated. *)
Definition unreached (t : dp_tables) (i : nat) : Prop :=
  DP t !!! i = 1e18%Q /\ pred t !!! i = (-1)%Z /\
  chosen_len t !!! i = 0%Z /\ chosen_is_reuse t !!! i = false.

(** The entries of position [i] are those of the candidate length [w], the
    first one of least path cost, and that cost is below the sentinel. *)
Definition chosen (t : dp_tables) (i w : nat) : Prop :=
  candidate i w /\
  DP t !!! i = path_cost (DP t) i w /\
  (path_cost (DP t) i w < 1e18)%Q /\
  (forall w', candidate i w' -> (w' < w)%nat ->
     (path_cost (DP t) i w < path_cost (DP t) i w')%Q) /\
  pred t !!! i = Z.of_nat (i - w) /\
  chosen_len t !!! i = wrap16 (Z.of_nat w) /\
  chosen_is_reuse t !!! i = reusable (i - w) w.

(** What the sweep leaves at position [i]. *)
Definition cell_spec (t : dp_tables) (i : nat) : Prop :=
  (DP t !!! i <= 1e18)%Q /\
  (forall w, candidate i w -> (DP t !!! i <= path_cost (DP t) i w)%Q) /\
  (unreached t i \/ exists w, chosen t i w).

(** The tables once positions [1..k] are swept. *)
Definition tables_inv (k : nat) (t : dp_tables) : Prop :=
  let N := length chrom_seq in
  length (DP t) = S N /\ length (pred t) = S N /\
  length (chosen_len t) = S N /\ length (chosen_is_reuse t) = S N /\
  DP t !!! 0%nat = 0%Q /\
  (forall i, (1 <= i <= k)%nat -> cell_spec t i) /\
  (forall i, (k < i <= N)%nat ->
     pred t !!! i = (-1)%Z /\ chosen_len t !!! i = 0%Z /\
     chosen_is_reuse t !!! i = false).

(** The entries recorded for position [i] are those of the smallest
    candidate length of least path cost. *)
Definition records_first_minimum (t : dp_tables) (i : nat) : Prop :=
  exists w,
    candidate i w /\
    (forall w', candidate i w' -> (path_cost (DP t) i w <= path_cost (DP t) i w')%Q) /\
    (forall w', candidate i w' -> (w' < w)%nat ->
       (path_cost (DP t) i w < path_cost (DP t) i w')%Q) /\
    pred t !!! i = Z.of_nat (i - w) /\
    chosen_len t !!! i = Z.of_nat w /\
    chosen_is_reuse t !!! i = reusable (i - w) w.

(** Every recorded predecessor lies before its position. *)
Definition pred_below (t : dp_tables) : Prop :=
  forall i, (1 <= i <= length chrom_seq)%nat -> (pred t !!! i < Z.of_nat i)%Z.

End Planners.

(** Blocks that follow each other from [a] to [b] without gap or overlap. *)
Fixpoint chain (a : nat) (bs : list block) (b : nat) : Prop :=
  match bs with
  | [] => a = b
  | x :: bs' => b_start x = a /\ chain (b_end x) bs' b
  end.

Definition block_length (b : block) : nat := b_end b - b_start b.

(** The blocks [bs] are contiguous, cover [[0, N)] exactly once and have
    lengths in [[1, W]]. *)
Definition covers (N : nat) (W : Z) (bs : list block) : Prop :=
  chain 0 bs N /\
  Forall (fun b => (b_start b < b_end b)%nat /\ (Z.of_nat (block_length b) <= W)%Z) bs.

(** The blocks of kind [r]; how many they are and the bases recorded for them. *)
Definition blocks_of (r : bool) (bs : list block) : list block :=
  List.filter (fun b => Bool.eqb (b_reuse b) r) bs.

Definition moves_of (r : bool) (bs : list block) : Z :=
  Z.of_nat (length (blocks_of r bs)).

Definition bases_of (r : bool) (bs : list block) : Z :=
  fold_right Z.add 0%Z (map b_len (blocks_of r bs)).

(** The counters after the blocks [bs] have been counted. *)
Definition counts_of (bs : list block) : counters :=
  {| c_segments := wrap64 (Z.of_nat (length bs));
     c_reuse_moves := wrap64 (moves_of true bs);
     c_synth_moves := wrap64 (moves_of false bs);
     c_reuse_bases := wrap64 (bases_of true bs);
     c_synth_bases := wrap64 (bases_of false bs) |}.

(** The block ends at [b_end], has a candidate length, and its recorded
    length and kind are its length and whether it is reusable. *)
Definition block_ok (chrom_seq : list ascii) (W : Z) (indexes : list fm_index)
    (b : block) : Prop :=
  candidate W (b_end b) (block_length b) /\
  b_len b = Z.of_nat (block_length b) /\
  b_reuse b = reusable chrom_seq indexes (b_start b) (block_length b).

(** The counters of a result agree with each other and with the length. *)
Definition stats_consistent (N : nat) (s : PlannerStats) : Prop :=
  segments s = (reuse_moves s + synth_moves s)%Z /\
  joins s = (if (0 <? segments s)%Z then segments s - 1 else 0)%Z /\
  (reuse_bases s + synth_bases s)%Z = Z.of_nat N.

(** ** The run over the records, [main] of both planners *)

(** A row [filename,label,length,cost] of the output, without the file name. *)
Record row : Type := {
  r_header : list ascii;
  r_length : nat;
  r_cost : Q
}.

(** The header with blanks and commas replaced. *)
Definition clean_header (h : list ascii) : list ascii :=
  map (fun c => if (Ascii.eqb c " " || Ascii.eqb c ",")%bool then "_"%char else c) h.

(** [total.x += stats.x] for every field. *)
Definition accumulate (total stats : PlannerStats) (len : nat) : PlannerStats :=
  {| cost := (cost total + cost stats)%Q;
     reuse_moves := wrap64 (reuse_moves total + reuse_moves stats);
     synth_moves := wrap64 (synth_moves total + synth_moves stats);
     joins := wrap64 (joins total + joins stats);
     segments := wrap64 (segments total + segments stats);
     reuse_bases := wrap64 (reuse_bases total + reuse_bases stats);
     synth_bases := wrap64 (synth_bases total + synth_bases stats);
     length_ := wrap64 (length_ total + wrap64 (Z.of_nat len)) |}.

(** The loop [for (const auto& pair : target_chromosomes)] of [main], for a
    planner [solve]: the rows printed and the totals. *)
Fixpoint run_records (solve : list ascii -> option PlannerStats)
    (records : list (list ascii * list ascii))
    (out : list row) (total : PlannerStats) : option (list row * PlannerStats) :=
  match records with
  | [] => Some (out, total)
  | (chrom_header, chrom_seq) :: rest =>
      if (length chrom_seq =? 0)%nat then run_records solve rest out total
      else
        match solve chrom_seq with
        | None => None
        | Some stats =>
            run_records solve rest
              (out ++ [{| r_header := clean_header chrom_header;
                          r_length := length chrom_seq;
                          r_cost := cost stats |}])
              (accumulate total stats (length chrom_seq))
        end
  end.

(** A target or source given as a string literal. *)
Definition s2l (s : string) : list ascii := list_ascii_of_string s.

(** The target made of [n] bases "A". *)
Definition poly_a (n : nat) : list ascii := replicate n "A"%char.


(** * The rest of the programs *)

(** ** The sequence loader, [read_fasta_and_clean] (both planners) *)

(** [std::toupper] in the "C" locale, which the programs never change. *)
Definition toupper (c : ascii) : ascii :=
  let n := nat_of_ascii c in
  if ((97 <=? n) && (n <=? 122))%nat then ascii_of_nat (n - 32) else c.

(** [uc == 'A' || uc == 'T' || uc == 'C' || uc == 'G'] *)
Definition is_base (uc : ascii) : bool :=
  (Ascii.eqb uc "A" || Ascii.eqb uc "T" || Ascii.eqb uc "C" || Ascii.eqb uc "G")%bool.

(** [for (char c : line)]: the bases of the line, in upper case, appended
    to [current_sequence]. *)
Definition append_bases (line current_sequence : list ascii) : list ascii :=
  fold_left (fun cur c => let uc := toupper c in
                          if is_base uc then cur ++ [uc] else cur)
            line current_sequence.

(** [operator<] on [std::string]. *)
Definition lex_ltb (x y : list ascii) : bool := negb (lex_leb y x).

(** A [std::map<std::string, std::string>] is the list of its entries in
    the order of its keys, the order in which [main] iterates over it. *)
Definition fasta_map : Type := list (list ascii * list ascii).

(** [sequences[header] = current_sequence] *)
Fixpoint map_assign (k v : list ascii) (m : fasta_map) : fasta_map :=
  match m with
  | [] => [(k, v)]
  | (k', v') :: m' =>
      if lex_ltb k k' then (k, v) :: (k', v') :: m'
      else if lex_ltb k' k then (k', v') :: map_assign k v m'
      else (k', v) :: m'
  end.

(** The lines that [std::getline] reads from a text: the text is cut at
    every line feed, and a text that ends with a line feed has no further
    line after it. *)
Fixpoint getlines (text : list ascii) : list (list ascii) :=
  match text with
  | [] => []
  | c :: text' =>
      if Ascii.eqb c "010" then [] :: getlines text'
      else
        match getlines text' with
        | [] => [[c]]
        | line :: lines => (c :: line) :: lines
        end
  end.

(** The variables of the loop of [read_fasta_and_clean]. *)
Record fasta_state : Type := {
  fs_sequences : fasta_map;
  fs_header : list ascii;
  fs_current_sequence : list ascii
}.

(** [if (!header.empty()) sequences[header] = current_sequence;] *)
Definition store_record (st : fasta_state) : fasta_map :=
  match fs_header st with
  | [] => fs_sequences st
  | _ :: _ => map_assign (fs_header st) (fs_current_sequence st) (fs_sequences st)
  end.

(** The body of [while (std::getline(fasta_file, line))]. *)
Definition fasta_line (st : fasta_state) (line : list ascii) : fasta_state :=
  match line with
  | [] => st
  | c :: rest =>
      if Ascii.eqb c ">" then
        {| fs_sequences := store_record st;
           fs_header := rest;
           fs_current_sequence := [] |}
      else
        {| fs_sequences := fs_sequences st;
           fs_header := fs_header st;
           fs_current_sequence := append_bases line (fs_current_sequence st) |}
  end.

(** The loop over the lines and the statement that follows it. *)
Definition read_lines (lines : list (list ascii)) : fasta_map :=
  store_record
    (fold_left fasta_line lines
       {| fs_sequences := []; fs_header := []; fs_current_sequence := [] |}).

(** [read_fasta_and_clean]: the file is its text when it can be opened;
    [None] is [exit(1)]. *)
Definition read_fasta_and_clean (file : option (list ascii)) : option fasta_map :=
  match file with
  | None => None
  | Some text => Some (read_lines (getlines text))
  end.

(** For the statements: a line that is not a header line, the bases of a
    text, a text of bases, and a file that holds the records one after the
    other, each as a header line and a sequence line. *)
Definition sequence_line (line : list ascii) : Prop :=
  match line with
  | c :: _ => c <> ">"%char
  | [] => True
  end.

Definition bases_of_text (s : list ascii) : list ascii :=
  List.filter is_base (map toupper s).

Definition is_bases (s : list ascii) : Prop :=
  Forall (fun c => c = "A"%char \/ c = "C"%char \/ c = "G"%char \/ c = "T"%char) s.

Definition fasta_text (records : fasta_map) : list ascii :=
  concat (map (fun r => (">"%char :: fst r) ++ ("010"%char :: snd r) ++ ["010"%char])
              records).

Definition keys_ascending (m : fasta_map) : Prop :=
  StronglySorted (fun a b => lex_ltb (fst a) (fst b) = true) m.

Abbreviation fasta_start :=
  {| fs_sequences := []; fs_header := []; fs_current_sequence := [] |}.

(** The state of the loop holds a map in key order, with non-empty keys
    and sequences of bases. *)
Definition fasta_map_ok (m : fasta_map) : Prop :=
  keys_ascending m /\
  Forall (fun r => fst r <> [] /\ is_bases (snd r)) m.


(** ** The programs, [main] of both planners, once the arguments are parsed *)

(** [load_single_fm_index]: [loaded] is the index that
    [sdsl::load_from_file] reads, when it succeeds. *)
Definition load_single_fm_index (loaded : option fm_index) : list fm_index :=
  match loaded with
  | Some index => [index]
  | None => []
  end.

(** What a run leaves: its exit code, the rows printed for the records,
    and the totals of the lines [STATS_TOTAL] and [TOTAL] when they are
    printed. *)
Record run_result : Type := {
  exit_code : Z;
  printed_rows : list row;
  printed_total : option PlannerStats
}.

(** [main] from the loading of the index on, for the planner [solve]. *)
Definition planner_main
    (solve : list fm_index -> list ascii -> option PlannerStats)
    (loaded : option fm_index) (fasta : option (list ascii)) : option run_result :=
  let indexes := load_single_fm_index loaded in
  if (length indexes =? 0)%nat then
    Some {| exit_code := 1; printed_rows := []; printed_total := None |}
  else
    match read_fasta_and_clean fasta with
    | None => Some {| exit_code := 1; printed_rows := []; printed_total := None |}
    | Some target_chromosomes =>
        match run_records (solve indexes) target_chromosomes [] stats0 with
        | Some (out, total) =>
            Some {| exit_code := 0; printed_rows := out; printed_total := Some total |}
        | None => None
        end
    end.

(** [main] of [genome_planner_flex.cpp]. *)
Definition dp_main (W : Z) (cost_pcr cost_join cost_synth_linear cost_synth_quad : Q)
    (loaded : option fm_index) (fasta : option (list ascii)) : option run_result :=
  planner_main
    (fun indexes chrom_seq =>
       solve_dp_for_chromosome chrom_seq W indexes cost_pcr cost_join
         cost_synth_linear cost_synth_quad)
    loaded fasta.

(** [main] of [greedy_planner_clean.cpp]. *)
Definition greedy_main (W : Z) (cost_pcr cost_join cost_synth_linear cost_synth_quad : Q)
    (loaded : option fm_index) (fasta : option (list ascii)) : option run_result :=
  planner_main
    (fun indexes chrom_seq =>
       solve_greedy_for_chromosome_stats chrom_seq W indexes cost_pcr cost_join
         cost_synth_linear cost_synth_quad)
    loaded fasta.

(** For the statements: the records for which a row is printed, the row of
    a record with its result, and the sum of a field over results. *)
Definition nonempty_records (records : fasta_map) : fasta_map :=
  List.filter (fun r => negb (length (snd r) =? 0)%nat) records.

Definition row_of (r : list ascii * list ascii) (stats : PlannerStats) : row :=
  {| r_header := clean_header (fst r); r_length := length (snd r); r_cost := cost stats |}.

Definition sum_of (field : PlannerStats -> Z) (results : list PlannerStats) : Z :=
  fold_right Z.add 0%Z (map field results).

(** The totals after the records [rs] with results [sts] are accumulated. *)
Definition totals_of (total : PlannerStats) (rs : fasta_map) (sts : list PlannerStats)
    : PlannerStats :=
  fold_left (fun t p => accumulate t (snd p) (length (snd (fst p)))) (zip rs sts) total.

(** What the result of the greedy planner for a non-empty record holds. *)
Definition greedy_record_ok (r : list ascii * list ascii) (st : PlannerStats) : Prop :=
  let N := Z.of_nat (length (snd r)) in
  segments st = (reuse_moves st + synth_moves st)%Z /\
  (reuse_bases st + synth_bases st)%Z = N /\
  synth_bases st = synth_moves st /\
  (0 <= reuse_moves st)%Z /\ (0 <= synth_moves st)%Z /\ (0 <= reuse_bases st)%Z /\
  (segments st <= N)%Z /\ (1 <= segments st)%Z /\ joins st = (segments st - 1)%Z.


(** ** The searches of the incremental sweep *)

Section Searches.

Variable chrom_seq : list ascii.
Variable W : Z.

(** The number of calls of [sdsl::backward_search] in the main loop of
    [update_min_cost_for_i], with [n] iterations left: one per iteration,
    until the loop is left through [if (occ == 0)]. *)
Fixpoint scan_incremental_searches (n : nat) (i w : nat) (index : fm_index) (l r : N)
    : nat :=
  match n with
  | O => O
  | S n' =>
      let j := i - w in
      let c := chrom_seq !!! j in
      let '(occ, (l2, r2)) := fm_backward_search index l r c in
      S (if (occ =? 0)%N then O
         else scan_incremental_searches n' i (S w) index l2 r2)
  end.

(** The number of calls of [sdsl::backward_search] in one call of
    [update_min_cost_for_i]. *)
Definition update_min_cost_searches (i : nat) (index : fm_index) : nat :=
  let max_w := Z.min W (Z.of_nat i) in
  if (max_w <=? 0)%Z then O
  else
    let l := 0%N in
    let r := ((fm_size index + 18446744073709551615) mod 18446744073709551616)%N in
    scan_incremental_searches (Z.to_nat max_w) i 1 index l r.

End Searches.


(** * The planners in binary64

    The programs once more, with every [double] an IEEE 754 binary64 number
    ([float], the floating-point numbers of the kernel): [+], [*] and [<]
    round and compare as the machine does, each operation on its own and in
    the order in which the source writes them.  Positions, counters, tables
    of integers, the index and the search for the longest reusable block
    carry no [double] and are those of the first part. *)

#[global] Instance float_inhabited : Inhabited float := populate 0%float.

Module Binary64.

(** [static_cast<double>(w)]: the double nearest to [w], which is [w]
    itself for [w] below 2^53. *)
Definition to_double (w : nat) : float :=
  SF2Prim (binary_normalize prec emax (Z.of_nat w) 0 false).

(** [struct PlannerStats], [struct GreedyStats]. *)
Record PlannerStats : Type := {
  cost : float;
  reuse_moves : Z;
  synth_moves : Z;
  joins : Z;
  segments : Z;
  reuse_bases : Z;
  synth_bases : Z;
  length_ : Z
}.

Definition GreedyStats : Type := PlannerStats.

(** The four vectors of [solve_dp_for_chromosome]. *)
Record dp_tables : Type := {
  DP : list float;
  pred : list Z;
  chosen_len : list Z;
  chosen_is_reuse : list bool
}.

(** [stats] once its field [length] is assigned. *)
Definition stats_of_length (N : nat) : PlannerStats :=
  {| cost := 0%float; reuse_moves := 0; synth_moves := 0; joins := 0; segments := 0;
     reuse_bases := 0; synth_bases := 0; length_ := wrap64 (Z.of_nat N) |}.

(** [stats] after the assignments that end both planners. *)
Definition make_stats (total_cost : float) (N : nat) (c : counters) : PlannerStats :=
  {| cost := total_cost;
     reuse_moves := c_reuse_moves c;
     synth_moves := c_synth_moves c;
     joins := if (0 <? c_segments c)%Z then wrap64 (c_segments c - 1) else 0;
     segments := c_segments c;
     reuse_bases := c_reuse_bases c;
     synth_bases := c_synth_bases c;
     length_ := wrap64 (Z.of_nat N) |}.

(** [cost_synth_nonlinear] of [greedy_planner_clean.cpp]. *)
Definition cost_synth_nonlinear (len : nat) (linear_per_base quad_coeff : float) : float :=
  let x := to_double len in
  ((linear_per_base * x) + (quad_coeff * x * x))%float.

Section Planners.

Variable chrom_seq : list ascii.
Variable W : Z.
Variable indexes : list fm_index.
Variables cost_pcr cost_join cost_synth_linear cost_synth_quad : float.

(** *** The DP planner, [genome_planner_flex.cpp] *)

(** [if (path_cost < min_cost_for_i) { min_cost_for_i = path_cost;
    pred[i] = j; chosen_len[i] = w; chosen_is_reuse[i] = is_reuse; }] *)
Definition relax (i j w : nat) (is_reuse : bool) (path_cost : float)
    (tm : dp_tables * float) : dp_tables * float :=
  if (path_cost <? snd tm)%float then
    ({| DP := DP (fst tm);
        pred := <[i := Z.of_nat j]> (pred (fst tm));
        chosen_len := <[i := wrap16 (Z.of_nat w)]> (chosen_len (fst tm));
        chosen_is_reuse := <[i := is_reuse]> (chosen_is_reuse (fst tm)) |},
     path_cost)
  else tm.

(** The inner loop of [update_min_cost_for_i] entered once [occ == 0]:
    [for (w2 = w + 1; w2 <= max_w; ++w2)], with [n] iterations left. *)
Fixpoint synth_tail (n : nat) (i w2 : nat) (tm : dp_tables * float)
    : dp_tables * float :=
  match n with
  | O => tm
  | S n' =>
      let j2 := (i - w2)%nat in
      let ww := to_double w2 in
      let path_cost2 :=
        (DP (fst tm) !!! j2
         + (cost_synth_linear * ww + cost_synth_quad * ww * ww)
         + (if (0 <? j2)%nat then cost_join else 0%float))%float in
      synth_tail n' i (S w2) (relax i j2 w2 false path_cost2 tm)
  end.

(** The main loop of [update_min_cost_for_i]:
    [for (w = 1; w <= max_w; ++w)], with [n] iterations left and the
    interval [[l, r]] of the characters read so far. *)
Fixpoint scan_incremental (n : nat) (i w : nat) (index : fm_index) (l r : N)
    (tm : dp_tables * float) : dp_tables * float :=
  match n with
  | O => tm
  | S n' =>
      let j := (i - w)%nat in
      let c := chrom_seq !!! j in
      let '(occ, (l2, r2)) := fm_backward_search index l r c in
      let is_reuse := (0 <? occ)%N in
      let acquisition_cost :=
        if is_reuse then cost_pcr
        else (cost_synth_linear * to_double w
              + cost_synth_quad * to_double w * to_double w)%float in
      let path_cost :=
        (DP (fst tm) !!! j + acquisition_cost
         + (if (0 <? j)%nat then cost_join else 0%float))%float in
      let tm' := relax i j w is_reuse path_cost tm in
      if (occ =? 0)%N then synth_tail n' i (S w) tm'
      else scan_incremental n' i (S w) index l2 r2 tm'
  end.

Definition update_min_cost_for_i (i : nat) (index : fm_index)
    (tm : dp_tables * float) : dp_tables * float :=
  let max_w := Z.min W (Z.of_nat i) in
  if (max_w <=? 0)%Z then tm
  else
    let l := 0%N in
    let r := ((fm_size index + 18446744073709551615) mod 18446744073709551616)%N in
    scan_incremental (Z.to_nat max_w) i 1 index l r tm.

(** The loop of the fallback branch of [solve_dp_for_chromosome]:
    one [sdsl::count] per index and per candidate length. *)
Fixpoint scan_fallback (n : nat) (i w : nat) (tm : dp_tables * float)
    : dp_tables * float :=
  match n with
  | O => tm
  | S n' =>
      let j := (i - w)%nat in
      let reusable :=
        existsb (fun index => (0 <? fm_count index (substr chrom_seq j w))%N) indexes in
      let ww := to_double w in
      let acquisition_cost :=
        if reusable then cost_pcr
        else (cost_synth_linear * ww + cost_synth_quad * ww * ww)%float in
      let path_cost :=
        (DP (fst tm) !!! j + acquisition_cost
         + (if (0 <? j)%nat then cost_join else 0%float))%float in
      scan_fallback n' i (S w) (relax i j w reusable path_cost tm)
  end.

(** One iteration of [for (i = 1; i <= N; ++i)]. *)
Definition dp_step (single_index : bool) (i : nat) (t : dp_tables) : dp_tables :=
  let min_cost_for_i := 1e18%float in
  let tm :=
    if single_index then
      match indexes with
      | index0 :: _ => update_min_cost_for_i i index0 (t, min_cost_for_i)
      | [] => (t, min_cost_for_i)
      end
    else
      let max_w := Z.min W (Z.of_nat i) in
      scan_fallback (Z.to_nat max_w) i 1 (t, min_cost_for_i) in
  {| DP := <[i := snd tm]> (DP (fst tm));
     pred := pred (fst tm);
     chosen_len := chosen_len (fst tm);
     chosen_is_reuse := chosen_is_reuse (fst tm) |}.

(** [n] iterations of the sweep, from position [i]. *)
Fixpoint dp_sweep (single_index : bool) (n : nat) (i : nat) (t : dp_tables) : dp_tables :=
  match n with
  | O => t
  | S n' => dp_sweep single_index n' (S i) (dp_step single_index i t)
  end.

(** The tables as allocated, with [DP[0] = 0.0]. *)
Definition init_tables (N : nat) : dp_tables :=
  {| DP := <[0%nat := 0%float]> (replicate (N + 1) 1e18%float);
     pred := replicate (N + 1) (-1)%Z;
     chosen_len := replicate (N + 1) 0%Z;
     chosen_is_reuse := replicate (N + 1) false |}.

Definition dp_fill (single_index : bool) : dp_tables :=
  let N := length chrom_seq in
  dp_sweep single_index N 1 (init_tables N).

(** The loop [while (cur > 0)] of the backtracking, folding [f] over the
    blocks it visits; [None] when [fuel] iterations do not end it. *)
Fixpoint backtrack {A : Type} (f : block -> A -> A) (fuel : nat) (t : dp_tables)
    (cur : nat) (acc : A) : option A :=
  if (0 <? cur)%nat then
    match fuel with
    | O => None
    | S fuel' =>
        let len := chosen_len t !!! cur in
        let is_reuse := chosen_is_reuse t !!! cur in
        let p := pred t !!! cur in
        if ((p <? 0)%Z || (len =? 0)%Z)%bool then Some acc
        else
          backtrack f fuel' t (Z.to_nat p)
            (f {| b_start := Z.to_nat p; b_end := cur; b_len := len; b_reuse := is_reuse |} acc)
    end
  else Some acc.

(** [solve_dp_for_chromosome], with the choice of the branch as a parameter. *)
Definition solve_dp_with (single_index : bool) : option PlannerStats :=
  let N := length chrom_seq in
  if (N =? 0)%nat then Some (stats_of_length N)
  else
    let t := dp_fill single_index in
    match backtrack (fun b => count_block (b_reuse b) (b_len b)) N t N counters0 with
    | Some c => Some (make_stats (DP t !!! N) N c)
    | None => None
    end.

Definition solve_dp_for_chromosome : option PlannerStats :=
  solve_dp_with (length indexes =? 1)%nat.

(** The blocks visited by the backtracking of [solve_dp_for_chromosome],
    first block first. *)
Definition dp_blocks : option (list block) :=
  let N := length chrom_seq in
  backtrack (fun b acc => b :: acc) N (dp_fill (length indexes =? 1)%nat) N [].

(** *** The greedy planner, [greedy_planner_clean.cpp] *)

(** The state of the sweep: position, cost and counters. *)
Record greedy_state : Type := {
  g_i : nat;
  g_total_cost : float;
  g_counters : counters
}.

(** One iteration of [while (i < N)] in [solve_greedy_for_chromosome_stats]. *)
Definition greedy_step (st : greedy_state) : greedy_state :=
  let N := length chrom_seq in
  let i := g_i st in
  let best_w := find_best_w chrom_seq indexes (Z.to_nat (Z.min W (Z.of_nat (N - i)))) i in
  let total_cost :=
    if (0 <? i)%nat then (g_total_cost st + cost_join)%float else g_total_cost st in
  if (0 <? best_w)%nat then
    {| g_i := i + best_w;
       g_total_cost := (total_cost + cost_pcr)%float;
       g_counters := count_block true (Z.of_nat best_w) (g_counters st) |}
  else
    let synth_len := 1%nat in
    {| g_i := i + synth_len;
       g_total_cost :=
         (total_cost
          + cost_synth_nonlinear synth_len cost_synth_linear cost_synth_quad)%float;
       g_counters := count_block false (Z.of_nat synth_len) (g_counters st) |}.

Fixpoint greedy_loop (fuel : nat) (st : greedy_state) : option greedy_state :=
  if (g_i st <? length chrom_seq)%nat then
    match fuel with
    | O => None
    | S fuel' => greedy_loop fuel' (greedy_step st)
    end
  else Some st.

Definition solve_greedy_for_chromosome_stats : option GreedyStats :=
  let N := length chrom_seq in
  if (N =? 0)%nat then Some (stats_of_length N)
  else
    match greedy_loop N {| g_i := 0; g_total_cost := 0%float;
                           g_counters := counters0 |} with
    | Some st => Some (make_stats (g_total_cost st) N (g_counters st))
    | None => None
    end.

(** One iteration of [while (i < N)] in [solve_greedy_for_chromosome], on
    the position and the total cost: the block is paid before its
    junction. *)
Definition cost_only_step (st : nat * float) : nat * float :=
  let N := length chrom_seq in
  let i := fst st in
  let total_cost := snd st in
  let best_w := find_best_w chrom_seq indexes (Z.to_nat (Z.min W (Z.of_nat (N - i)))) i in
  if (0 <? best_w)%nat then
    let total_cost := (total_cost + cost_pcr)%float in
    let total_cost := if (0 <? i)%nat then (total_cost + cost_join)%float else total_cost in
    ((i + best_w)%nat, total_cost)
  else
    let synth_len := 1%nat in
    let total_cost :=
      (total_cost + cost_synth_nonlinear synth_len cost_synth_linear 0%float)%float in
    let total_cost := if (0 <? i)%nat then (total_cost + cost_join)%float else total_cost in
    ((i + synth_len)%nat, total_cost).

Fixpoint cost_only_loop (fuel : nat) (st : nat * float) : option (nat * float) :=
  if (fst st <? length chrom_seq)%nat then
    match fuel with
    | O => None
    | S fuel' => cost_only_loop fuel' (cost_only_step st)
    end
  else Some st.

(** [solve_greedy_for_chromosome] of [greedy_planner_clean.cpp]; its
    parameter [cost_synth_per_base] is [cost_synth_linear] here. *)
Definition solve_greedy_for_chromosome : option float :=
  let N := length chrom_seq in
  if (N =? 0)%nat then Some 0%float
  else
    match cost_only_loop N (0%nat, 0%float) with
    | Some st => Some (snd st)
    | None => None
    end.

End Planners.

End Binary64.

(** For the statements about the greedy sweep. *)

(** Some index holds the text [p]: [sdsl::count] of it is positive. *)
Definition occurs_in (indexes : list fm_index) (p : list ascii) : Prop :=
  exists index, In index indexes /\ (0 < fm_count index p)%N.

(** [b] is the block the greedy policy takes at the position where it
    starts, with [m = min(W, N - i)] candidate lengths: a reuse block of
    the longest length in [[1, m]] that occurs in the source, or, when no
    length in [[1, m]] occurs, a synthesis block of one base. *)
Definition greedy_policy (chrom_seq : list ascii) (W : Z) (indexes : list fm_index)
    (b : block) : Prop :=
  let i := b_start b in
  let w := (b_end b - b_start b)%nat in
  let m := Z.to_nat (Z.min W (Z.of_nat (length chrom_seq - i))) in
  (i < length chrom_seq)%nat /\ b_end b = (i + w)%nat /\ b_len b = Z.of_nat w /\
  if b_reuse b then
    (1 <= w <= m)%nat /\
    occurs_in indexes (firstn w (skipn i chrom_seq)) /\
    (forall w', (w < w' <= m)%nat -> ~ occurs_in indexes (firstn w' (skipn i chrom_seq)))
  else
    w = 1%nat /\
    (forall w', (1 <= w' <= m)%nat -> ~ occurs_in indexes (firstn w' (skipn i chrom_seq))).

(** [total_cost] once the block [b] is paid, as the sweep of
    [solve_greedy_for_chromosome_stats] adds it: the junction first, unless
    the block starts the target, then the block. *)
Definition greedy_charge (cost_pcr cost_join cost_synth_linear cost_synth_quad : float)
    (total_cost : float) (b : block) : float :=
  let total_cost :=
    if (0 <? b_start b)%nat then (total_cost + cost_join)%float else total_cost in
  if b_reuse b then (total_cost + cost_pcr)%float
  else (total_cost + (cost_synth_linear * 1 + cost_synth_quad * 1 * 1))%float.

(** The same for the sweep of [solve_greedy_for_chromosome]: the block
    first, by its linear cost alone when it is synthesised, then the
    junction. *)
Definition cost_only_charge (cost_pcr cost_join cost_synth_per_base : float)
    (total_cost : float) (b : block) : float :=
  let total_cost :=
    if b_reuse b then (total_cost + cost_pcr)%float
    else (total_cost + (cost_synth_per_base * 1 + 0 * 1 * 1))%float in
  if (0 <? b_start b)%nat then (total_cost + cost_join)%float else total_cost.

(** For the statements about the DP planner. *)

(** What the integer vectors hold at position [i], whatever the costs:
    nothing, as allocated, or the predecessor and the length, cast to
    [uint16_t], of a candidate length. *)
Definition recorded (W : Z) (t : Binary64.dp_tables) (i : nat) : Prop :=
  (Binary64.pred t !!! i = (-1)%Z /\ Binary64.chosen_len t !!! i = 0%Z) \/
  exists w, candidate W i w /\
    Binary64.pred t !!! i = Z.of_nat (i - w) /\
    Binary64.chosen_len t !!! i = wrap16 (Z.of_nat w).

Definition tables_ok (chrom_seq : list ascii) (W : Z) (t : Binary64.dp_tables) : Prop :=
  let N := length chrom_seq in
  length (Binary64.pred t) = S N /\ length (Binary64.chosen_len t) = S N /\
  forall i, (1 <= i <= N)%nat -> recorded W t i.

(** The blocks of one synthesised base each from position [i]. *)
Definition single_bases (i n : nat) : list block :=
  map (fun j => {| b_start := j; b_end := j + 1; b_len := 1; b_reuse := false |})
      (seq i n).

(** * Properties *)

(** ** Comparisons and text *)

Lemma Qlt_bool_true (x y : Q) : Qlt_bool x y = true <-> (x < y)%Q.
Proof.
  unfold Qlt_bool. pose proof (Qlt_alt x y) as H.
  destruct (x ?= y)%Q; intuition congruence.
Qed.

Lemma Qlt_bool_false (x y : Q) : Qlt_bool x y = false <-> (y <= x)%Q.
Proof.
  split; intros H.
  - apply Qnot_lt_le. intros Hlt. apply Qlt_bool_true in Hlt. congruence.
  - destruct (Qlt_bool x y) eqn:E; [|reflexivity].
    apply Qlt_bool_true in E. exfalso. apply (Qlt_not_le _ _ E H).
Qed.

Lemma substr_length (s : list ascii) (j w : nat) :
  (j + w <= length s)%nat -> length (substr s j w) = w.
Proof.
  intros H. unfold substr. rewrite length_take, length_drop. lia.
Qed.

Lemma substr_cons (s : list ascii) (j w : nat) :
  (j < length s)%nat ->
  substr s j (S w) = s !!! j :: substr s (S j) w.
Proof.
  intros H. unfold substr.
  destruct (lookup_lt_is_Some_2 s j H) as [c Hc].
  rewrite (drop_S s c j Hc). simpl.
  by rewrite (list_lookup_total_correct s j c Hc).
Qed.

(** ** The incremental sweep against the fallback sweep *)

Section Refinement.

Variable chrom_seq : list ascii.
Variable W : Z.
Variable index : fm_index.
Variables cost_pcr cost_join cost_synth_linear cost_synth_quad : Q.
Hypothesis Hcoh : index_coherent index.

Abbreviation fallback := (scan_fallback chrom_seq [index] cost_pcr cost_join
                        cost_synth_linear cost_synth_quad).
Abbreviation occurs j w := (0 <? fm_count index (substr chrom_seq j w))%N.

(** A block that extends a non-occurring block to the left does not occur. *)
Lemma occurs_suffix (i w w' : nat) :
  (1 <= w)%nat -> (w <= w')%nat -> (w' <= i)%nat -> (i <= length chrom_seq)%nat ->
  occurs (i - w') w' = true -> occurs (i - w) w = true.
Proof.
  intros Hw Hww Hwi Hi.
  induction w' as [|k IH]; [lia|].
  intros Hocc.
  destruct (decide (w = S k)) as [->|Hne]; [exact Hocc|].
  apply IH; [lia | lia |].
  rewrite substr_cons in Hocc by lia.
  replace (S (i - S k)) with (i - k)%nat in Hocc by lia.
  apply N.ltb_lt. apply N.ltb_lt in Hocc.
  destruct Hcoh as [Hmono _].
  apply (Hmono (chrom_seq !!! (i - S k)%nat)); [|exact Hocc].
  intros Hnil. apply (f_equal length) in Hnil.
  rewrite substr_length in Hnil by lia. simpl in Hnil. lia.
Qed.

Lemma synth_tail_fallback (i n w2 : nat) (tm : dp_tables * Q) :
  (forall w', (w2 <= w' < w2 + n)%nat -> occurs (i - w') w' = false) ->
  synth_tail cost_join cost_synth_linear cost_synth_quad n i w2 tm
  = fallback n i w2 tm.
Proof.
  revert w2 tm. induction n as [|n IH]; intros w2 tm Hno; [reflexivity|].
  simpl. rewrite (Hno w2) by lia. simpl.
  apply IH. intros w' Hw'. apply Hno. lia.
Qed.

Lemma scan_incremental_fallback (i n w : nat) (l r : N) (tm : dp_tables * Q) :
  (i <= length chrom_seq)%nat -> (1 <= w)%nat -> (w + n <= S i)%nat ->
  (l, r) = snd (bsearch index (substr chrom_seq (S (i - w)) (w - 1))) ->
  (w = 1%nat \/ occurs (S (i - w)) (w - 1) = true) ->
  scan_incremental chrom_seq cost_pcr cost_join cost_synth_linear cost_synth_quad
    n i w index l r tm
  = fallback n i w tm.
Proof.
  intros Hi. revert w l r tm.
  induction n as [|n IH]; intros w l r tm Hw Hn Hlr Hprev; [reflexivity|].
  cbn [scan_incremental scan_fallback].
  assert (Hsub : substr chrom_seq (i - w) w
                = chrom_seq !!! (i - w)%nat :: substr chrom_seq (S (i - w)) (w - 1)).
  { destruct w as [|k]; [lia|]. rewrite substr_cons by lia.
    by replace (S k - 1)%nat with k by lia. }
  assert (Hbs : fm_backward_search index l r (chrom_seq !!! (i - w)%nat)
                = bsearch index (substr chrom_seq (i - w) w)).
  { rewrite Hsub. cbn [bsearch].
    destruct (bsearch index (substr chrom_seq (S (i - w)) (w - 1))) as [o [l0 r0]].
    simpl in Hlr. by inversion Hlr. }
  assert (Hagree : (0 < fst (bsearch index (substr chrom_seq (i - w) w)))%N
                   <-> (0 < fm_count index (substr chrom_seq (i - w) w))%N).
  { rewrite Hsub. destruct Hcoh as [_ Hext]. apply Hext.
    destruct Hprev as [->|Hocc].
    - left. reflexivity.
    - right. by apply N.ltb_lt. }
  rewrite Hbs.
  destruct (bsearch index (substr chrom_seq (i - w) w)) as [occ [l2 r2]] eqn:Ebs.
  simpl in Hagree.
  assert (Hreuse : (0 <? occ)%N = occurs (i - w) w).
  { destruct (0 <? occ)%N eqn:E1, (occurs (i - w) w) eqn:E2; try reflexivity.
    - apply N.ltb_lt, Hagree, N.ltb_lt in E1. congruence.
    - apply N.ltb_lt, Hagree, N.ltb_lt in E2. congruence. }
  cbn [existsb]. rewrite orb_false_r, <- Hreuse.
  destruct (occ =? 0)%N eqn:Eocc.
  - apply synth_tail_fallback.
    intros w' Hw'.
    destruct (occurs (i - w') w') eqn:E; [|reflexivity].
    apply (occurs_suffix i w w') in E; [|lia..].
    rewrite <- Hreuse in E. apply N.eqb_eq in Eocc. subst occ. discriminate.
  - destruct n as [|n']; [reflexivity|].
    apply IH; [lia | lia | |].
    + replace (S (i - S w)) with (i - w)%nat by lia.
      replace (S w - 1)%nat with w by lia. by rewrite Ebs.
    + right. replace (S (i - S w)) with (i - w)%nat by lia.
      replace (S w - 1)%nat with w by lia.
      rewrite <- Hreuse. apply N.ltb_lt. apply N.eqb_neq in Eocc. lia.
Qed.

Lemma update_min_cost_fallback (i : nat) (tm : dp_tables * Q) :
  (i <= length chrom_seq)%nat ->
  update_min_cost_for_i chrom_seq W cost_pcr cost_join cost_synth_linear
    cost_synth_quad i index tm
  = fallback (Z.to_nat (Z.min W (Z.of_nat i))) i 1 tm.
Proof.
  intros Hi. unfold update_min_cost_for_i.
  destruct (Z.min W (Z.of_nat i) <=? 0)%Z eqn:E.
  - apply Z.leb_le in E.
    replace (Z.to_nat (Z.min W (Z.of_nat i))) with 0%nat by lia. reflexivity.
  - apply Z.leb_gt in E.
    apply scan_incremental_fallback; [lia | lia | lia | | by left].
    replace (1 - 1)%nat with 0%nat by lia. reflexivity.
Qed.

Lemma dp_step_fallback (i : nat) (t : dp_tables) :
  (i <= length chrom_seq)%nat ->
  dp_step chrom_seq W [index] cost_pcr cost_join cost_synth_linear cost_synth_quad
    true i t
  = dp_step chrom_seq W [index] cost_pcr cost_join cost_synth_linear cost_synth_quad
    false i t.
Proof.
  intros Hi. unfold dp_step. by rewrite update_min_cost_fallback.
Qed.

Lemma dp_sweep_fallback (n i : nat) (t : dp_tables) :
  (i + n <= S (length chrom_seq))%nat ->
  dp_sweep chrom_seq W [index] cost_pcr cost_join cost_synth_linear cost_synth_quad
    true n i t
  = dp_sweep chrom_seq W [index] cost_pcr cost_join cost_synth_linear cost_synth_quad
    false n i t.
Proof.
  revert i t. induction n as [|n IH]; intros i t Hn; [reflexivity|].
  simpl. rewrite dp_step_fallback by lia. apply IH. lia.
Qed.

Lemma dp_fill_fallback :
  dp_fill chrom_seq W [index] cost_pcr cost_join cost_synth_linear cost_synth_quad true
  = dp_fill chrom_seq W [index] cost_pcr cost_join cost_synth_linear cost_synth_quad false.
Proof. unfold dp_fill. apply dp_sweep_fallback. lia. Qed.

End Refinement.

(** ** The sweep of the fallback branch *)

Section Sweep.

Variable chrom_seq : list ascii.
Variable W : Z.
Variable indexes : list fm_index.
Variables cost_pcr cost_join cost_synth_linear cost_synth_quad : Q.

Abbreviation N := (length chrom_seq).
Abbreviation pcost := (path_cost chrom_seq indexes cost_pcr cost_join
                         cost_synth_linear cost_synth_quad).
Abbreviation scan := (scan_fallback chrom_seq indexes cost_pcr cost_join
                        cost_synth_linear cost_synth_quad).
Abbreviation reuse := (reusable chrom_seq indexes).
Abbreviation step := (dp_step chrom_seq W indexes cost_pcr cost_join
                        cost_synth_linear cost_synth_quad false).
Abbreviation inv := (tables_inv chrom_seq W indexes cost_pcr cost_join
                       cost_synth_linear cost_synth_quad).
Abbreviation cell := (cell_spec chrom_seq W indexes cost_pcr cost_join
                        cost_synth_linear cost_synth_quad).

(** The outcome of scanning the lengths [w .. w + n - 1] at position [i]. *)
Lemma scan_fallback_spec (D : list Q) (i n w : nat) (tm : dp_tables * Q) :
  DP (fst tm) = D ->
  let r := scan n i w tm in
  DP (fst r) = D /\
  (snd r <= snd tm)%Q /\
  (forall w', (w <= w' < w + n)%nat -> (snd r <= pcost D i w')%Q) /\
  (r = tm \/
   exists w0, (w <= w0 < w + n)%nat /\
     snd r = pcost D i w0 /\
     (pcost D i w0 < snd tm)%Q /\
     (forall w', (w <= w' < w0)%nat -> (pcost D i w0 < pcost D i w')%Q) /\
     pred (fst r) = <[i := Z.of_nat (i - w0)]> (pred (fst tm)) /\
     chosen_len (fst r) = <[i := wrap16 (Z.of_nat w0)]> (chosen_len (fst tm)) /\
     chosen_is_reuse (fst r) = <[i := reuse (i - w0) w0]> (chosen_is_reuse (fst tm))).
Proof.
  revert w tm. induction n as [|n IH]; intros w tm HD r.
  - subst r. simpl. repeat split; [exact HD | apply Qle_refl | intros; lia | by left].
  - subst r. cbn [scan_fallback].
    set (pc := (DP (fst tm) !!! (i - w)%nat
                + (if existsb (fun index => (0 <? fm_count index (substr chrom_seq (i - w) w))%N) indexes
                   then cost_pcr
                   else cost_synth_linear * to_double w + cost_synth_quad * to_double w * to_double w)
                + (if (0 <? i - w)%nat then cost_join else 0))%Q).
    assert (Hpc : pc = pcost D i w) by (subst pc; rewrite HD; reflexivity).
    unfold relax.
    destruct (Qlt_bool pc (snd tm)) eqn:Elt.
    + apply Qlt_bool_true in Elt.
      match goal with |- context [scan n i (S w) ?x] => set (tm1 := x) end.
      destruct (IH (S w) tm1 HD) as (H1 & H2 & H3 & H4).
      split; [exact H1|]. simpl in H2.
      split; [apply Qle_trans with pc; [exact H2 | apply Qlt_le_weak, Elt]|].
      split.
      { intros w' Hw'. destruct (decide (w' = w)) as [->|Hne].
        - rewrite <- Hpc. exact H2.
        - apply H3. lia. }
      right. destruct H4 as [Heq | (w0 & Hw0 & E1 & E2 & E3 & E4 & E5 & E6)].
      * exists w. rewrite Heq. simpl.
        split; [lia|]. split; [exact Hpc|]. split; [by rewrite <- Hpc|].
        split; [intros; lia|]. done.
      * exists w0. simpl in E2, E4, E5, E6.
        split; [lia|]. split; [exact E1|].
        split; [apply Qlt_trans with pc; [exact E2 | exact Elt]|].
        split.
        { intros w' Hw'. destruct (decide (w' = w)) as [->|Hne].
          - rewrite <- Hpc. exact E2.
          - apply E3. lia. }
        rewrite E4, E5, E6. by rewrite !list_insert_insert_eq.
    + apply Qlt_bool_false in Elt.
      destruct (IH (S w) tm HD) as (H1 & H2 & H3 & H4).
      split; [exact H1|]. split; [exact H2|].
      split.
      { intros w' Hw'. destruct (decide (w' = w)) as [->|Hne].
        - rewrite <- Hpc. apply Qle_trans with (snd tm); assumption.
        - apply H3. lia. }
      destruct H4 as [Heq | (w0 & Hw0 & E1 & E2 & E3 & E4 & E5 & E6)]; [by left|].
      right. exists w0.
      split; [lia|]. split; [exact E1|]. split; [exact E2|].
      split; [|done].
      intros w' Hw'. destruct (decide (w' = w)) as [->|Hne].
      * rewrite <- Hpc. apply Qlt_le_trans with (snd tm); assumption.
      * apply E3. lia.
Qed.

Lemma path_cost_ext (D D' : list Q) (i w : nat) :
  D' !!! (i - w)%nat = D !!! (i - w)%nat -> pcost D' i w = pcost D i w.
Proof. intros H. unfold path_cost. by rewrite H. Qed.

Lemma candidate_range (i w : nat) :
  candidate W i w <-> (1 <= w < 1 + Z.to_nat (Z.min W (Z.of_nat i)))%nat.
Proof. unfold candidate. lia. Qed.

(** A cell only depends on the entries at positions up to its own. *)
Lemma cell_spec_ext (t t' : dp_tables) (i : nat) :
  (forall x, (x <= i)%nat -> DP t' !!! x = DP t !!! x) ->
  pred t' !!! i = pred t !!! i ->
  chosen_len t' !!! i = chosen_len t !!! i ->
  chosen_is_reuse t' !!! i = chosen_is_reuse t !!! i ->
  cell t i -> cell t' i.
Proof.
  intros HD Hp Hl Hr (H1 & H2 & H3).
  assert (Hpc : forall w, pcost (DP t') i w = pcost (DP t) i w).
  { intros w. apply path_cost_ext. apply HD. lia. }
  unfold cell_spec, unreached, chosen.
  rewrite Hp, Hl, Hr, (HD i) by lia.
  split; [exact H1|]. split.
  - intros w Hw. rewrite Hpc. by apply H2.
  - destruct H3 as [H3 | (w & Hw & E1 & E2 & E3 & E4)]; [by left|].
    right. exists w. rewrite Hpc. split; [exact Hw|]. split; [exact E1|].
    split; [exact E2|]. split; [|exact E4].
    intros w' Hw' Hlt. rewrite Hpc. by apply E3.
Qed.

Lemma step_inv (k : nat) (t : dp_tables) :
  (k < N)%nat -> inv k t -> inv (S k) (step (S k) t).
Proof.
  intros Hk (L1 & L2 & L3 & L4 & H0 & Hcells & Hrest).
  unfold dp_step.
  set (n := Z.to_nat (Z.min W (Z.of_nat (S k)))).
  destruct (scan_fallback_spec (DP t) (S k) n 1 (t, 1e18%Q) eq_refl)
    as (H1 & H2 & H3 & H4).
  set (r := scan n (S k) 1 (t, 1e18%Q)) in *.
  simpl in H2.
  assert (Hlen : length (pred (fst r)) = S N /\ length (chosen_len (fst r)) = S N
                 /\ length (chosen_is_reuse (fst r)) = S N).
  { destruct H4 as [-> | (w0 & _ & _ & _ & _ & E4 & E5 & E6)]; [done|].
    rewrite E4, E5, E6, !length_insert. done. }
  assert (Hother : forall x, x <> S k ->
            pred (fst r) !!! x = pred t !!! x /\
            chosen_len (fst r) !!! x = chosen_len t !!! x /\
            chosen_is_reuse (fst r) !!! x = chosen_is_reuse t !!! x).
  { intros x Hx.
    destruct H4 as [-> | (w0 & _ & _ & _ & _ & E4 & E5 & E6)]; [done|].
    rewrite E4, E5, E6. simpl.
    by rewrite !list_lookup_total_insert_ne. }
  assert (HDP : forall x, x <> S k -> <[S k := snd r]> (DP (fst r)) !!! x = DP t !!! x).
  { intros x Hx. rewrite list_lookup_total_insert_ne by done. by rewrite H1. }
  assert (HDPi : <[S k := snd r]> (DP (fst r)) !!! S k = snd r).
  { apply list_lookup_total_insert_eq. rewrite H1. lia. }
  assert (Hpc : forall w, (1 <= w)%nat ->
            pcost (<[S k := snd r]> (DP (fst r))) (S k) w = pcost (DP t) (S k) w).
  { intros w Hw. apply path_cost_ext. apply HDP. lia. }
  destruct Hlen as (L2' & L3' & L4').
  unfold tables_inv. cbn [DP pred chosen_len chosen_is_reuse].
  split; [by rewrite length_insert, H1|].
  split; [exact L2'|]. split; [exact L3'|]. split; [exact L4'|].
  split; [by rewrite HDP by lia|].
  split.
  - intros i Hi. destruct (decide (i = S k)) as [->|Hne].
    + unfold cell_spec, unreached, chosen. cbn [DP pred chosen_len chosen_is_reuse].
      rewrite HDPi.
      split; [exact H2|]. split.
      * intros w Hw. rewrite Hpc by apply Hw. apply H3.
        by apply candidate_range.
      * destruct H4 as [Heq | (w0 & Hw0 & E1 & E2 & E3 & E4 & E5 & E6)].
        -- left. rewrite Heq. simpl.
           destruct (Hrest (S k)) as (P1 & P2 & P3); [lia|]. done.
        -- right. exists w0.
           assert (Hc : candidate W (S k) w0) by (by apply candidate_range).
           rewrite Hpc by apply Hc.
           split; [exact Hc|]. split; [exact E1|]. split; [exact E2|].
           split.
           { intros w' Hw' Hlt. rewrite Hpc by apply Hw'. apply E3.
             apply candidate_range in Hw'. lia. }
           rewrite E4, E5, E6. simpl.
           rewrite !list_lookup_total_insert_eq by lia. done.
    + apply (cell_spec_ext t).
      * intros x Hx. cbn [DP]. apply HDP. lia.
      * apply Hother, Hne.
      * apply Hother, Hne.
      * apply Hother, Hne.
      * apply Hcells. lia.
  - intros i Hi.
    destruct (Hother i) as (P1 & P2 & P3); [lia|].
    rewrite P1, P2, P3. apply Hrest. lia.
Qed.

Lemma sweep_inv (n k : nat) (t : dp_tables) :
  (k + n <= N)%nat -> inv k t ->
  inv (k + n)
    (dp_sweep chrom_seq W indexes cost_pcr cost_join cost_synth_linear
       cost_synth_quad false n (S k) t).
Proof.
  revert k t. induction n as [|n IH]; intros k t Hn Hinv.
  - by replace (k + 0)%nat with k by lia.
  - simpl. replace (k + S n)%nat with (S k + n)%nat by lia.
    apply IH; [lia|]. apply step_inv; [lia | exact Hinv].
Qed.

Lemma init_inv : inv 0 (init_tables N).
Proof.
  unfold tables_inv, init_tables. cbn [DP pred chosen_len chosen_is_reuse].
  rewrite length_insert, !length_replicate.
  split; [lia|]. split; [lia|]. split; [lia|]. split; [lia|].
  split; [apply list_lookup_total_insert_eq; rewrite length_replicate; lia|].
  split; [intros; lia|].
  intros i Hi. rewrite !lookup_total_replicate_2 by lia. done.
Qed.

Lemma fill_inv :
  inv N (dp_fill chrom_seq W indexes cost_pcr cost_join cost_synth_linear
           cost_synth_quad false).
Proof. unfold dp_fill. apply (sweep_inv N 0); [lia | apply init_inv]. Qed.

End Sweep.

(** ** Partitions and their costs *)

Section Partitions.

Variable chrom_seq : list ascii.
Variable W : Z.
Variable indexes : list fm_index.
Variables cost_pcr cost_join cost_synth_linear cost_synth_quad : Q.

Abbreviation pcost' := (path_cost chrom_seq indexes cost_pcr cost_join
                          cost_synth_linear cost_synth_quad).
Abbreviation part_cost := (partition_cost chrom_seq indexes cost_pcr cost_join
                             cost_synth_linear cost_synth_quad).
Abbreviation bcost := (block_cost chrom_seq indexes cost_pcr cost_join
                         cost_synth_linear cost_synth_quad).
Abbreviation inv' := (tables_inv chrom_seq W indexes cost_pcr cost_join
                        cost_synth_linear cost_synth_quad).
Abbreviation acq := (acquisition_cost cost_pcr cost_synth_linear cost_synth_quad).

Lemma partition_cost_app (start : nat) (a b : list nat) :
  (part_cost start (a ++ b)
   == part_cost start a + part_cost (start + list_sum a) b)%Q.
Proof.
  revert start. induction a as [|w a IH]; intros start.
  - simpl. rewrite Nat.add_0_r. lra.
  - simpl. rewrite IH, Nat.add_assoc. lra.
Qed.

Lemma path_cost_eq (D : list Q) (i w : nat) :
  (pcost' D i w == D !!! (i - w)%nat + bcost (i - w) w)%Q.
Proof. unfold path_cost, block_cost. lra. Qed.

(** No partition of a prefix is cheaper than its table entry. *)
Lemma dp_lower_bound (t : dp_tables) (ws : list nat) :
  inv' (length chrom_seq) t ->
  forall i, (i <= length chrom_seq)%nat ->
  is_partition W i ws ->
  (DP t !!! i <= part_cost 0 ws)%Q.
Proof.
  intros Hinv. induction ws as [|w ws IH] using rev_ind; intros i Hi [Hall Hsum].
  - simpl in Hsum. subst i.
    destruct Hinv as (_ & _ & _ & _ & H0 & _). rewrite H0. simpl. lra.
  - apply Forall_app in Hall as [Hall Hw].
    apply Forall_inv in Hw.
    rewrite list_sum_app in Hsum. simpl in Hsum.
    assert (Hj : list_sum ws = (i - w)%nat) by lia.
    assert (IHj := IH (i - w)%nat ltac:(lia) (conj Hall Hj)).
    destruct Hinv as (_ & _ & _ & _ & _ & Hcells & _).
    destruct (Hcells i ltac:(lia)) as (_ & Hle & _).
    assert (Hc : candidate W i w) by (unfold candidate; lia).
    specialize (Hle w Hc).
    rewrite path_cost_eq in Hle.
    rewrite partition_cost_app. simpl. rewrite Hj.
    lra.
Qed.

Lemma chain_app (a m b : nat) (bs bs' : list block) :
  chain a bs m -> chain m bs' b -> chain a (bs ++ bs') b.
Proof.
  revert a. induction bs as [|x bs IH]; intros a H1 H2.
  - simpl in *. by subst.
  - simpl in *. destruct H1 as [Hs Hc]. split; [exact Hs|]. by apply IH.
Qed.

Lemma chain_sum (a b : nat) (bs : list block) :
  chain a bs b ->
  Forall (fun x => (b_start x <= b_end x)%nat) bs ->
  (a + list_sum (map block_length bs) = b)%nat.
Proof.
  revert a. induction bs as [|x bs IH]; intros a Hc Hall.
  - simpl in *. lia.
  - simpl in *. destruct Hc as [Hs Hc].
    apply Forall_cons_1 in Hall as [Hx Hall].
    specialize (IH _ Hc Hall). unfold block_length at 1. lia.
Qed.

Lemma chain_length (a b : nat) (bs : list block) :
  chain a bs b ->
  Forall (fun x => (b_start x < b_end x)%nat) bs ->
  (a + length bs <= b)%nat.
Proof.
  revert a. induction bs as [|x bs IH]; intros a Hc Hall.
  - simpl in *. lia.
  - simpl in *. destruct Hc as [Hs Hc].
    apply Forall_cons_1 in Hall as [Hx Hall].
    specialize (IH _ Hc Hall). lia.
Qed.

Lemma acquisition_cost_nonneg (r : bool) (L : nat) :
  (0 <= cost_pcr)%Q -> (0 <= cost_synth_linear)%Q -> (0 <= cost_synth_quad)%Q ->
  (0 <= acq r L)%Q.
Proof.
  intros H1 H2 H3. unfold acquisition_cost. destruct r; [exact H1|].
  assert (Hx : (0 <= to_double L)%Q).
  { unfold to_double. change 0%Q with (inject_Z 0). rewrite <- Zle_Qle. lia. }
  assert (Ha := Qmult_le_0_compat _ _ H2 Hx).
  assert (Hb := Qmult_le_0_compat _ _ (Qmult_le_0_compat _ _ H3 Hx) Hx).
  lra.
Qed.

(** *** Backtracking *)

Section Backtracking.

Hypothesis Hpcr : (0 <= cost_pcr)%Q.
Hypothesis Hjoin : (0 <= cost_join)%Q.
Hypothesis Hlin : (0 <= cost_synth_linear)%Q.
Hypothesis Hquad : (0 <= cost_synth_quad)%Q.
Hypothesis HW16 : (W <= 65535)%Z.

Variable t : dp_tables.
Hypothesis Hinv : inv' (length chrom_seq) t.

(** From a position whose entry is below the sentinel, the loop walks back
    to [0] over blocks that are all as recorded, and their cost is the
    entry. *)
Lemma backtrack_spec (i : nat) :
  (i <= length chrom_seq)%nat ->
  (DP t !!! i < 1e18)%Q ->
  exists bs : list block,
    (forall (A : Type) (f : block -> A -> A) (fuel : nat) (acc : A),
        (i <= fuel)%nat ->
        backtrack f fuel t i acc = Some (fold_right f acc bs)) /\
    chain 0 bs i /\
    Forall (block_ok chrom_seq W indexes) bs /\
    (part_cost 0 (map block_length bs) == DP t !!! i)%Q.
Proof.
  induction i as [i IH] using lt_wf_ind. intros Hi Hlt.
  destruct (decide (i = 0%nat)) as [->|Hpos].
  { exists []. split; [|split; [|split]].
    - intros A f fuel acc _. by destruct fuel.
    - reflexivity.
    - constructor.
    - destruct Hinv as (_ & _ & _ & _ & H0 & _). rewrite H0. simpl. lra. }
  pose proof Hinv as (_ & _ & _ & _ & _ & Hcells & _).
  destruct (Hcells i ltac:(lia)) as (_ & _ & [Hun | (w & Hc & E1 & E2 & _ & Ep & El & Er)]).
  { destruct Hun as (Hun & _). rewrite Hun in Hlt. exfalso. lra. }
  pose proof Hc as (Hw1 & Hwi & HwW).
  assert (Hjlt : (DP t !!! (i - w)%nat < 1e18)%Q).
  { rewrite path_cost_eq in E2.
    assert (Hb : (0 <= bcost (i - w) w)%Q).
    { unfold block_cost.
      pose proof (acquisition_cost_nonneg
                    (reusable chrom_seq indexes (i - w) w) w Hpcr Hlin Hquad).
      destruct (0 <? i - w)%nat; lra. }
    lra. }
  destruct (IH (i - w)%nat ltac:(lia) ltac:(lia) Hjlt) as (bs & Hrun & Hchain & Hok & Hcost).
  set (b := {| b_start := (i - w)%nat; b_end := i;
               b_len := wrap16 (Z.of_nat w);
               b_reuse := reusable chrom_seq indexes (i - w) w |}).
  assert (Hwrap : wrap16 (Z.of_nat w) = Z.of_nat w).
  { unfold wrap16. apply Z.mod_small. lia. }
  assert (Hblen : block_length b = w) by (unfold block_length; simpl; lia).
  exists (bs ++ [b]). split; [|split; [|split]].
  - intros A f fuel acc Hfuel.
    destruct fuel as [|fuel]; [lia|].
    cbn [backtrack].
    replace (0 <? i)%nat with true by (symmetry; apply Nat.ltb_lt; lia).
    rewrite Ep, El, Er, Hwrap.
    replace (Z.of_nat (i - w) <? 0)%Z with false by (symmetry; apply Z.ltb_ge; lia).
    replace (Z.of_nat w =? 0)%Z with false by (symmetry; apply Z.eqb_neq; lia).
    cbn [orb]. rewrite Nat2Z.id.
    rewrite Hrun by lia.
    rewrite fold_right_app. cbn [fold_right]. subst b. by rewrite Hwrap.
  - apply (chain_app _ (i - w)%nat); [exact Hchain|].
    simpl. split; [reflexivity|]. reflexivity.
  - apply Forall_app. split; [exact Hok|].
    constructor; [|constructor].
    unfold block_ok. rewrite Hblen. cbn [b b_end b_len b_reuse b_start].
    split; [exact Hc|]. split; [exact Hwrap|]. reflexivity.
  - rewrite map_app, partition_cost_app. cbn [map partition_cost].
    assert (Hsum : (0 + list_sum (map block_length bs) = i - w)%nat).
    { apply chain_sum; [exact Hchain|].
      eapply Forall_impl; [exact Hok|].
      intros x (Hcx & _). destruct Hcx as (Hx1 & Hx2 & _).
      unfold block_length in Hx1. lia. }
    rewrite Hsum, Hblen, Hcost, E1, path_cost_eq. lra.
Qed.

End Backtracking.

End Partitions.

(** ** Termination of the backtracking *)

Section Termination.

Variable chrom_seq : list ascii.
Variable W : Z.
Variable indexes : list fm_index.
Variables cost_pcr cost_join cost_synth_linear cost_synth_quad : Q.

Lemma relax_pred_below (i j w : nat) (r : bool) (pc : Q) (tm : dp_tables * Q) :
  (j < i)%nat -> pred_below chrom_seq (fst tm) -> pred_below chrom_seq (fst (relax i j w r pc tm)).
Proof.
  intros Hj Hp. unfold relax. destruct (Qlt_bool pc (snd tm)); [|exact Hp].
  intros x Hx. cbn [fst pred].
  destruct (decide (x = i)) as [->|Hne].
  - destruct (decide (i < length (pred (fst tm)))%nat) as [Hlt|Hge].
    + rewrite list_lookup_total_insert_eq by exact Hlt. lia.
    + rewrite list_insert_ge by lia. by apply Hp.
  - rewrite list_lookup_total_insert_ne by done. by apply Hp.
Qed.

Lemma synth_tail_pred_below (n i w2 : nat) (tm : dp_tables * Q) :
  (1 <= i)%nat -> (1 <= w2)%nat -> pred_below chrom_seq (fst tm) ->
  pred_below chrom_seq (fst (synth_tail cost_join cost_synth_linear cost_synth_quad n i w2 tm)).
Proof.
  revert w2 tm. induction n as [|n IH]; intros w2 tm Hi Hw Hp; [exact Hp|].
  cbn [synth_tail]. apply IH; [lia | lia |].
  apply relax_pred_below; [lia | exact Hp].
Qed.

Lemma scan_incremental_pred_below (n i w : nat) (index : fm_index) (l r : N)
    (tm : dp_tables * Q) :
  (1 <= i)%nat -> (1 <= w)%nat -> pred_below chrom_seq (fst tm) ->
  pred_below chrom_seq (fst (scan_incremental chrom_seq cost_pcr cost_join cost_synth_linear
                     cost_synth_quad n i w index l r tm)).
Proof.
  revert w l r tm. induction n as [|n IH]; intros w l r tm Hi Hw Hp; [exact Hp|].
  cbn [scan_incremental].
  destruct (fm_backward_search index l r (chrom_seq !!! (i - w)%nat)) as [occ [l2 r2]].
  destruct (occ =? 0)%N.
  - apply synth_tail_pred_below; [lia | lia |].
    apply relax_pred_below; [lia | exact Hp].
  - apply IH; [lia | lia |]. apply relax_pred_below; [lia | exact Hp].
Qed.

Lemma scan_fallback_pred_below (n i w : nat) (tm : dp_tables * Q) :
  (1 <= i)%nat -> (1 <= w)%nat -> pred_below chrom_seq (fst tm) ->
  pred_below chrom_seq (fst (scan_fallback chrom_seq indexes cost_pcr cost_join
                     cost_synth_linear cost_synth_quad n i w tm)).
Proof.
  revert w tm. induction n as [|n IH]; intros w tm Hi Hw Hp; [exact Hp|].
  cbn [scan_fallback]. apply IH; [lia | lia |].
  apply relax_pred_below; [lia | exact Hp].
Qed.

Lemma dp_step_pred_below (single_index : bool) (i : nat) (t : dp_tables) :
  (1 <= i)%nat -> pred_below chrom_seq t ->
  pred_below chrom_seq (dp_step chrom_seq W indexes cost_pcr cost_join cost_synth_linear
                cost_synth_quad single_index i t).
Proof.
  intros Hi Hp. unfold dp_step.
  match goal with |- pred_below chrom_seq {| DP := _; pred := pred (fst ?x);
                                    chosen_len := _; chosen_is_reuse := _ |} =>
    assert (H : pred_below chrom_seq (fst x)) end.
  { destruct single_index.
    - destruct indexes as [|index0 rest]; [exact Hp|].
      unfold update_min_cost_for_i.
      destruct (Z.min W (Z.of_nat i) <=? 0)%Z; [exact Hp|].
      by apply scan_incremental_pred_below.
    - by apply scan_fallback_pred_below. }
  exact H.
Qed.

Lemma dp_sweep_pred_below (single_index : bool) (n i : nat) (t : dp_tables) :
  (1 <= i)%nat -> pred_below chrom_seq t ->
  pred_below chrom_seq (dp_sweep chrom_seq W indexes cost_pcr cost_join cost_synth_linear
                cost_synth_quad single_index n i t).
Proof.
  revert i t. induction n as [|n IH]; intros i t Hi Hp; [exact Hp|].
  simpl. apply IH; [lia|]. by apply dp_step_pred_below.
Qed.

Lemma dp_fill_pred_below (single_index : bool) :
  pred_below chrom_seq (dp_fill chrom_seq W indexes cost_pcr cost_join cost_synth_linear
                cost_synth_quad single_index).
Proof.
  unfold dp_fill. apply dp_sweep_pred_below; [lia|].
  intros i Hi. unfold init_tables. cbn [pred].
  rewrite lookup_total_replicate_2 by lia. lia.
Qed.

(** The loop ends within [cur] iterations, on at most [cur] blocks. *)
Lemma backtrack_total (t : dp_tables) :
  pred_below chrom_seq t ->
  forall (fuel cur : nat), (cur <= fuel)%nat -> (cur <= length chrom_seq)%nat ->
  exists bs : list block,
    (length bs <= cur)%nat /\
    forall (A : Type) (f : block -> A -> A) (acc : A),
      backtrack f fuel t cur acc = Some (fold_right f acc bs).
Proof.
  intros Hp fuel.
  induction fuel as [|fuel IH]; intros cur Hfuel Hcur.
  - exists []. split; [simpl; lia|]. intros A f acc.
    replace cur with 0%nat by lia. reflexivity.
  - destruct (decide (cur = 0%nat)) as [->|Hpos].
    { exists []. split; [simpl; lia|]. reflexivity. }
    specialize (Hp cur ltac:(lia)).
    destruct ((pred t !!! cur <? 0)%Z || (chosen_len t !!! cur =? 0)%Z)%bool eqn:Estop.
    + exists []. split; [simpl; lia|]. intros A f acc.
      cbn [backtrack].
      replace (0 <? cur)%nat with true by (symmetry; apply Nat.ltb_lt; lia).
      by rewrite Estop.
    + destruct (IH (Z.to_nat (pred t !!! cur)) ltac:(lia) ltac:(lia)) as (bs & Hlen & Hrun).
      exists (bs ++ [{| b_start := Z.to_nat (pred t !!! cur); b_end := cur;
                        b_len := chosen_len t !!! cur;
                        b_reuse := chosen_is_reuse t !!! cur |}]).
      split; [rewrite length_app; simpl; lia|].
      intros A f acc. cbn [backtrack].
      replace (0 <? cur)%nat with true by (symmetry; apply Nat.ltb_lt; lia).
      rewrite Estop, Hrun, fold_right_app. reflexivity.
Qed.

End Termination.

(** ** The counters *)

Lemma wrap64_small (z : Z) :
  (0 <= z < 18446744073709551616)%Z -> wrap64 z = z.
Proof. intros H. unfold wrap64. by apply Z.mod_small. Qed.

Lemma wrap64_add_l (a b : Z) : wrap64 (wrap64 a + b) = wrap64 (a + b).
Proof. unfold wrap64. apply Zplus_mod_idemp_l. Qed.

Lemma moves_of_cons (r : bool) (b : block) (bs : list block) :
  moves_of r (b :: bs)
  = ((if Bool.eqb (b_reuse b) r then 1 else 0) + moves_of r bs)%Z.
Proof.
  unfold moves_of, blocks_of. simpl.
  destruct (Bool.eqb (b_reuse b) r); simpl length; lia.
Qed.

Lemma bases_of_cons (r : bool) (b : block) (bs : list block) :
  bases_of r (b :: bs)
  = ((if Bool.eqb (b_reuse b) r then b_len b else 0) + bases_of r bs)%Z.
Proof.
  unfold bases_of, blocks_of. simpl.
  destruct (Bool.eqb (b_reuse b) r); simpl; lia.
Qed.

Lemma counts_of_cons (b : block) (bs : list block) :
  counts_of (b :: bs) = count_block (b_reuse b) (b_len b) (counts_of bs).
Proof.
  unfold counts_of, count_block.
  rewrite !moves_of_cons, !bases_of_cons.
  cbn [length c_segments c_reuse_moves c_synth_moves c_reuse_bases c_synth_bases].
  rewrite Nat2Z.inj_succ.
  destruct (b_reuse b); cbn [Bool.eqb]; rewrite !wrap64_add_l; f_equal; f_equal; lia.
Qed.

Lemma moves_of_snoc (r : bool) (b : block) (bs : list block) :
  moves_of r (bs ++ [b])
  = ((if Bool.eqb (b_reuse b) r then 1 else 0) + moves_of r bs)%Z.
Proof.
  induction bs as [|x bs IH].
  - apply moves_of_cons.
  - simpl app. rewrite !moves_of_cons, IH. lia.
Qed.

Lemma bases_of_snoc (r : bool) (b : block) (bs : list block) :
  bases_of r (bs ++ [b])
  = ((if Bool.eqb (b_reuse b) r then b_len b else 0) + bases_of r bs)%Z.
Proof.
  induction bs as [|x bs IH].
  - apply bases_of_cons.
  - simpl app. rewrite !bases_of_cons, IH. lia.
Qed.

Lemma counts_of_snoc (b : block) (bs : list block) :
  counts_of (bs ++ [b]) = count_block (b_reuse b) (b_len b) (counts_of bs).
Proof.
  unfold counts_of, count_block.
  rewrite !moves_of_snoc, !bases_of_snoc, length_app.
  cbn [length c_segments c_reuse_moves c_synth_moves c_reuse_bases c_synth_bases].
  replace (Z.of_nat (length bs + 1)) with (Z.of_nat (length bs) + 1)%Z by lia.
  destruct (b_reuse b); cbn [Bool.eqb]; rewrite !wrap64_add_l; f_equal; f_equal; lia.
Qed.

Lemma fold_count_blocks (bs : list block) :
  fold_right (fun b => count_block (b_reuse b) (b_len b)) counters0 bs = counts_of bs.
Proof.
  induction bs as [|b bs IH]; [reflexivity|].
  simpl. by rewrite IH, counts_of_cons.
Qed.

Lemma fold_cons_blocks (bs : list block) :
  fold_right (fun b acc => b :: acc) [] bs = bs.
Proof. induction bs as [|b bs IH]; [reflexivity|]. simpl. by rewrite IH. Qed.

Lemma moves_of_total (bs : list block) :
  (moves_of true bs + moves_of false bs)%Z = Z.of_nat (length bs) /\
  (0 <= moves_of true bs)%Z /\ (0 <= moves_of false bs)%Z.
Proof.
  induction bs as [|b bs IH].
  - unfold moves_of. simpl. lia.
  - rewrite !moves_of_cons. cbn [length].
    destruct (b_reuse b); cbn [Bool.eqb]; lia.
Qed.

(** The bases recorded for blocks that follow each other from [a] to [b],
    when each block records its own length. *)
Lemma bases_of_total (a b : nat) (bs : list block) :
  chain a bs b ->
  Forall (fun x => (b_start x <= b_end x)%nat /\ b_len x = Z.of_nat (block_length x)) bs ->
  (bases_of true bs + bases_of false bs)%Z = Z.of_nat (b - a) /\
  (0 <= bases_of true bs)%Z /\ (0 <= bases_of false bs)%Z /\ (a <= b)%nat.
Proof.
  revert a. induction bs as [|x bs IH]; intros a Hc Hall.
  - simpl in Hc. subst. unfold bases_of. simpl. lia.
  - destruct Hc as [Hs Hc]. apply Forall_cons_1 in Hall as [[Hx Hlen] Hall].
    destruct (IH _ Hc Hall) as (E & P1 & P2 & P3).
    rewrite !bases_of_cons, Hlen. unfold block_length in *.
    destruct (b_reuse x); cbn [Bool.eqb]; lia.
Qed.

(** The counters reported for at most [N < 2^64] blocks. *)
Lemma make_stats_counts (c : Q) (N : nat) (bs : list block) :
  (Z.of_nat N < 18446744073709551616)%Z ->
  (length bs <= N)%nat ->
  let s := make_stats c N (counts_of bs) in
  segments s = Z.of_nat (length bs) /\
  reuse_moves s = moves_of true bs /\
  synth_moves s = moves_of false bs /\
  joins s = Z.of_nat (length bs - 1) /\
  length_ s = Z.of_nat N.
Proof.
  intros HN Hlen s. subst s. unfold make_stats, counts_of.
  cbn [segments reuse_moves synth_moves joins length_ c_segments c_reuse_moves
       c_synth_moves].
  destruct (moves_of_total bs) as (E & P1 & P2).
  rewrite !(wrap64_small (Z.of_nat (length bs))) by lia.
  rewrite (wrap64_small (moves_of true bs)), (wrap64_small (moves_of false bs)),
    (wrap64_small (Z.of_nat N)) by lia.
  repeat split.
  destruct (0 <? Z.of_nat (length bs))%Z eqn:E0.
  - apply Z.ltb_lt in E0. rewrite wrap64_small by lia. lia.
  - apply Z.ltb_ge in E0. lia.
Qed.

(** ** The greedy sweep *)

Section Greedy.

Variable chrom_seq : list ascii.
Variable W : Z.
Variable indexes : list fm_index.
Variables cost_pcr cost_join cost_synth_linear cost_synth_quad : Q.

Abbreviation gN := (length chrom_seq).
Abbreviation greuse := (reusable chrom_seq indexes).
Abbreviation gstep := (greedy_step chrom_seq W indexes cost_pcr cost_join
                         cost_synth_linear cost_synth_quad).
Abbreviation gloop := (greedy_loop chrom_seq W indexes cost_pcr cost_join
                         cost_synth_linear cost_synth_quad).
Abbreviation gblocks := (greedy_blocks chrom_seq W indexes).
Abbreviation gchoice := (greedy_choice chrom_seq W indexes).
Abbreviation gcost := (partition_cost chrom_seq indexes cost_pcr cost_join
                         cost_synth_linear cost_synth_quad).
Abbreviation gbcost := (block_cost chrom_seq indexes cost_pcr cost_join
                          cost_synth_linear cost_synth_quad).

(** The descending search returns the longest reusable length, or [0]. *)
Lemma find_best_w_spec (n i : nat) :
  let w := find_best_w chrom_seq indexes n i in
  (w <= n)%nat /\
  (forall w', (w < w' <= n)%nat -> greuse i w' = false) /\
  ((0 < w)%nat -> greuse i w = true).
Proof.
  induction n as [|n IH]; cbn [find_best_w].
  - split; [lia|]. split; [intros; lia | intros; lia].
  - destruct (query_kmer indexes (substr chrom_seq i (S n))) eqn:E.
    + split; [lia|]. split; [intros; lia | intros _; exact E].
    + destruct IH as (H1 & H2 & H3).
      split; [lia|]. split; [|exact H3].
      intros w' Hw'. destruct (decide (w' = S n)) as [->|Hne]; [exact E|].
      apply H2. lia.
Qed.

(** The block chosen at a position before the end. *)
Lemma greedy_choice_spec (i : nat) :
  let m := Z.to_nat (Z.min W (Z.of_nat (gN - i))) in
  let '(w, r) := gchoice i in
  (r = true ->
     (1 <= w <= m)%nat /\ greuse i w = true /\
     forall w', (w < w' <= m)%nat -> greuse i w' = false) /\
  (r = false ->
     w = 1%nat /\ forall w', (1 <= w' <= m)%nat -> greuse i w' = false).
Proof.
  intros m. unfold greedy_choice. fold m.
  destruct (find_best_w_spec m i) as (H1 & H2 & H3).
  destruct (0 <? find_best_w chrom_seq indexes m i)%nat eqn:E.
  - apply Nat.ltb_lt in E. split; [|discriminate].
    intros _. split; [lia|]. split; [by apply H3 | exact H2].
  - apply Nat.ltb_ge in E. split; [discriminate|].
    intros _. split; [reflexivity|]. intros w' Hw'. apply H2. lia.
Qed.

Lemma greedy_step_choice (st : greedy_state) :
  let '(w, r) := gchoice (g_i st) in
  gstep st =
  {| g_i := g_i st + w;
     g_total_cost :=
       ((if (0 <? g_i st)%nat then g_total_cost st + cost_join else g_total_cost st)
        + (if r then cost_pcr
           else cost_synth_nonlinear 1 cost_synth_linear cost_synth_quad))%Q;
     g_counters := count_block r (Z.of_nat w) (g_counters st) |}.
Proof.
  unfold greedy_choice, greedy_step.
  by destruct (0 <? find_best_w chrom_seq indexes _ (g_i st))%nat.
Qed.

Lemma greedy_choice_bounds (i : nat) :
  (i < gN)%nat ->
  (1 <= fst (gchoice i))%nat /\ (i + fst (gchoice i) <= gN)%nat /\
  ((1 <= W)%Z -> (Z.of_nat (fst (gchoice i)) <= W)%Z).
Proof.
  intros Hi. pose proof (greedy_choice_spec i) as H.
  destruct (gchoice i) as [w r]. simpl.
  destruct H as [Ht Hf]. destruct r.
  - destruct (Ht eq_refl) as (Hw & _). lia.
  - destruct (Hf eq_refl) as (-> & _). lia.
Qed.

(** With [W >= 1] the cost charged for the chosen block is its block cost. *)
Lemma greedy_choice_cost (i : nat) :
  (i < gN)%nat -> (1 <= W)%Z ->
  let '(w, r) := gchoice i in
  greuse i w = r /\
  ((if r then cost_pcr else cost_synth_nonlinear 1 cost_synth_linear cost_synth_quad)
   + (if (0 <? i)%nat then cost_join else 0) == gbcost i w)%Q.
Proof.
  intros Hi HW. pose proof (greedy_choice_spec i) as H.
  destruct (gchoice i) as [w r]. destruct H as [Ht Hf].
  assert (Hr : greuse i w = r).
  { destruct r.
    - by destruct (Ht eq_refl) as (_ & E & _).
    - destruct (Hf eq_refl) as (-> & E). apply E. lia. }
  split; [exact Hr|].
  unfold block_cost, acquisition_cost. rewrite Hr.
  destruct r; [lra|].
  destruct (Hf eq_refl) as (-> & _).
  unfold cost_synth_nonlinear. lra.
Qed.

Lemma fold_count_left (bs pre : list block) :
  fold_left (fun c b => count_block (b_reuse b) (b_len b) c) bs (counts_of pre)
  = counts_of (pre ++ bs).
Proof.
  revert pre. induction bs as [|b bs IH]; intros pre.
  - by rewrite app_nil_r.
  - simpl. rewrite <- counts_of_snoc, IH. by rewrite <- app_assoc.
Qed.

(** The sweep from a state at position [i <= N] ends at [N], on the blocks
    of [greedy_blocks]. *)
Lemma greedy_loop_spec (fuel : nat) (st : greedy_state) (pre : list block) :
  (g_i st <= gN)%nat -> (gN - g_i st <= fuel)%nat ->
  g_counters st = counts_of pre ->
  exists st',
    gloop fuel st = Some st' /\
    g_i st' = gN /\
    chain (g_i st) (gblocks fuel (g_i st)) gN /\
    g_counters st' = counts_of (pre ++ gblocks fuel (g_i st)) /\
    Forall (fun b => (b_start b < b_end b)%nat /\
                     b_len b = Z.of_nat (block_length b) /\
                     ((1 <= W)%Z -> block_ok chrom_seq W indexes b))
           (gblocks fuel (g_i st)) /\
    ((1 <= W)%Z ->
     (g_total_cost st'
      == g_total_cost st + gcost (g_i st) (map block_length (gblocks fuel (g_i st))))%Q).
Proof.
  revert st pre. induction fuel as [|fuel IH]; intros st pre Hi Hfuel Hc.
  - exists st. cbn [greedy_loop greedy_blocks].
    replace (g_i st <? gN)%nat with false by (symmetry; apply Nat.ltb_ge; lia).
    split; [reflexivity|]. split; [lia|]. split; [simpl; lia|].
    split; [by rewrite app_nil_r|]. split; [constructor|].
    intros _. simpl. lra.
  - cbn [greedy_loop greedy_blocks].
    destruct (g_i st <? gN)%nat eqn:E.
    2:{ apply Nat.ltb_ge in E. exists st.
        split; [reflexivity|]. split; [lia|]. split; [simpl; lia|].
        split; [by rewrite app_nil_r|]. split; [constructor|].
        intros _. simpl. lra. }
    apply Nat.ltb_lt in E.
    pose proof (greedy_step_choice st) as Hstep.
    pose proof (greedy_choice_bounds (g_i st) E) as (Hb1 & Hb2 & Hb3).
    pose proof (greedy_choice_cost (g_i st) E) as Hcost.
    destruct (gchoice (g_i st)) as [w r] eqn:Ech. simpl in Hb1, Hb2, Hb3.
    set (b := {| b_start := g_i st; b_end := g_i st + w;
                 b_len := Z.of_nat w; b_reuse := r |}).
    assert (Hblen : block_length b = w) by (unfold block_length; simpl; lia).
    destruct (IH (gstep st) (pre ++ [b])) as (st' & R1 & R2 & R3 & R4 & R5 & R6).
    { rewrite Hstep. simpl. lia. }
    { rewrite Hstep. simpl. lia. }
    { rewrite Hstep. cbn [g_counters]. rewrite Hc. by rewrite counts_of_snoc. }
    rewrite Hstep in R3, R4, R5, R6. cbn [g_i g_total_cost] in R3, R4, R5, R6.
    exists st'. split; [exact R1|]. split; [exact R2|].
    split; [simpl; split; [reflexivity | exact R3]|].
    split; [by rewrite <- app_assoc in R4|].
    split.
    + constructor; [|exact R5].
      split; [simpl; lia|]. split; [by rewrite Hblen|].
      intros HW. unfold block_ok. rewrite Hblen. cbn [b b_end b_start b_len b_reuse].
      split; [unfold candidate; specialize (Hb3 HW); lia|].
      split; [reflexivity|].
      destruct (Hcost HW) as [Hr _]. by rewrite Hr.
    + intros HW. rewrite (R6 HW). cbn [map partition_cost]. rewrite Hblen.
      destruct (Hcost HW) as [_ Hbc]. rewrite <- Hbc.
      destruct (0 <? g_i st)%nat; lra.
Qed.

(** The result of the greedy planner, on the blocks of its sweep. *)
Lemma greedy_run :
  exists total_cost : Q,
    solve_greedy_for_chromosome_stats chrom_seq W indexes cost_pcr cost_join
      cost_synth_linear cost_synth_quad
    = Some (make_stats total_cost gN (counts_of (gblocks gN 0))) /\
    chain 0 (gblocks gN 0) gN /\
    Forall (fun b => (b_start b < b_end b)%nat /\
                     b_len b = Z.of_nat (block_length b) /\
                     ((1 <= W)%Z -> block_ok chrom_seq W indexes b))
           (gblocks gN 0) /\
    ((1 <= W)%Z -> (total_cost == gcost 0 (map block_length (gblocks gN 0)))%Q).
Proof.
  unfold solve_greedy_for_chromosome_stats.
  destruct (greedy_loop_spec gN {| g_i := 0; g_total_cost := 0; g_counters := counters0 |} [])
    as (st' & R1 & R2 & R3 & R4 & R5 & R6); [simpl; lia | simpl; lia | reflexivity |].
  cbn [g_i g_total_cost app] in R3, R4, R5, R6.
  destruct (gN =? 0)%nat eqn:E0.
  - apply Nat.eqb_eq in E0. exists 0%Q. rewrite E0 in *. simpl.
    split; [reflexivity|]. split; [reflexivity|]. split; [constructor|].
    intros _. lra.
  - exists (g_total_cost st'). rewrite R1, R4.
    split; [reflexivity|]. split; [exact R3|]. split; [exact R5|].
    intros HW. rewrite (R6 HW). lra.
Qed.

End Greedy.

(** ** The greedy sweep in binary64 *)

Lemma query_kmer_occurs (indexes : list fm_index) (p : list ascii) :
  query_kmer indexes p = true <-> occurs_in indexes p.
Proof.
  unfold query_kmer, occurs_in. rewrite existsb_exists.
  split; intros (index & Hin & H); exists index; (split; [exact Hin|]).
  - by apply N.ltb_lt.
  - by apply N.ltb_lt.
Qed.

Lemma query_kmer_none (indexes : list fm_index) (p : list ascii) :
  query_kmer indexes p = false <-> ~ occurs_in indexes p.
Proof.
  rewrite <- query_kmer_occurs. destruct (query_kmer indexes p); split; try done.
Qed.

Section GreedyBinary64.

Variable chrom_seq : list ascii.
Variable W : Z.
Variable indexes : list fm_index.
Variables cost_pcr cost_join cost_synth_linear cost_synth_quad : float.

Abbreviation bN := (length chrom_seq).
Abbreviation bblocks := (greedy_blocks chrom_seq W indexes).
Abbreviation bstep := (Binary64.greedy_step chrom_seq W indexes cost_pcr cost_join
                         cost_synth_linear cost_synth_quad).
Abbreviation bloop := (Binary64.greedy_loop chrom_seq W indexes cost_pcr cost_join
                         cost_synth_linear cost_synth_quad).
Abbreviation bcharge := (greedy_charge cost_pcr cost_join cost_synth_linear
                           cost_synth_quad).

(** The blocks of the sweep from position [i] follow each other up to [N],
    and each is the block of the policy. *)
Lemma greedy_blocks_policy (fuel i : nat) :
  (i <= bN)%nat -> (bN - i <= fuel)%nat ->
  chain i (bblocks fuel i) bN /\
  Forall (greedy_policy chrom_seq W indexes) (bblocks fuel i).
Proof.
  revert i. induction fuel as [|fuel IH]; intros i Hi Hfuel.
  - simpl. split; [lia | constructor].
  - cbn [greedy_blocks].
    destruct (i <? bN)%nat eqn:E.
    2:{ apply Nat.ltb_ge in E. split; [simpl; lia | constructor]. }
    apply Nat.ltb_lt in E.
    pose proof (greedy_choice_spec chrom_seq W indexes i) as Hch.
    pose proof (greedy_choice_bounds chrom_seq W indexes i E) as (Hb1 & Hb2 & _).
    destruct (greedy_choice chrom_seq W indexes i) as [w r]. simpl in Hb1, Hb2.
    cbn zeta in Hch. destruct Hch as [Ht Hf].
    destruct (IH (i + w)%nat) as [Hc Hall]; [lia | lia |].
    split; [simpl; split; [reflexivity | exact Hc]|].
    constructor; [|exact Hall].
    unfold greedy_policy. cbn [b_start b_end b_len b_reuse].
    replace (i + w - i)%nat with w by lia.
    split; [exact E|]. split; [reflexivity|]. split; [reflexivity|].
    destruct r.
    + destruct (Ht eq_refl) as (Hw & Hr & Hmax).
      split; [exact Hw|]. split; [by apply query_kmer_occurs|].
      intros w' Hw'. apply query_kmer_none. by apply Hmax.
    + destruct (Hf eq_refl) as (-> & Hnone).
      split; [reflexivity|].
      intros w' Hw'. apply query_kmer_none. by apply Hnone.
Qed.

Lemma greedy_step_charge (st : Binary64.greedy_state) :
  let '(w, r) := greedy_choice chrom_seq W indexes (Binary64.g_i st) in
  bstep st =
  {| Binary64.g_i := Binary64.g_i st + w;
     Binary64.g_total_cost :=
       bcharge (Binary64.g_total_cost st)
         {| b_start := Binary64.g_i st; b_end := Binary64.g_i st + w;
            b_len := Z.of_nat w; b_reuse := r |};
     Binary64.g_counters := count_block r (Z.of_nat w) (Binary64.g_counters st) |}.
Proof.
  unfold greedy_choice, Binary64.greedy_step, greedy_charge.
  cbn [b_start b_reuse].
  by destruct (0 <? find_best_w chrom_seq indexes _ (Binary64.g_i st))%nat.
Qed.

(** The sweep from a state at position [i <= N] ends at [N], with the
    blocks of [greedy_blocks] paid one after the other and counted. *)
Lemma greedy_loop_trace (fuel : nat) (st : Binary64.greedy_state) (pre : list block) :
  (Binary64.g_i st <= bN)%nat -> (bN - Binary64.g_i st <= fuel)%nat ->
  Binary64.g_counters st = counts_of pre ->
  bloop fuel st =
  Some {| Binary64.g_i := bN;
          Binary64.g_total_cost :=
            fold_left bcharge (bblocks fuel (Binary64.g_i st)) (Binary64.g_total_cost st);
          Binary64.g_counters := counts_of (pre ++ bblocks fuel (Binary64.g_i st)) |}.
Proof.
  revert st pre. induction fuel as [|fuel IH]; intros st pre Hi Hfuel Hc.
  - cbn [Binary64.greedy_loop greedy_blocks].
    replace (Binary64.g_i st <? bN)%nat with false by (symmetry; apply Nat.ltb_ge; lia).
    rewrite app_nil_r, <- Hc. cbn [fold_left].
    replace bN with (Binary64.g_i st) by lia. by destruct st.
  - cbn [Binary64.greedy_loop greedy_blocks].
    destruct (Binary64.g_i st <? bN)%nat eqn:E.
    2:{ apply Nat.ltb_ge in E. rewrite app_nil_r, <- Hc. cbn [fold_left].
        replace bN with (Binary64.g_i st) by lia. by destruct st. }
    apply Nat.ltb_lt in E.
    pose proof (greedy_step_charge st) as Hstep.
    pose proof (greedy_choice_bounds chrom_seq W indexes (Binary64.g_i st) E)
      as (Hb1 & Hb2 & _).
    destruct (greedy_choice chrom_seq W indexes (Binary64.g_i st)) as [w r].
    simpl in Hb1, Hb2.
    set (b := {| b_start := Binary64.g_i st; b_end := Binary64.g_i st + w;
                 b_len := Z.of_nat w; b_reuse := r |}) in *.
    rewrite (IH (bstep st) (pre ++ [b])).
    + rewrite Hstep. cbn [Binary64.g_i Binary64.g_total_cost fold_left].
      by rewrite <- app_assoc.
    + rewrite Hstep. simpl. lia.
    + rewrite Hstep. simpl. lia.
    + rewrite Hstep. cbn [Binary64.g_counters]. rewrite Hc.
      by rewrite counts_of_snoc.
Qed.

(** The state of the sweep after [k] iterations: it stands at the start of
    the block of rank [k], at [N] after the last block, and has paid and
    counted the blocks before it. *)
Lemma greedy_steps_trace (fuel : nat) (st : Binary64.greedy_state) (k : nat) :
  (Binary64.g_i st <= bN)%nat -> (bN - Binary64.g_i st <= fuel)%nat ->
  (k <= length (bblocks fuel (Binary64.g_i st)))%nat ->
  Nat.iter k bstep st =
  {| Binary64.g_i := nth k (map b_start (bblocks fuel (Binary64.g_i st))) bN;
     Binary64.g_total_cost :=
       fold_left bcharge (firstn k (bblocks fuel (Binary64.g_i st)))
         (Binary64.g_total_cost st);
     Binary64.g_counters :=
       fold_left (fun c b => count_block (b_reuse b) (b_len b) c)
         (firstn k (bblocks fuel (Binary64.g_i st))) (Binary64.g_counters st) |}.
Proof.
  revert st k. induction fuel as [|fuel IH]; intros st k Hi Hfuel Hk.
  - cbn [greedy_blocks] in *. assert (k = 0)%nat as -> by (simpl in Hk; lia).
    simpl. replace bN with (Binary64.g_i st) by lia. by destruct st.
  - cbn [greedy_blocks] in *.
    destruct (Binary64.g_i st <? bN)%nat eqn:E.
    2:{ apply Nat.ltb_ge in E. assert (k = 0)%nat as -> by (simpl in Hk; lia).
        simpl. replace bN with (Binary64.g_i st) by lia. by destruct st. }
    apply Nat.ltb_lt in E.
    pose proof (greedy_step_charge st) as Hstep.
    pose proof (greedy_choice_bounds chrom_seq W indexes (Binary64.g_i st) E)
      as (Hb1 & Hb2 & _).
    destruct (greedy_choice chrom_seq W indexes (Binary64.g_i st)) as [w r].
    simpl in Hb1, Hb2.
    destruct k as [|k]; [simpl; by destruct st|].
    rewrite Nat.iter_succ_r, (IH (bstep st) k).
    + rewrite Hstep. reflexivity.
    + rewrite Hstep. simpl. lia.
    + rewrite Hstep. simpl. lia.
    + rewrite Hstep. cbn [Binary64.g_i]. cbn [length] in Hk. lia.
Qed.

(** The result of the greedy planner, on the blocks of its sweep. *)
Lemma greedy_run_binary64 :
  Binary64.solve_greedy_for_chromosome_stats chrom_seq W indexes cost_pcr cost_join
    cost_synth_linear cost_synth_quad
  = Some (Binary64.make_stats (fold_left bcharge (bblocks bN 0) 0%float) bN
            (counts_of (bblocks bN 0))).
Proof.
  unfold Binary64.solve_greedy_for_chromosome_stats.
  destruct (bN =? 0)%nat eqn:E0.
  - apply Nat.eqb_eq in E0. rewrite E0. reflexivity.
  - rewrite (greedy_loop_trace bN
               {| Binary64.g_i := 0; Binary64.g_total_cost := 0;
                  Binary64.g_counters := counters0 |} []);
      [reflexivity | simpl; lia | simpl; lia | reflexivity].
Qed.

End GreedyBinary64.

(** ** The reference index answers as the contract requires *)

Section IndexModel.

Abbreviation lex_le := (fun x y : list ascii => lex_leb x y = true).

Lemma ascii_ltb_asym (a b : ascii) : ascii_ltb a b = true -> ascii_ltb b a = false.
Proof. unfold ascii_ltb. intros H. apply Nat.ltb_lt in H. apply Nat.ltb_ge. lia. Qed.

Lemma ascii_ltb_eq (a b : ascii) :
  ascii_ltb a b = false -> ascii_ltb b a = false -> a = b.
Proof.
  unfold ascii_ltb. intros H1 H2.
  apply Nat.ltb_ge in H1. apply Nat.ltb_ge in H2.
  rewrite <- (ascii_nat_embedding a), <- (ascii_nat_embedding b).
  f_equal. lia.
Qed.

Lemma ascii_ltb_trans (a b c : ascii) :
  ascii_ltb a b = true -> ascii_ltb b c = true -> ascii_ltb a c = true.
Proof.
  unfold ascii_ltb. intros H1 H2.
  apply Nat.ltb_lt in H1. apply Nat.ltb_lt in H2. apply Nat.ltb_lt. lia.
Qed.

Lemma ascii_ltb_irrefl (a : ascii) : ascii_ltb a a = false.
Proof. unfold ascii_ltb. apply Nat.ltb_irrefl. Qed.

Lemma lex_leb_refl (x : list ascii) : lex_leb x x = true.
Proof.
  induction x as [|a x IH]; [reflexivity|].
  simpl. by rewrite ascii_ltb_irrefl.
Qed.

Lemma lex_leb_total (x y : list ascii) : lex_leb x y = false -> lex_leb y x = true.
Proof.
  revert y. induction x as [|a x IH]; intros [|b y] H; simpl in *; try done.
  destruct (ascii_ltb a b) eqn:E1; [done|].
  destruct (ascii_ltb b a) eqn:E2; [done|].
  by apply IH.
Qed.

Lemma lex_leb_trans (x y z : list ascii) :
  lex_leb x y = true -> lex_leb y z = true -> lex_leb x z = true.
Proof.
  revert y z. induction x as [|a x IH]; intros [|b y] [|c z] H1 H2;
    simpl in *; try done.
  destruct (ascii_ltb a b) eqn:Eab.
  - destruct (ascii_ltb b c) eqn:Ebc.
    + by rewrite (ascii_ltb_trans a b c).
    + destruct (ascii_ltb c b) eqn:Ecb; [done|].
      rewrite <- (ascii_ltb_eq b c Ebc Ecb). by rewrite Eab.
  - destruct (ascii_ltb b a) eqn:Eba; [done|].
    rewrite (ascii_ltb_eq a b Eab Eba).
    destruct (ascii_ltb b c) eqn:Ebc; [done|].
    destruct (ascii_ltb c b) eqn:Ecb; [done|].
    by apply (IH y).
Qed.

(** The rows between two rows that start with [q] start with [q]. *)
Lemma is_prefix_between (q x y z : list ascii) :
  is_prefix q x = true -> is_prefix q z = true ->
  lex_leb x y = true -> lex_leb y z = true ->
  is_prefix q y = true.
Proof.
  revert x y z. induction q as [|a q IH]; intros x y z Hx Hz Hxy Hyz; [reflexivity|].
  destruct x as [|a1 x]; [done|]. destruct z as [|a2 z]; [done|].
  simpl in Hx, Hz.
  destruct (Ascii.eqb a a1) eqn:E1; [|done].
  destruct (Ascii.eqb a a2) eqn:E2; [|done].
  apply Ascii.eqb_eq in E1. apply Ascii.eqb_eq in E2. subst a1 a2.
  destruct y as [|b y]; [done|].
  simpl in Hxy, Hyz. simpl.
  destruct (ascii_ltb a b) eqn:Eab.
  - by rewrite (ascii_ltb_asym a b Eab) in Hyz.
  - destruct (ascii_ltb b a) eqn:Eba; [done|].
    rewrite (ascii_ltb_eq a b Eab Eba), Ascii.eqb_refl.
    by apply (IH x y z).
Qed.

Lemma lex_insert_In (x y : list ascii) (l : list (list ascii)) :
  In y (lex_insert x l) <-> y = x \/ In y l.
Proof.
  induction l as [|z l IH]; simpl.
  - intuition.
  - destruct (lex_leb x z); simpl; intuition.
Qed.

Lemma lex_sort_In (y : list ascii) (l : list (list ascii)) :
  In y (lex_sort l) <-> In y l.
Proof.
  induction l as [|z l IH]; simpl; [done|].
  rewrite lex_insert_In, IH. intuition.
Qed.

Lemma lex_insert_sorted (x : list ascii) (l : list (list ascii)) :
  StronglySorted lex_le l -> StronglySorted lex_le (lex_insert x l).
Proof.
  induction 1 as [|z l Hs IH Hall]; simpl.
  - constructor; constructor.
  - destruct (lex_leb x z) eqn:E.
    + constructor; [by constructor|].
      constructor; [exact E|].
      apply List.Forall_forall. intros u Hu.
      apply (lex_leb_trans x z u E).
      by apply (proj1 (List.Forall_forall _ _) Hall).
    + constructor; [exact IH|].
      apply List.Forall_forall. intros u Hu.
      apply lex_insert_In in Hu as [->|Hu].
      * by apply lex_leb_total.
      * by apply (proj1 (List.Forall_forall _ _) Hall).
Qed.

Lemma lex_sort_sorted (l : list (list ascii)) : StronglySorted lex_le (lex_sort l).
Proof.
  induction l as [|x l IH]; simpl; [constructor|]. by apply lex_insert_sorted.
Qed.

Lemma sorted_nth (l : list (list ascii)) (a b : nat) :
  StronglySorted lex_le l -> (a <= b < length l)%nat ->
  lex_leb (nth a l []) (nth b l []) = true.
Proof.
  intros Hs. revert a b. induction Hs as [|z l Hs IH Hall]; intros a b Hab.
  - simpl in Hab. lia.
  - destruct a as [|a], b as [|b]; simpl in *; try lia.
    + apply lex_leb_refl.
    + apply (proj1 (List.Forall_forall _ _) Hall). apply List.nth_In. lia.
    + apply IH. lia.
Qed.

Lemma suffixes_tail (c : ascii) (x s : list ascii) :
  In (c :: x) (suffixes s) -> In x (suffixes s).
Proof.
  induction s as [|a s IH]; simpl.
  - intros [H|[]]. discriminate.
  - intros [H|H].
    + inversion H; subst. right. destruct x; simpl; by left.
    + right. by apply IH.
Qed.

Lemma suffix_array_tail (c : ascii) (x src : list ascii) :
  In (c :: x) (suffix_array src) -> In x (suffix_array src).
Proof.
  unfold suffix_array. rewrite !lex_sort_In. apply suffixes_tail.
Qed.

Lemma list_ascii_eqb_eq (x y : list ascii) : list_ascii_eqb x y = true <-> x = y.
Proof.
  revert y. induction x as [|a x IH]; intros [|b y]; simpl; try done.
  rewrite andb_true_iff, Ascii.eqb_eq, IH. split.
  - by intros [-> ->].
  - intros H. by inversion H.
Qed.

Lemma filter_positive {A : Type} (f : A -> bool) (l : list A) :
  (0 < length (List.filter f l))%nat <-> exists x, In x l /\ f x = true.
Proof.
  split.
  - destruct (List.filter f l) as [|x l'] eqn:E; simpl; [lia|].
    intros _. exists x. apply List.filter_In. rewrite E. by left.
  - intros (x & Hx & Hf).
    assert (H : In x (List.filter f l)) by (apply List.filter_In; done).
    destruct (List.filter f l); [done | simpl; lia].
Qed.

Lemma last_cons {A : Type} (x d : A) (l : list A) :
  List.last (x :: l) d = List.last l x.
Proof.
  revert x d. induction l as [|y l IH]; intros x d; [reflexivity|].
  change (List.last (x :: y :: l) d) with (List.last (y :: l) d).
  rewrite !IH. reflexivity.
Qed.

(** The hits of a filter over [seq] lie between the first and the last. *)
Lemma filter_seq_bounds (g : nat -> bool) (n a k0 : nat) (ks : list nat) :
  List.filter g (seq a n) = k0 :: ks ->
  forall k, In k (k0 :: ks) -> (k0 <= k <= List.last ks k0)%nat.
Proof.
  revert a k0 ks. induction n as [|n IH]; intros a k0 ks Hf k Hk; [done|].
  simpl in Hf. destruct (g a) eqn:Ea.
  - injection Hf as <- <-.
    destruct (List.filter g (seq (S a) n)) as [|k1 ks'] eqn:Eks.
    + destruct Hk as [<-|[]]. simpl. lia.
    + assert (Hk1 : (S a <= k1)%nat).
      { assert (Hin : In k1 (List.filter g (seq (S a) n))) by (rewrite Eks; by left).
        apply List.filter_In in Hin as [Hin _]. apply List.in_seq in Hin. lia. }
      rewrite last_cons.
      assert (Hlast := IH (S a) k1 ks' Eks).
      destruct Hk as [<-|Hk].
      * specialize (Hlast k1 (or_introl eq_refl)). lia.
      * specialize (Hlast k Hk). lia.
  - by apply (IH (S a)).
Qed.

Lemma last_In {A : Type} (x : A) (l : list A) : In (List.last l x) (x :: l).
Proof.
  revert x. induction l as [|y l IH]; intros x; [by left|].
  rewrite last_cons. right. apply IH.
Qed.

Lemma lex_insert_length (x : list ascii) (l : list (list ascii)) :
  length (lex_insert x l) = S (length l).
Proof.
  induction l as [|y l IH]; simpl; [reflexivity|].
  destruct (lex_leb x y); simpl; [reflexivity | by rewrite IH].
Qed.

Lemma suffix_array_length (src : list ascii) :
  length (suffix_array src) = S (length src).
Proof.
  unfold suffix_array.
  assert (H : forall l, length (lex_sort l) = length l).
  { induction l as [|x l IH]; simpl; [reflexivity|].
    by rewrite lex_insert_length, IH. }
  rewrite H. induction src as [|a src IH]; simpl; [reflexivity | by rewrite IH].
Qed.

Lemma sa_rows_In (sa : list (list ascii)) (l r : nat) (t : list ascii) :
  In t (sa_rows sa l r) <->
  exists m, (l <= m <= r)%nat /\ (m < length sa)%nat /\ nth m sa [] = t.
Proof.
  unfold sa_rows. rewrite <- list_elem_of_In, list_elem_of_lookup. split.
  - intros (i & Hi).
    assert (Hlt : (i < S r - l)%nat).
    { destruct (decide (i < S r - l)%nat) as [H|H]; [exact H|].
      rewrite lookup_take_ge in Hi by lia. discriminate. }
    rewrite lookup_take_lt, lookup_drop in Hi by exact Hlt.
    exists (l + i)%nat. split; [lia|].
    split; [by apply lookup_lt_Some in Hi|]. by apply nth_lookup_Some.
  - intros (m & Hm & Hlen & Hnth).
    exists (m - l)%nat.
    rewrite lookup_take_lt, lookup_drop by lia.
    replace (l + (m - l))%nat with m by lia.
    destruct (lookup_lt_is_Some_2 sa m Hlen) as [y Hy].
    rewrite (nth_lookup_Some sa m [] y Hy) in Hnth. by subst.
Qed.

Variable src : list ascii.

Abbreviation sa := (suffix_array src).
Abbreviation row k := (nth k (suffix_array src) []).

(** Rows [l..r] are the rows that start with [p]. *)
Abbreviation interval_ok p l r :=
  (forall k, (k < length sa)%nat ->
     ((l <= k <= r)%nat <-> is_prefix p (row k) = true)).

Lemma count_positive (p : list ascii) :
  (0 < fm_count (build_index src) p)%N <->
  exists x, In x sa /\ is_prefix p x = true.
Proof.
  cbn [build_index fm_count]. rewrite <- filter_positive. lia.
Qed.

Lemma count_positive_row (p : list ascii) :
  (0 < fm_count (build_index src) p)%N <->
  exists k, (k < length sa)%nat /\ is_prefix p (row k) = true.
Proof.
  rewrite count_positive. split.
  - intros (x & Hx & Hp). destruct (List.In_nth sa x [] Hx) as (k & Hk & E).
    exists k. by rewrite E.
  - intros (k & Hk & Hp). exists (row k). split; [by apply List.nth_In | exact Hp].
Qed.

Lemma sa_extend_spec (p : list ascii) (l r : nat) (c : ascii) :
  interval_ok p l r ->
  forall k, In k (sa_extend sa l r c) <->
            ((k < length sa)%nat /\ is_prefix (c :: p) (row k) = true).
Proof.
  intros Hint k. unfold sa_extend.
  rewrite List.filter_In, List.in_seq.
  split.
  - intros [Hk Hg]. split; [lia|].
    destruct (row k) as [|a t] eqn:Erow; [done|].
    apply andb_true_iff in Hg as [Hac Hex].
    apply Ascii.eqb_eq in Hac. subst a.
    apply List.existsb_exists in Hex as (t' & Hin & Heq).
    apply list_ascii_eqb_eq in Heq. subst t'.
    apply sa_rows_In in Hin as (m & Hm & Hlen & Hnth).
    simpl. rewrite Ascii.eqb_refl, <- Hnth.
    by apply (Hint m Hlen).
  - intros [Hk Hp]. split; [lia|].
    destruct (row k) as [|a t] eqn:Erow; [done|].
    simpl in Hp. destruct (Ascii.eqb c a) eqn:Eca; [|done].
    apply Ascii.eqb_eq in Eca. subst a.
    rewrite Ascii.eqb_refl. simpl.
    apply List.existsb_exists. exists t.
    split; [|by apply list_ascii_eqb_eq].
    apply sa_rows_In.
    assert (Hin : In t sa).
    { apply (suffix_array_tail c). rewrite <- Erow. by apply List.nth_In. }
    destruct (List.In_nth sa t [] Hin) as (m & Hm & E).
    exists m. split; [|done].
    apply (Hint m Hm). by rewrite E.
Qed.

Lemma count_suffix (c : ascii) (p : list ascii) :
  (0 < fm_count (build_index src) (c :: p))%N ->
  (0 < fm_count (build_index src) p)%N.
Proof.
  rewrite !count_positive. intros (x & Hx & Hp).
  destruct x as [|a x]; [done|].
  simpl in Hp. destruct (Ascii.eqb c a) eqn:E; [|done].
  apply Ascii.eqb_eq in E. subst a.
  exists x. split; [by apply (suffix_array_tail c) | exact Hp].
Qed.

Hypothesis Hsize : (Z.of_nat (length src) < 18446744073709551615)%Z.

(** The incremental search holds the rows of the pattern read so far. *)
Lemma bsearch_interval (p : list ascii) :
  (p = [] \/ (0 < fm_count (build_index src) p)%N) ->
  interval_ok p (N.to_nat (fst (snd (bsearch (build_index src) p))))
                (N.to_nat (snd (snd (bsearch (build_index src) p)))).
Proof.
  induction p as [|c p IH]; intros Hocc k Hk.
  - cbn [bsearch build_index fm_size fst snd is_prefix].
    rewrite suffix_array_length in *.
    split; [done|]. intros _.
    rewrite N.Div0.add_mod by done.
    rewrite (N.mod_small (N.of_nat _)) by lia.
    rewrite (N.mod_small 18446744073709551615) by lia.
    assert (E : ((N.of_nat (S (length src)) + 18446744073709551615)
                 = N.of_nat (length src) + 1 * 18446744073709551616)%N) by lia.
    rewrite E, N.Div0.mod_add, N.mod_small by lia. lia.
  - destruct Hocc as [Hnil|Hocc]; [done|].
    assert (Hp : p = [] \/ (0 < fm_count (build_index src) p)%N).
    { right. by apply (count_suffix c). }
    specialize (IH Hp). cbn [bsearch].
    destruct (bsearch (build_index src) p) as [o [l r]].
    cbn [fst snd] in IH.
    pose proof (sa_extend_spec p (N.to_nat l) (N.to_nat r) c IH) as Hext.
    cbn [build_index fm_backward_search].
    destruct (sa_extend sa (N.to_nat l) (N.to_nat r) c) as [|k0 ks] eqn:Ehits.
    + exfalso. apply count_positive_row in Hocc as (k' & Hk' & Hpk').
      by apply (Hext k').
    + cbn [fst snd]. rewrite !Nat2N.id.
      pose proof (filter_seq_bounds _ _ _ _ _ Ehits) as Hbounds.
      split.
      * intros Hrange.
        assert (H0 := proj1 (Hext k0) (or_introl eq_refl)).
        assert (H1 := proj1 (Hext _) (last_In k0 ks)).
        destruct H0 as [Hk0 Hp0]. destruct H1 as [Hk1 Hp1].
        pose proof (lex_sort_sorted (suffixes src)) as Hsorted.
        apply (is_prefix_between (c :: p) (row k0) (row k) (row (List.last ks k0)));
          [exact Hp0 | exact Hp1 | |].
        -- apply sorted_nth; [exact Hsorted | lia].
        -- apply sorted_nth; [exact Hsorted | lia].
      * intros Hpk. apply Hbounds. apply Hext. done.
Qed.

(** [build_index] meets the contract of the oracle. *)
Lemma build_index_coherent : index_coherent (build_index src).
Proof.
  split.
  - intros c p _. apply count_suffix.
  - intros c p Hp.
    pose proof (bsearch_interval p Hp) as Hint. cbn [bsearch].
    destruct (bsearch (build_index src) p) as [o [l r]].
    cbn [fst snd] in Hint.
    pose proof (sa_extend_spec p (N.to_nat l) (N.to_nat r) c Hint) as Hext.
    rewrite count_positive_row.
    cbn [build_index fm_backward_search].
    destruct (sa_extend sa (N.to_nat l) (N.to_nat r) c) as [|k0 ks] eqn:Ehits.
    + cbn [fst]. split; [lia|]. intros (k & Hk & Hpk).
      exfalso. by apply (Hext k).
    + cbn [fst]. split; [|simpl; lia]. intros _.
      exists k0. by apply Hext; left.
Qed.

End IndexModel.

(** ** The DP planner as a whole *)

Section Planner.

Variable chrom_seq : list ascii.
Variable W : Z.
Variable indexes : list fm_index.
Variables cost_pcr cost_join cost_synth_linear cost_synth_quad : Q.

Abbreviation pN := (length chrom_seq).
Abbreviation fill := (dp_fill chrom_seq W indexes cost_pcr cost_join
                        cost_synth_linear cost_synth_quad).
Abbreviation solve_with := (solve_dp_with chrom_seq W indexes cost_pcr cost_join
                              cost_synth_linear cost_synth_quad).
Abbreviation pinv := (tables_inv chrom_seq W indexes cost_pcr cost_join
                        cost_synth_linear cost_synth_quad).
Abbreviation ppart := (partition_cost chrom_seq indexes cost_pcr cost_join
                         cost_synth_linear cost_synth_quad).

(** With coherent indexes the tables are those of the fallback sweep,
    whichever branch fills them. *)
Lemma dp_fill_inv :
  Forall index_coherent indexes ->
  pinv pN (fill (length indexes =? 1)%nat).
Proof.
  intros Hcoh.
  destruct indexes as [|index [|index' rest]] eqn:E; try apply fill_inv.
  cbn [length Nat.eqb].
  rewrite dp_fill_fallback by (by apply Forall_inv in Hcoh).
  apply fill_inv.
Qed.

(** The planner returns, on the blocks of its backtracking. *)
Lemma dp_run (single_index : bool) :
  exists bs : list block,
    (length bs <= pN)%nat /\
    (forall (A : Type) (f : block -> A -> A) (acc : A),
        backtrack f pN (fill single_index) pN acc = Some (fold_right f acc bs)) /\
    solve_with single_index
    = Some (make_stats (DP (fill single_index) !!! pN) pN (counts_of bs)).
Proof.
  destruct (backtrack_total chrom_seq (fill single_index)
              (dp_fill_pred_below chrom_seq W indexes cost_pcr cost_join
                 cost_synth_linear cost_synth_quad single_index) pN pN)
    as (bs & Hlen & Hrun); [lia | lia |].
  exists bs. split; [exact Hlen|]. split; [exact Hrun|].
  unfold solve_dp_with. rewrite Hrun, fold_count_blocks.
  destruct (pN =? 0)%nat eqn:E0; [|reflexivity].
  apply Nat.eqb_eq in E0.
  assert (Hbs : bs = []) by (destruct bs; [done | simpl in Hlen; lia]).
  assert (Hnil : chrom_seq = []) by (by apply nil_length_inv).
  rewrite Hbs, Hnil. reflexivity.
Qed.

Lemma dp_blocks_run (bs : list block) :
  (forall (A : Type) (f : block -> A -> A) (acc : A),
      backtrack f pN (fill (length indexes =? 1)%nat) pN acc
      = Some (fold_right f acc bs)) ->
  dp_blocks chrom_seq W indexes cost_pcr cost_join cost_synth_linear cost_synth_quad
  = Some bs.
Proof. intros H. unfold dp_blocks. by rewrite H, fold_cons_blocks. Qed.

(** An entry below the sentinel is the cost of a partition of its prefix. *)
Lemma dp_achieved (t : dp_tables) (i : nat) :
  (0 <= cost_pcr)%Q -> (0 <= cost_join)%Q ->
  (0 <= cost_synth_linear)%Q -> (0 <= cost_synth_quad)%Q ->
  pinv pN t ->
  (i <= pN)%nat -> (DP t !!! i < 1e18)%Q ->
  exists ws, is_partition W i ws /\ (ppart 0 ws == DP t !!! i)%Q.
Proof.
  intros Hpcr Hjoin Hlin Hquad Hinv.
  induction i as [i IH] using lt_wf_ind. intros Hi Hlt.
  destruct (decide (i = 0%nat)) as [->|Hpos].
  { exists []. split; [split; [constructor | reflexivity]|].
    destruct Hinv as (_ & _ & _ & _ & H0 & _). rewrite H0. simpl. lra. }
  pose proof Hinv as (_ & _ & _ & _ & _ & Hcells & _).
  destruct (Hcells i ltac:(lia)) as (_ & _ & [Hun | (w & Hc & E1 & E2 & _)]).
  { destruct Hun as (Hun & _). rewrite Hun in Hlt. exfalso. lra. }
  pose proof Hc as (Hw1 & Hwi & HwW).
  rewrite path_cost_eq in E2.
  assert (Hb : (0 <= block_cost chrom_seq indexes cost_pcr cost_join
                       cost_synth_linear cost_synth_quad (i - w) w)%Q).
  { unfold block_cost.
    pose proof (acquisition_cost_nonneg cost_pcr cost_synth_linear cost_synth_quad
                  (reusable chrom_seq indexes (i - w) w) w Hpcr Hlin Hquad).
    destruct (0 <? i - w)%nat; lra. }
  destruct (IH (i - w)%nat ltac:(lia) ltac:(lia) ltac:(lra)) as (ws & [Hall Hsum] & Hcost).
  exists (ws ++ [w]). split.
  - split.
    + apply Forall_app. split; [exact Hall|]. constructor; [lia | constructor].
    + rewrite list_sum_app. simpl. lia.
  - rewrite partition_cost_app. cbn [partition_cost].
    rewrite Hsum, Hcost, E1, path_cost_eq. simpl. lra.
Qed.

Lemma sentinel_positive : (0 < 1e18)%Q.
Proof. reflexivity. Qed.

(** The result of the planner and the blocks of its backtracking. *)
Lemma dp_result :
  Forall index_coherent indexes ->
  exists (stats : PlannerStats) (bs : list block),
    solve_dp_for_chromosome chrom_seq W indexes cost_pcr cost_join
      cost_synth_linear cost_synth_quad = Some stats /\
    dp_blocks chrom_seq W indexes cost_pcr cost_join cost_synth_linear
      cost_synth_quad = Some bs /\
    stats = make_stats (DP (fill (length indexes =? 1)%nat) !!! pN) pN (counts_of bs) /\
    (length bs <= pN)%nat /\
    (cost stats <= 1e18)%Q /\
    (forall ws, is_partition W pN ws -> (cost stats <= ppart 0 ws)%Q) /\
    ((W <= 65535)%Z ->
     (0 <= cost_pcr)%Q -> (0 <= cost_join)%Q ->
     (0 <= cost_synth_linear)%Q -> (0 <= cost_synth_quad)%Q ->
     (cost stats < 1e18)%Q ->
     chain 0 bs pN /\
     Forall (block_ok chrom_seq W indexes) bs /\
     (ppart 0 (map block_length bs) == cost stats)%Q).
Proof.
  intros Hcoh.
  destruct (dp_run (length indexes =? 1)%nat) as (bs & Hlen & Hrun & Hsolve).
  pose proof (dp_fill_inv Hcoh) as Hinv.
  eexists _, bs. split; [exact Hsolve|].
  split; [by apply dp_blocks_run|]. split; [reflexivity|].
  split; [exact Hlen|]. cbn [cost make_stats].
  split; [|split].
  - destruct (decide (pN = 0%nat)) as [E|E].
    + rewrite E. destruct Hinv as (_ & _ & _ & _ & H0 & _). rewrite H0.
      apply Qlt_le_weak, sentinel_positive.
    + destruct Hinv as (_ & _ & _ & _ & _ & Hcells & _).
      by destruct (Hcells pN ltac:(lia)) as (H & _).
  - intros ws Hws. by apply (dp_lower_bound chrom_seq W indexes).
  - intros HW Hpcr Hjoin Hlin Hquad Hlt.
    destruct (backtrack_spec chrom_seq W indexes cost_pcr cost_join
                cost_synth_linear cost_synth_quad Hpcr Hjoin Hlin Hquad HW
                _ Hinv pN ltac:(lia) Hlt) as (bs' & Hrun' & Hchain & Hok & Hcost).
    assert (Hbs : bs' = bs).
    { specialize (Hrun' _ (fun b acc => b :: acc) pN [] ltac:(lia)).
      rewrite Hrun, !fold_cons_blocks in Hrun'. by injection Hrun'. }
    subst bs'. done.
Qed.

End Planner.

(** ** A block of 65536 bases *)

(** The recorded length of a block is a [uint16_t]: a block of 65536 bases is
    recorded with length [0], on which the backtracking stops. *)

Section LengthWrap.

Variable n : nat.
Hypothesis Hn : Z.of_nat n = 65536%Z.

Abbreviation t_index := [build_index (s2l "T")].
Abbreviation a_tables := (dp_fill (poly_a n) 65536 t_index 5 1 1 0 true).

Lemma poly_a_length : length (poly_a n) = n.
Proof. unfold poly_a. apply length_replicate. Qed.

Lemma poly_a_not_reusable (j w : nat) :
  (1 <= w)%nat -> (j + w <= n)%nat -> reusable (poly_a n) t_index j w = false.
Proof.
  intros Hw Hj. unfold reusable, query_kmer.
  destruct w as [|w]; [lia|].
  rewrite substr_cons by (rewrite poly_a_length; lia).
  unfold poly_a at 1. rewrite lookup_total_replicate_2 by lia.
  cbn. reflexivity.
Qed.

Lemma poly_a_tables_inv : tables_inv (poly_a n) 65536 t_index 5 1 1 0 n a_tables.
Proof.
  assert (Hcoh : Forall index_coherent t_index).
  { constructor; [|constructor]. apply build_index_coherent. simpl. lia. }
  pose proof (dp_fill_inv (poly_a n) 65536 t_index 5 1 1 0 Hcoh) as H.
  rewrite poly_a_length in H. exact H.
Qed.

Lemma poly_a_path_cost (D : list Q) (i w : nat) :
  (1 <= w <= i)%nat -> (i <= n)%nat ->
  (path_cost (poly_a n) t_index 5 1 1 0 D i w
   == D !!! (i - w)%nat + inject_Z (Z.of_nat w)
      + (if (0 <? i - w)%nat then 1 else 0))%Q.
Proof.
  intros Hw Hi. unfold path_cost, acquisition_cost.
  rewrite poly_a_not_reusable by lia. unfold to_double. lra.
Qed.

(** Every prefix is best synthesised as one block. *)
Lemma poly_a_dp_value (i : nat) :
  (i <= n)%nat -> (DP a_tables !!! i == inject_Z (Z.of_nat i))%Q.
Proof.
  induction i as [i IH] using lt_wf_ind. intros Hi.
  pose proof poly_a_tables_inv as (_ & _ & _ & _ & H0 & Hcells & _).
  destruct (decide (i = 0%nat)) as [->|Hpos]; [rewrite H0; reflexivity|].
  destruct (Hcells i ltac:(lia)) as (_ & Hle & Hcase).
  assert (Hself : candidate 65536 i i) by (unfold candidate; lia).
  pose proof (Hle i Hself) as Hup.
  rewrite poly_a_path_cost in Hup by lia.
  replace (i - i)%nat with 0%nat in Hup by lia. rewrite H0 in Hup.
  cbn [Nat.ltb Nat.leb] in Hup.
  assert (Hbound : (inject_Z (Z.of_nat i) <= 65536)%Q).
  { change 65536%Q with (inject_Z 65536). rewrite <- Zle_Qle. lia. }
  destruct Hcase as [(Hun & _) | (w & Hc & E1 & _)].
  { rewrite Hun in Hup. exfalso.
    assert (H3 : (65536 < 1e18)%Q) by reflexivity. lra. }
  destruct Hc as (Hw1 & Hwi & _).
  rewrite E1, poly_a_path_cost by lia.
  destruct (decide (w = i)) as [->|Hne].
  - replace (i - i)%nat with 0%nat by lia. rewrite H0. cbn [Nat.ltb Nat.leb]. lra.
  - exfalso. rewrite E1, poly_a_path_cost in Hup by lia.
    rewrite (IH (i - w)%nat) in Hup by lia.
    replace (0 <? i - w)%nat with true in Hup by (symmetry; apply Nat.ltb_lt; lia).
    rewrite Nat2Z.inj_sub in Hup by lia. unfold Z.sub in Hup.
    rewrite inject_Z_plus, inject_Z_opp in Hup. lra.
Qed.

(** The block recorded at the end is the whole target, with length [0]. *)
Lemma poly_a_recorded_length : chosen_len a_tables !!! n = 0%Z.
Proof.
  pose proof poly_a_tables_inv as (_ & _ & _ & _ & H0 & Hcells & _).
  destruct (Hcells n ltac:(lia)) as (_ & Hle & Hcase).
  assert (Hself : candidate 65536 n n) by (unfold candidate; lia).
  pose proof (Hle n Hself) as Hup.
  destruct Hcase as [(_ & _ & Hl & _) | (w & Hc & E1 & _ & _ & _ & El & _)]; [exact Hl|].
  destruct Hc as (Hw1 & Hwi & _).
  destruct (decide (w = n)) as [->|Hne]; [rewrite El, Hn; reflexivity|].
  exfalso.
  rewrite E1, !poly_a_path_cost in Hup by lia.
  rewrite (poly_a_dp_value (n - w)%nat), (poly_a_dp_value (n - n)%nat) in Hup by lia.
  replace (0 <? n - w)%nat with true in Hup by (symmetry; apply Nat.ltb_lt; lia).
  replace (0 <? n - n)%nat with false in Hup by (symmetry; apply Nat.ltb_ge; lia).
  replace (n - n)%nat with 0%nat in Hup by lia.
  rewrite Nat2Z.inj_sub in Hup by lia. unfold Z.sub in Hup.
  rewrite inject_Z_plus, inject_Z_opp in Hup.
  change (inject_Z (Z.of_nat 0)) with 0%Q in Hup. lra.
Qed.

Lemma backtrack_stops {A : Type} (f : block -> A -> A) (fuel cur : nat)
    (t : dp_tables) (acc : A) :
  (0 < fuel)%nat -> chosen_len t !!! cur = 0%Z ->
  backtrack f fuel t cur acc = Some acc.
Proof.
  intros Hfuel Hlen. destruct fuel as [|fuel]; [lia|].
  cbn [backtrack]. rewrite Hlen.
  destruct (0 <? cur)%nat; [|reflexivity].
  by rewrite orb_true_r.
Qed.

Lemma poly_a_result :
  exists stats : PlannerStats,
    solve_dp_for_chromosome (poly_a n) 65536 t_index 5 1 1 0 = Some stats /\
    dp_blocks (poly_a n) 65536 t_index 5 1 1 0 = Some [] /\
    (cost stats == 65536)%Q /\
    segments stats = 0%Z /\
    (reuse_bases stats + synth_bases stats)%Z = 0%Z /\
    length_ stats = 65536%Z.
Proof.
  exists (make_stats (DP a_tables !!! n) n counters0).
  split; [|split; [|split; [|split; [|split]]]].
  - unfold solve_dp_for_chromosome, solve_dp_with.
    change (length t_index =? 1)%nat with true.
    rewrite poly_a_length.
    replace (n =? 0)%nat with false by (symmetry; apply Nat.eqb_neq; lia).
    rewrite backtrack_stops; [reflexivity | lia | apply poly_a_recorded_length].
  - unfold dp_blocks.
    change (length t_index =? 1)%nat with true.
    rewrite poly_a_length.
    apply backtrack_stops; [lia | apply poly_a_recorded_length].
  - cbn [cost make_stats]. rewrite poly_a_dp_value by lia. by rewrite Hn.
  - reflexivity.
  - reflexivity.
  - cbn [length_ make_stats]. rewrite Hn. reflexivity.
Qed.

End LengthWrap.

(** For the target of 65536 bases "A", the source "T", [W = 65536],
    [cost_pcr = 5], [cost_join = 1], [cost_synth_linear = 1] and
    [cost_synth_quad = 0], the least cost [65536] is that of the single
    synthesis block, and the planner reports it with no block and no base. *)
Remark dp_block_of_65536_bases_is_not_counted :
  exists stats : PlannerStats,
    solve_dp_for_chromosome (poly_a (Z.to_nat 65536)) 65536 [build_index (s2l "T")]
      5 1 1 0 = Some stats /\
    dp_blocks (poly_a (Z.to_nat 65536)) 65536 [build_index (s2l "T")] 5 1 1 0
    = Some [] /\
    (cost stats == 65536)%Q /\
    segments stats = 0%Z /\
    (reuse_bases stats + synth_bases stats)%Z = 0%Z /\
    length_ stats = 65536%Z.
Proof. apply poly_a_result. apply Z2Nat.id. lia. Qed.

(** * The claims of the specification *)

(** ** C2: the incremental sweep refines the fallback sweep *)



(** ** C3: the DP planner against the greedy planner *)

(** C3 with exact sums.  For every target, every [W >= 1] and every cost
    model, with indexes that meet the contract of the oracle, both planners
    return and the cost reported by the DP planner is at most the cost
    reported by the greedy planner. *)
Theorem dp_cost_le_greedy_cost
    (chrom_seq : list ascii) (W : Z) (indexes : list fm_index)
    (cost_pcr cost_join cost_synth_linear cost_synth_quad : Q) :
  (1 <= W)%Z ->
  Forall index_coherent indexes ->
  exists (dp greedy : PlannerStats),
    solve_dp_for_chromosome chrom_seq W indexes cost_pcr cost_join
      cost_synth_linear cost_synth_quad = Some dp /\
    solve_greedy_for_chromosome_stats chrom_seq W indexes cost_pcr cost_join
      cost_synth_linear cost_synth_quad = Some greedy /\
    (cost dp <= cost greedy)%Q.
Proof.
  intros HW Hcoh.
  destruct (dp_run chrom_seq W indexes cost_pcr cost_join cost_synth_linear
              cost_synth_quad (length indexes =? 1)%nat) as (bs & _ & _ & Hdp).
  destruct (greedy_run chrom_seq W indexes cost_pcr cost_join cost_synth_linear
              cost_synth_quad) as (c & Hg & Hchain & Hall & Hcost).
  eexists _, _. split; [exact Hdp|]. split; [exact Hg|].
  cbn [cost make_stats]. rewrite (Hcost HW).
  apply (dp_lower_bound chrom_seq W indexes); [by apply dp_fill_inv | lia |].
  split.
  - apply Forall_map. eapply Forall_impl; [exact Hall|].
    intros b (Hlt & _ & Hok). destruct (Hok HW) as ((H1 & _ & H3) & _). lia.
  - change (list_sum (map block_length (greedy_blocks chrom_seq W indexes
                                          (length chrom_seq) 0)))
      with (0 + list_sum (map block_length (greedy_blocks chrom_seq W indexes
                                              (length chrom_seq) 0)))%nat.
    apply chain_sum; [exact Hchain|].
    eapply Forall_impl; [exact Hall|]. intros b (Hlt & _). simpl. lia.
Qed.

Lemma dp_cost_le_greedy_cost_witness :
  exists (dp greedy : PlannerStats),
    solve_dp_for_chromosome (s2l "ACGTTACGGA") 3 [build_index (s2l "TTACG")]
      5 (3 # 2) (2 # 10) (1 # 10000) = Some dp /\
    solve_greedy_for_chromosome_stats (s2l "ACGTTACGGA") 3 [build_index (s2l "TTACG")]
      5 (3 # 2) (2 # 10) (1 # 10000) = Some greedy /\
    (cost dp <= cost greedy)%Q.
Proof.
  apply (dp_cost_le_greedy_cost (s2l "ACGTTACGGA") 3 [build_index (s2l "TTACG")]
           5 (3 # 2) (2 # 10) (1 # 10000)).
  - lia.
  - constructor; [|constructor]. apply build_index_coherent. simpl. lia.
Defined.

(** In binary64 the DP planner reports a cost above that of the greedy
    planner for the target "AC", the source "T", [W = 2], [cost_pcr = 5],
    [cost_join = 0.1], [cost_synth_linear = 0.7] and
    [cost_synth_quad = 0.1] (the doubles nearest to these decimals): both
    planners synthesise the two bases one by one; the DP planner adds
    [(DP[1] + acquisition) + cost_join], the greedy planner
    [(total + cost_join) + acquisition], and the two sums round to
    [0x1.b333333333333p+0] and [0x1.b333333333332p+0]. *)
Lemma dp_cost_exceeds_greedy_cost_in_binary64 :
  exists (dp greedy : Binary64.PlannerStats),
    Binary64.solve_dp_for_chromosome (s2l "AC") 2 [build_index (s2l "T")]
      5 0x1.999999999999ap-4 0x1.6666666666666p-1 0x1.999999999999ap-4 = Some dp /\
    Binary64.solve_greedy_for_chromosome_stats (s2l "AC") 2 [build_index (s2l "T")]
      5 0x1.999999999999ap-4 0x1.6666666666666p-1 0x1.999999999999ap-4 = Some greedy /\
    Binary64.cost dp = 0x1.b333333333333p+0%float /\
    Binary64.cost greedy = 0x1.b333333333332p+0%float /\
    (Binary64.cost greedy <? Binary64.cost dp)%float = true /\
    Binary64.segments dp = 2%Z /\ Binary64.synth_moves dp = 2%Z /\
    Binary64.segments greedy = 2%Z /\ Binary64.synth_moves greedy = 2%Z.
Proof.
  eexists _, _. split; [vm_compute; reflexivity|]. split; [vm_compute; reflexivity|].
  repeat split.
Qed.

(** ** C4: the policy of the greedy planner *)

(** C4.  The greedy planner returns on every input, and what it returns is
    read off the blocks of its policy.  There are blocks that follow each
    other from [0] to [N] without gap or overlap, the block that starts at
    [i] being, with [m = min(W, N - i)],
    - a reuse block of the longest length in [[1, m]] whose text
      [chrom_seq[i..i+w)] some index counts ([sdsl::count] positive), or
    - when no length in [[1, m]] is one, a synthesis block of exactly one
      base;
    the cost is [0.0] to which the blocks are added in order, each as
    [cost_join] if [i > 0] and then [cost_pcr] for a reuse block or
    [cost_synth_linear * 1 + cost_synth_quad * 1 * 1] for a synthesis block,
    every sum and product rounded in binary64; and the counters count these
    blocks, in [uint64_t].  After [k] iterations of its loop the sweep
    stands at the start of the block of rank [k] (at [N] after the last
    one) and has paid and counted the blocks before it.  The candidate
    lengths are queried from the longest down, one [sdsl::count] per index
    each, and the first success ends the search. *)
Theorem greedy_takes_longest_reusable_else_one_base
    (chrom_seq : list ascii) (W : Z) (indexes : list fm_index)
    (cost_pcr cost_join cost_synth_linear cost_synth_quad : float) :
  let N := length chrom_seq in
  (forall n i,
      find_best_w chrom_seq indexes (S n) i
      = if existsb (fun index => (0 <? fm_count index (firstn (S n) (skipn i chrom_seq)))%N)
             indexes
        then S n
        else find_best_w chrom_seq indexes n i) /\
  (forall i, find_best_w chrom_seq indexes 0 i = 0%nat) /\
  exists blocks : list block,
    chain 0 blocks N /\
    Forall (greedy_policy chrom_seq W indexes) blocks /\
    (forall k, (k <= length blocks)%nat ->
       Nat.iter k
         (Binary64.greedy_step chrom_seq W indexes cost_pcr cost_join
            cost_synth_linear cost_synth_quad)
         {| Binary64.g_i := 0; Binary64.g_total_cost := 0;
            Binary64.g_counters := counters0 |}
       = {| Binary64.g_i := nth k (map b_start blocks) N;
            Binary64.g_total_cost :=
              fold_left (greedy_charge cost_pcr cost_join cost_synth_linear
                           cost_synth_quad) (firstn k blocks) 0%float;
            Binary64.g_counters := counts_of (firstn k blocks) |}) /\
    let segments := wrap64 (Z.of_nat (length blocks)) in
    Binary64.solve_greedy_for_chromosome_stats chrom_seq W indexes cost_pcr cost_join
      cost_synth_linear cost_synth_quad
    = Some {| Binary64.cost :=
                fold_left (greedy_charge cost_pcr cost_join cost_synth_linear
                             cost_synth_quad) blocks 0%float;
              Binary64.reuse_moves := wrap64 (moves_of true blocks);
              Binary64.synth_moves := wrap64 (moves_of false blocks);
              Binary64.joins := if (0 <? segments)%Z then wrap64 (segments - 1) else 0;
              Binary64.segments := segments;
              Binary64.reuse_bases := wrap64 (bases_of true blocks);
              Binary64.synth_bases := wrap64 (bases_of false blocks);
              Binary64.length_ := wrap64 (Z.of_nat N) |}.
Proof.
  intros N. split; [reflexivity|]. split; [reflexivity|].
  exists (greedy_blocks chrom_seq W indexes N 0).
  destruct (greedy_blocks_policy chrom_seq W indexes N 0) as [Hc Hall]; [lia | lia |].
  split; [exact Hc|]. split; [exact Hall|]. split.
  - intros k Hk.
    rewrite (greedy_steps_trace chrom_seq W indexes cost_pcr cost_join
               cost_synth_linear cost_synth_quad N _ k) by (simpl; fold N; lia).
    cbn [Binary64.g_i Binary64.g_total_cost Binary64.g_counters].
    f_equal. apply (fold_count_left (firstn k (greedy_blocks chrom_seq W indexes N 0)) []).
  - cbv zeta. rewrite greedy_run_binary64. reflexivity.
Qed.

(** ** C8: the empty target, and termination *)

(** C8.  On a zero-length target both planners return the all-zero result;
    the run over the records skips such a record: it prints no row for it
    and leaves every total as it is; and on every input, with any indexes,
    both planners return a result. *)
Theorem empty_target_and_completion :
  (forall (W : Z) (indexes : list fm_index)
          (cost_pcr cost_join cost_synth_linear cost_synth_quad : Q),
      solve_dp_for_chromosome [] W indexes cost_pcr cost_join cost_synth_linear
        cost_synth_quad = Some stats0 /\
      solve_greedy_for_chromosome_stats [] W indexes cost_pcr cost_join
        cost_synth_linear cost_synth_quad = Some stats0) /\
  (forall (solve : list ascii -> option PlannerStats)
          (chrom_header : list ascii) (rest : list (list ascii * list ascii))
          (out : list row) (total : PlannerStats),
      run_records solve ((chrom_header, []) :: rest) out total
      = run_records solve rest out total) /\
  (forall (chrom_seq : list ascii) (W : Z) (indexes : list fm_index)
          (cost_pcr cost_join cost_synth_linear cost_synth_quad : Q),
      (exists stats,
          solve_dp_for_chromosome chrom_seq W indexes cost_pcr cost_join
            cost_synth_linear cost_synth_quad = Some stats) /\
      (exists stats,
          solve_greedy_for_chromosome_stats chrom_seq W indexes cost_pcr cost_join
            cost_synth_linear cost_synth_quad = Some stats)).
Proof.
  split; [|split].
  - intros. split; reflexivity.
  - intros. reflexivity.
  - intros. split.
    + destruct (dp_run chrom_seq W indexes cost_pcr cost_join cost_synth_linear
                  cost_synth_quad (length indexes =? 1)%nat) as (bs & _ & _ & Hdp).
      eexists. exact Hdp.
    + destruct (greedy_run chrom_seq W indexes cost_pcr cost_join cost_synth_linear
                  cost_synth_quad) as (c & Hg & _).
      eexists. exact Hg.
Qed.

(** ** C9: the all-synthesis scenario *)


(** ** C1: the cost that the DP planner reports *)

(** C1 fails above the sentinel, with exact sums as in binary64.  For the
    target "A", the source "T", [W = 1] and
    [cost_pcr = cost_synth_linear = 2e18], the only partition is the
    synthesis block [[0, 1)] and the least cost is [2e18]; the planner
    reports the sentinel [1e18] and backtracks over no block. *)
Lemma dp_cost_is_not_minimum_above_sentinel :
  solve_dp_for_chromosome (s2l "A") 1 [build_index (s2l "T")] 2e18 0 2e18 0
  = Some {| cost := 1e18; reuse_moves := 0; synth_moves := 0; joins := 0;
            segments := 0; reuse_bases := 0; synth_bases := 0; length_ := 1 |} /\
  dp_blocks (s2l "A") 1 [build_index (s2l "T")] 2e18 0 2e18 0 = Some [] /\
  is_min_cost (s2l "A") 1 [build_index (s2l "T")] 2e18 0 2e18 0 1 2e18 /\
  ~ is_min_cost (s2l "A") 1 [build_index (s2l "T")] 2e18 0 2e18 0 1 1e18.
Proof.
  assert (Hone : forall ws, is_partition 1 1 ws -> ws = [1%nat]).
  { intros ws [Hall Hsum].
    destruct ws as [|w [|w' ws]].
    - discriminate.
    - simpl in Hsum. f_equal. lia.
    - apply Forall_cons_1 in Hall as [Hw Hall].
      apply Forall_cons_1 in Hall as [Hw' _]. simpl in Hsum. lia. }
  split; [vm_compute; reflexivity|]. split; [vm_compute; reflexivity|].
  split; [split|].
  - exists [1%nat]. split; [|vm_compute; reflexivity].
    split; [|reflexivity]. constructor; [simpl; lia | constructor].
  - intros ws Hws. rewrite (Hone ws Hws). vm_compute. discriminate.
  - intros [(ws & Hws & Hcost) _].
    rewrite (Hone ws Hws) in Hcost. vm_compute in Hcost. discriminate.
Qed.

(** In binary64, for the target "A", the source "T", [W = 1] and
    [cost_pcr = cost_synth_linear = 2e18] (exact doubles), the only
    candidate at position [1] has the path cost [2e18], which is not below
    the [1e18] at which [min_cost_for_i] starts: the sweep records nothing,
    the DP planner reports the cost [1e18] and no block and no base, where
    the greedy planner reports the one synthesis block of cost [2e18]. *)
Lemma dp_planner_records_nothing_above_the_sentinel_in_binary64 :
  Binary64.dp_fill (s2l "A") 1 [build_index (s2l "T")] 2e18 0 2e18 0 true
  = {| Binary64.DP := [0; 1e18]%float; Binary64.pred := [-1; -1]%Z;
       Binary64.chosen_len := [0; 0]%Z; Binary64.chosen_is_reuse := [false; false] |} /\
  (0 + (2e18 * 1 + 0 * 1 * 1) + 0 = 2e18)%float /\
  (2e18 <? 1e18)%float = false /\
  Binary64.dp_blocks (s2l "A") 1 [build_index (s2l "T")] 2e18 0 2e18 0 = Some [] /\
  Binary64.solve_dp_for_chromosome (s2l "A") 1 [build_index (s2l "T")] 2e18 0 2e18 0
  = Some {| Binary64.cost := 1e18; Binary64.reuse_moves := 0; Binary64.synth_moves := 0;
            Binary64.joins := 0; Binary64.segments := 0; Binary64.reuse_bases := 0;
            Binary64.synth_bases := 0; Binary64.length_ := 1 |} /\
  Binary64.solve_greedy_for_chromosome_stats (s2l "A") 1 [build_index (s2l "T")]
    2e18 0 2e18 0
  = Some {| Binary64.cost := 2e18; Binary64.reuse_moves := 0; Binary64.synth_moves := 1;
            Binary64.joins := 0; Binary64.segments := 1; Binary64.reuse_bases := 0;
            Binary64.synth_bases := 1; Binary64.length_ := 1 |}.
Proof. repeat split; vm_compute; reflexivity. Qed.

(** C1 with exact sums and below the sentinel.  For every target, every
    [W], non-negative cost parameters and indexes that meet the contract of
    the oracle, the planner returns; the cost it reports is at most the sentinel [1e18] and at most
    the cost of every partition of [[0, N)] into blocks of lengths in
    [[1, W]]; when it is below [1e18] it is the least cost of such a
    partition; and then, for [W <= 65535], the blocks of the backtracking
    attain it: they cover [[0, N)] in order, each is recorded with its
    length and kind, and their cost is the reported cost. *)
Theorem dp_cost_is_minimum_below_sentinel
    (chrom_seq : list ascii) (W : Z) (indexes : list fm_index)
    (cost_pcr cost_join cost_synth_linear cost_synth_quad : Q) :
  (0 <= cost_pcr)%Q -> (0 <= cost_join)%Q ->
  (0 <= cost_synth_linear)%Q -> (0 <= cost_synth_quad)%Q ->
  Forall index_coherent indexes ->
  let N := length chrom_seq in
  let pcost := partition_cost chrom_seq indexes cost_pcr cost_join
                 cost_synth_linear cost_synth_quad in
  exists (stats : PlannerStats) (bs : list block),
    solve_dp_for_chromosome chrom_seq W indexes cost_pcr cost_join
      cost_synth_linear cost_synth_quad = Some stats /\
    dp_blocks chrom_seq W indexes cost_pcr cost_join cost_synth_linear
      cost_synth_quad = Some bs /\
    (cost stats <= 1e18)%Q /\
    (forall ws, is_partition W N ws -> (cost stats <= pcost 0%nat ws)%Q) /\
    ((cost stats < 1e18)%Q ->
     is_min_cost chrom_seq W indexes cost_pcr cost_join cost_synth_linear
       cost_synth_quad N (cost stats) /\
     ((W <= 65535)%Z ->
      covers N W bs /\
      Forall (block_ok chrom_seq W indexes) bs /\
      (pcost 0%nat (map block_length bs) == cost stats)%Q)).
Proof.
  intros Hpcr Hjoin Hlin Hquad Hcoh N pcost.
  destruct (dp_result chrom_seq W indexes cost_pcr cost_join cost_synth_linear
              cost_synth_quad Hcoh)
    as (stats & bs & Hsolve & Hblocks & Hstats & _ & Hcap & Hlow & Hback).
  exists stats, bs.
  split; [exact Hsolve|]. split; [exact Hblocks|]. split; [exact Hcap|].
  split; [exact Hlow|].
  intros Hlt. split.
  - split; [|exact Hlow].
    pose proof (dp_fill_inv chrom_seq W indexes cost_pcr cost_join cost_synth_linear
                  cost_synth_quad Hcoh) as Hinv.
    rewrite Hstats in Hlt |- *. cbn [cost make_stats] in Hlt |- *.
    apply (dp_achieved chrom_seq W indexes cost_pcr cost_join cost_synth_linear
             cost_synth_quad _ N Hpcr Hjoin Hlin Hquad Hinv); [lia | exact Hlt].
  - intros HW.
    destruct (Hback HW Hpcr Hjoin Hlin Hquad Hlt) as (Hchain & Hok & Hcost).
    split; [|split; [exact Hok | exact Hcost]].
    split; [exact Hchain|].
    eapply Forall_impl; [exact Hok|].
    intros b ((H1 & H2 & H3) & _). unfold block_length in *. lia.
Qed.

Lemma dp_cost_is_minimum_below_sentinel_witness :
  exists (stats : PlannerStats) (bs : list block),
    solve_dp_for_chromosome (s2l "ACGTTACGGA") 3 [build_index (s2l "TTACG")]
      5 (3 # 2) (2 # 10) (1 # 10000) = Some stats /\
    dp_blocks (s2l "ACGTTACGGA") 3 [build_index (s2l "TTACG")]
      5 (3 # 2) (2 # 10) (1 # 10000) = Some bs /\
    (cost stats <= 1e18)%Q /\
    (forall ws, is_partition 3 10 ws ->
       (cost stats <= partition_cost (s2l "ACGTTACGGA") [build_index (s2l "TTACG")]
                        5 (3 # 2) (2 # 10) (1 # 10000) 0 ws)%Q) /\
    ((cost stats < 1e18)%Q ->
     is_min_cost (s2l "ACGTTACGGA") 3 [build_index (s2l "TTACG")]
       5 (3 # 2) (2 # 10) (1 # 10000) 10 (cost stats) /\
     ((3 <= 65535)%Z ->
      covers 10 3 bs /\
      Forall (block_ok (s2l "ACGTTACGGA") 3 [build_index (s2l "TTACG")]) bs /\
      (partition_cost (s2l "ACGTTACGGA") [build_index (s2l "TTACG")]
         5 (3 # 2) (2 # 10) (1 # 10000) 0 (map block_length bs) == cost stats)%Q)).
Proof.
  apply (dp_cost_is_minimum_below_sentinel (s2l "ACGTTACGGA") 3
           [build_index (s2l "TTACG")] 5 (3 # 2) (2 # 10) (1 # 10000)).
  - unfold Qle; simpl; lia.
  - unfold Qle; simpl; lia.
  - unfold Qle; simpl; lia.
  - unfold Qle; simpl; lia.
  - constructor; [|constructor]. apply build_index_coherent. simpl. lia.
Defined.

(** ** C5: the blocks cover the target *)

(** C5 fails above the sentinel.  For the target "A", the source "T",
    [W = 1] and [cost_pcr = cost_synth_linear = 2e18], the backtracking
    of the DP planner visits no block: nothing covers [[0, 1)]. *)
Lemma dp_blocks_do_not_cover_above_sentinel :
  dp_blocks (s2l "A") 1 [build_index (s2l "T")] 2e18 0 2e18 0 = Some [] /\
  ~ covers 1 1 [].
Proof.
  split; [vm_compute; reflexivity|].
  intros [Hchain _]. simpl in Hchain. discriminate.
Qed.

(** C5 with exact sums.  For a target of length [N < 2^64]:
    - the DP planner reports as junction count the number of blocks of its
      backtracking minus 1 (0 when there is no block); for [W <= 65535],
      non-negative cost parameters and indexes that meet the contract of
      the oracle, when the cost it reports is below the sentinel [1e18]
      these blocks are contiguous, cover [[0, N)] exactly once and have
      lengths in [[1, W]];
    - the greedy planner, for [W >= 1], emits blocks that are contiguous,
      cover [[0, N)] exactly once and have lengths in [[1, W]], and
      reports as junction count their number minus 1 (0 when there is no
      block). *)
Theorem blocks_cover_target
    (chrom_seq : list ascii) (W : Z) (indexes : list fm_index)
    (cost_pcr cost_join cost_synth_linear cost_synth_quad : Q) :
  let N := length chrom_seq in
  (Z.of_nat N < 18446744073709551616)%Z ->
  (exists (stats : PlannerStats) (bs : list block),
     solve_dp_for_chromosome chrom_seq W indexes cost_pcr cost_join
       cost_synth_linear cost_synth_quad = Some stats /\
     dp_blocks chrom_seq W indexes cost_pcr cost_join cost_synth_linear
       cost_synth_quad = Some bs /\
     segments stats = Z.of_nat (length bs) /\
     joins stats = Z.of_nat (length bs - 1) /\
     ((W <= 65535)%Z ->
      (0 <= cost_pcr)%Q -> (0 <= cost_join)%Q ->
      (0 <= cost_synth_linear)%Q -> (0 <= cost_synth_quad)%Q ->
      Forall index_coherent indexes ->
      (cost stats < 1e18)%Q ->
      covers N W bs)) /\
  ((1 <= W)%Z ->
   exists stats : GreedyStats,
     solve_greedy_for_chromosome_stats chrom_seq W indexes cost_pcr cost_join
       cost_synth_linear cost_synth_quad = Some stats /\
     segments stats = Z.of_nat (length (greedy_blocks chrom_seq W indexes N 0)) /\
     joins stats = Z.of_nat (length (greedy_blocks chrom_seq W indexes N 0) - 1) /\
     covers N W (greedy_blocks chrom_seq W indexes N 0)).
Proof.
  intros N HN. split.
  - destruct (dp_run chrom_seq W indexes cost_pcr cost_join cost_synth_linear
                cost_synth_quad (length indexes =? 1)%nat) as (bs & Hlen & Hrun & Hdp).
    fold N in Hlen, Hrun, Hdp.
    pose proof (dp_blocks_run chrom_seq W indexes cost_pcr cost_join cost_synth_linear
                  cost_synth_quad bs Hrun) as Hblocks.
    eexists _, bs. split; [exact Hdp|]. split; [exact Hblocks|].
    destruct (make_stats_counts
                (DP (dp_fill chrom_seq W indexes cost_pcr cost_join cost_synth_linear
                       cost_synth_quad (length indexes =? 1)%nat) !!! N) N bs HN Hlen)
      as (Hseg & _ & _ & Hjoins & _).
    split; [exact Hseg|]. split; [exact Hjoins|].
    intros HW Hpcr Hjoin Hlin Hquad Hcoh Hlt.
    destruct (dp_result chrom_seq W indexes cost_pcr cost_join cost_synth_linear
                cost_synth_quad Hcoh)
      as (stats & bs' & _ & Hblocks' & Hstats & _ & _ & _ & Hback).
    assert (Hbs : bs' = bs) by (rewrite Hblocks in Hblocks'; by injection Hblocks').
    subst bs'.
    destruct (Hback HW Hpcr Hjoin Hlin Hquad) as (Hchain & Hok & _).
    { by rewrite Hstats. }
    split; [exact Hchain|].
    eapply Forall_impl; [exact Hok|].
    intros b ((H1 & H2 & H3) & _). unfold block_length in *. lia.
  - intros HW.
    destruct (greedy_run chrom_seq W indexes cost_pcr cost_join cost_synth_linear
                cost_synth_quad) as (c & Hg & Hchain & Hall & _).
    fold N in Hg, Hchain, Hall.
    assert (Hlen : (length (greedy_blocks chrom_seq W indexes N 0) <= N)%nat).
    { change (0 + length (greedy_blocks chrom_seq W indexes N 0) <= N)%nat.
      apply chain_length; [exact Hchain|].
      eapply Forall_impl; [exact Hall|]. by intros b (H & _). }
    destruct (make_stats_counts c N _ HN Hlen) as (Hseg & _ & _ & Hjoins & _).
    eexists. split; [exact Hg|]. split; [exact Hseg|]. split; [exact Hjoins|].
    split; [exact Hchain|].
    eapply Forall_impl; [exact Hall|].
    intros b (Hlt & _ & Hok). split; [exact Hlt|].
    destruct (Hok HW) as ((_ & _ & H3) & _). exact H3.
Qed.

Lemma blocks_cover_target_witness :
  (exists (stats : PlannerStats) (bs : list block),
     solve_dp_for_chromosome (s2l "ACGTTACGGA") 3 [build_index (s2l "TTACG")]
       5 (3 # 2) (2 # 10) (1 # 10000) = Some stats /\
     dp_blocks (s2l "ACGTTACGGA") 3 [build_index (s2l "TTACG")]
       5 (3 # 2) (2 # 10) (1 # 10000) = Some bs /\
     segments stats = Z.of_nat (length bs) /\
     joins stats = Z.of_nat (length bs - 1) /\
     covers 10 3 bs) /\
  (exists stats : GreedyStats,
     solve_greedy_for_chromosome_stats (s2l "ACGTTACGGA") 3 [build_index (s2l "TTACG")]
       5 (3 # 2) (2 # 10) (1 # 10000) = Some stats /\
     segments stats
     = Z.of_nat (length (greedy_blocks (s2l "ACGTTACGGA") 3 [build_index (s2l "TTACG")] 10 0)) /\
     joins stats
     = Z.of_nat (length (greedy_blocks (s2l "ACGTTACGGA") 3 [build_index (s2l "TTACG")] 10 0) - 1) /\
     covers 10 3 (greedy_blocks (s2l "ACGTTACGGA") 3 [build_index (s2l "TTACG")] 10 0)).
Proof.
  destruct (blocks_cover_target (s2l "ACGTTACGGA") 3 [build_index (s2l "TTACG")]
              5 (3 # 2) (2 # 10) (1 # 10000))
    as [(stats & bs & Hdp & Hblocks & Hseg & Hjoins & Hcover) Hgreedy].
  - simpl. lia.
  - split.
    + exists stats, bs. split; [exact Hdp|]. split; [exact Hblocks|].
      split; [exact Hseg|]. split; [exact Hjoins|].
      apply Hcover.
      * lia.
      * unfold Qle; simpl; lia.
      * unfold Qle; simpl; lia.
      * unfold Qle; simpl; lia.
      * unfold Qle; simpl; lia.
      * constructor; [|constructor]. apply build_index_coherent. simpl. lia.
      * vm_compute in Hdp. injection Hdp as <-. vm_compute. reflexivity.
    + apply Hgreedy. lia.
Defined.

(** ** C6: ties go to the first minimum *)

(** C6 fails above the sentinel.  For the target "A", the source "T",
    [W = 1] and [cost_pcr = cost_synth_linear = 2e18], the length [1]
    is the only candidate at position [1] and has the least path cost, but
    nothing is recorded there: the predecessor is [-1] and the length [0]. *)
Lemma first_minimum_not_recorded_above_sentinel :
  let t := dp_fill (s2l "A") 1 [build_index (s2l "T")] 2e18 0 2e18 0 true in
  candidate 1 1 1 /\
  pred t !!! 1%nat = (-1)%Z /\ chosen_len t !!! 1%nat = 0%Z /\
  ~ records_first_minimum (s2l "A") 1 [build_index (s2l "T")] 2e18 0 2e18 0 t 1.
Proof.
  cbv zeta. split; [unfold candidate; lia|].
  split; [vm_compute; reflexivity|]. split; [vm_compute; reflexivity|].
  intros (w & _ & _ & _ & Hpred & _).
  assert (E : pred (dp_fill (s2l "A") 1 [build_index (s2l "T")] 2e18 0 2e18 0 true)
              !!! 1%nat = (-1)%Z) by (vm_compute; reflexivity).
  rewrite E in Hpred. lia.
Qed.

(** C6 with exact sums.  The sweep examines the candidate lengths in
    increasing order and updates the running minimum, started at the sentinel [1e18],
    only on a strict decrease of the path cost.  So, for indexes that meet
    the contract of the oracle, at every position [i] of the sweep: the
    entry [DP[i]] is at most [1e18] and at most every candidate path cost;
    if some candidate path cost is below [1e18], [DP[i]] is the least
    candidate path cost and the predecessor and kind recorded for [i] are
    those of the smallest candidate length [w] of least path cost, and so
    is the recorded length when [w <= 65535]; if none is, nothing is
    recorded for [i] ([DP[i]] is [1e18], the predecessor [-1], the length
    [0]). *)
Theorem first_minimum_recorded_below_sentinel
    (chrom_seq : list ascii) (W : Z) (indexes : list fm_index)
    (cost_pcr cost_join cost_synth_linear cost_synth_quad : Q) :
  Forall index_coherent indexes ->
  let t := dp_fill chrom_seq W indexes cost_pcr cost_join cost_synth_linear
             cost_synth_quad (length indexes =? 1)%nat in
  let pc := path_cost chrom_seq indexes cost_pcr cost_join cost_synth_linear
              cost_synth_quad (DP t) in
  (forall n i w tm,
      scan_fallback chrom_seq indexes cost_pcr cost_join cost_synth_linear
        cost_synth_quad (S n) i w tm
      = scan_fallback chrom_seq indexes cost_pcr cost_join cost_synth_linear
          cost_synth_quad n i (S w)
          (relax i (i - w) w (reusable chrom_seq indexes (i - w) w)
             (path_cost chrom_seq indexes cost_pcr cost_join cost_synth_linear
                cost_synth_quad (DP (fst tm)) i w) tm)) /\
  (forall i j w is_reuse path_cost tm,
      (snd tm <= path_cost)%Q -> relax i j w is_reuse path_cost tm = tm) /\
  (forall i, (1 <= i <= length chrom_seq)%nat ->
    (DP t !!! i <= 1e18)%Q /\
    (forall w, candidate W i w -> (DP t !!! i <= pc i w)%Q) /\
    ((exists w, candidate W i w /\ (pc i w < 1e18)%Q) ->
     exists w,
       candidate W i w /\
       DP t !!! i = pc i w /\
       (forall w', candidate W i w' -> (pc i w <= pc i w')%Q) /\
       (forall w', candidate W i w' -> (w' < w)%nat -> (pc i w < pc i w')%Q) /\
       pred t !!! i = Z.of_nat (i - w) /\
       chosen_is_reuse t !!! i = reusable chrom_seq indexes (i - w) w /\
       ((Z.of_nat w <= 65535)%Z -> chosen_len t !!! i = Z.of_nat w)) /\
    ((exists w, candidate W i w /\ (pc i w < 1e18)%Q) ->
     (W <= 65535)%Z ->
     records_first_minimum chrom_seq W indexes cost_pcr cost_join cost_synth_linear
       cost_synth_quad t i) /\
    ((forall w, candidate W i w -> (1e18 <= pc i w)%Q) ->
     unreached t i)).
Proof.
  intros Hcoh t pc.
  split; [reflexivity|].
  split.
  { intros i j w r p tm Hle. unfold relax.
    by rewrite (proj2 (Qlt_bool_false p (snd tm)) Hle). }
  intros i Hi.
  pose proof (dp_fill_inv chrom_seq W indexes cost_pcr cost_join cost_synth_linear
                cost_synth_quad Hcoh) as (_ & _ & _ & _ & _ & Hcells & _).
  destruct (Hcells i Hi) as (Hcap & Hle & Hcase).
  fold t in Hcap, Hle, Hcase. fold pc in Hle.
  assert (Hmain : (exists w, candidate W i w /\ (pc i w < 1e18)%Q) ->
            exists w,
              candidate W i w /\
              DP t !!! i = pc i w /\
              (forall w', candidate W i w' -> (pc i w <= pc i w')%Q) /\
              (forall w', candidate W i w' -> (w' < w)%nat -> (pc i w < pc i w')%Q) /\
              pred t !!! i = Z.of_nat (i - w) /\
              chosen_is_reuse t !!! i = reusable chrom_seq indexes (i - w) w /\
              ((Z.of_nat w <= 65535)%Z -> chosen_len t !!! i = Z.of_nat w)).
  { intros (w0 & Hw0 & Hlt0).
    destruct Hcase as [(Hun & _) | (w & Hc & E1 & E2 & E3 & Ep & El & Er)].
    { specialize (Hle w0 Hw0). rewrite Hun in Hle. exfalso. lra. }
    fold pc in E1, E2, E3.
    exists w. split; [exact Hc|]. split; [exact E1|]. split.
    { intros w' Hw'. rewrite <- E1. by apply Hle. }
    split; [exact E3|]. split; [exact Ep|]. split; [exact Er|].
    intros Hw16. rewrite El. unfold wrap16. apply Z.mod_small. lia. }
  split; [exact Hcap|]. split; [exact Hle|]. split; [exact Hmain|]. split.
  - intros Hex HW.
    destruct (Hmain Hex) as (w & Hc & _ & Hmin & Hfirst & Ep & Er & El).
    exists w. split; [exact Hc|]. split; [exact Hmin|]. split; [exact Hfirst|].
    split; [exact Ep|]. split; [|exact Er].
    apply El. destruct Hc as (_ & _ & H3). lia.
  - intros Hall.
    destruct Hcase as [Hun | (w & Hc & _ & E2 & _)]; [exact Hun|].
    fold pc in E2. specialize (Hall w Hc). exfalso. lra.
Qed.

Lemma first_minimum_recorded_below_sentinel_witness :
  let t := dp_fill (s2l "ACGTTACGGA") 3 [build_index (s2l "TTACG")]
             5 (3 # 2) (2 # 10) (1 # 10000) true in
  records_first_minimum (s2l "ACGTTACGGA") 3 [build_index (s2l "TTACG")]
    5 (3 # 2) (2 # 10) (1 # 10000) t 10.
Proof.
  cbv zeta.
  destruct (first_minimum_recorded_below_sentinel (s2l "ACGTTACGGA") 3
              [build_index (s2l "TTACG")] 5 (3 # 2) (2 # 10) (1 # 10000))
    as (_ & _ & Hpos).
  - constructor; [|constructor]. apply build_index_coherent. simpl. lia.
  - destruct (Hpos 10%nat) as (_ & _ & _ & Hrec & _); [simpl; lia|].
    apply Hrec; [|lia].
    exists 1%nat. split; [unfold candidate; lia|].
    vm_compute. reflexivity.
Defined.

(** ** C7: the sentinel *)

(** C7 fails: the sentinel is the finite number [1e18].  For the
    target "A", the source "T", [W = 1] and
    [cost_pcr = cost_synth_linear = 2e18], the partition of [[0, 1)] into
    one block costs [2e18], above the sentinel, and the sweep leaves [DP[1]]
    at the sentinel and the predecessor of [1] at [-1]. *)
Lemma sentinel_is_not_above_every_cost :
  let t := dp_fill (s2l "A") 1 [build_index (s2l "T")] 2e18 0 2e18 0 true in
  is_partition 1 1 [1%nat] /\
  (1e18 < partition_cost (s2l "A") [build_index (s2l "T")] 2e18 0 2e18 0 0 [1%nat])%Q /\
  DP t !!! 1%nat = 1e18%Q /\
  pred t !!! 1%nat = (-1)%Z.
Proof.
  cbv zeta. split; [|split; [|split]].
  - split; [|reflexivity]. constructor; [simpl; lia | constructor].
  - vm_compute. reflexivity.
  - vm_compute. reflexivity.
  - vm_compute. reflexivity.
Qed.

(** C7 with exact sums.  The entries [DP[1..N]] are allocated at the
    finite sentinel [1e18].  For non-negative cost parameters and indexes that meet
    the contract of the oracle, at every position [i] in [1..N] the final
    [DP[i]] is at most [1e18] and at most the cost of every partition of
    [[0, i)] into blocks of lengths in [[1, W]]; when it is below [1e18]
    (as it is as soon as one such partition costs less than [1e18]) it is
    the cost of such a partition and the recorded predecessor is [i - w] for
    a candidate length [w]; otherwise [DP[i]] is the sentinel and the
    recorded predecessor is [-1]. *)
Theorem dp_entry_below_sentinel_is_a_partition_cost
    (chrom_seq : list ascii) (W : Z) (indexes : list fm_index)
    (cost_pcr cost_join cost_synth_linear cost_synth_quad : Q) :
  (0 <= cost_pcr)%Q -> (0 <= cost_join)%Q ->
  (0 <= cost_synth_linear)%Q -> (0 <= cost_synth_quad)%Q ->
  Forall index_coherent indexes ->
  let N := length chrom_seq in
  let t := dp_fill chrom_seq W indexes cost_pcr cost_join cost_synth_linear
             cost_synth_quad (length indexes =? 1)%nat in
  let pcost := partition_cost chrom_seq indexes cost_pcr cost_join
                 cost_synth_linear cost_synth_quad in
  forall i, (1 <= i <= N)%nat ->
    DP (init_tables N) !!! i = 1e18%Q /\
    (DP t !!! i <= 1e18)%Q /\
    (forall ws, is_partition W i ws -> (DP t !!! i <= pcost 0%nat ws)%Q) /\
    ((DP t !!! i < 1e18)%Q ->
     (exists ws, is_partition W i ws /\ (pcost 0%nat ws == DP t !!! i)%Q) /\
     (exists w, candidate W i w /\ pred t !!! i = Z.of_nat (i - w))) /\
    (~ (DP t !!! i < 1e18)%Q ->
     DP t !!! i = 1e18%Q /\ pred t !!! i = (-1)%Z).
Proof.
  intros Hpcr Hjoin Hlin Hquad Hcoh N t pcost i Hi.
  pose proof (dp_fill_inv chrom_seq W indexes cost_pcr cost_join cost_synth_linear
                cost_synth_quad Hcoh) as Hinv.
  fold N t in Hinv.
  pose proof Hinv as (_ & _ & _ & _ & _ & Hcells & _).
  destruct (Hcells i Hi) as (Hcap & Hle & Hcase).
  split.
  { unfold init_tables. cbn [DP].
    rewrite list_lookup_total_insert_ne by lia.
    apply lookup_total_replicate_2. lia. }
  split; [exact Hcap|]. split.
  { intros ws Hws. apply (dp_lower_bound chrom_seq W indexes); [exact Hinv | lia | exact Hws]. }
  split.
  - intros Hlt. split.
    + apply (dp_achieved chrom_seq W indexes cost_pcr cost_join cost_synth_linear
               cost_synth_quad t i Hpcr Hjoin Hlin Hquad Hinv); [lia | exact Hlt].
    + destruct Hcase as [(Hun & _) | (w & Hc & _ & _ & _ & Ep & _)].
      * rewrite Hun in Hlt. exfalso. lra.
      * exists w. split; [exact Hc | exact Ep].
  - intros Hnlt.
    destruct Hcase as [(Hun & Hp & _) | (w & Hc & E1 & E2 & _)]; [done|].
    exfalso. apply Hnlt. by rewrite E1.
Qed.

Lemma dp_entry_below_sentinel_is_a_partition_cost_witness :
  let t := dp_fill (s2l "ACGTTACGGA") 3 [build_index (s2l "TTACG")]
             5 (3 # 2) (2 # 10) (1 # 10000) true in
  exists ws,
    is_partition 3 10 ws /\
    (partition_cost (s2l "ACGTTACGGA") [build_index (s2l "TTACG")]
       5 (3 # 2) (2 # 10) (1 # 10000) 0 ws == DP t !!! 10%nat)%Q.
Proof.
  cbv zeta.
  destruct (dp_entry_below_sentinel_is_a_partition_cost (s2l "ACGTTACGGA") 3
              [build_index (s2l "TTACG")] 5 (3 # 2) (2 # 10) (1 # 10000))
    with (i := 10%nat) as (_ & _ & _ & Hbelow & _).
  - unfold Qle; simpl; lia.
  - unfold Qle; simpl; lia.
  - unfold Qle; simpl; lia.
  - unfold Qle; simpl; lia.
  - constructor; [|constructor]. apply build_index_coherent. simpl. lia.
  - simpl. lia.
  - apply Hbelow. vm_compute. reflexivity.
Defined.

(** ** C10: the counters agree *)

(** C10 fails above the sentinel.  For the target "A", the source "T",
    [W = 1] and [cost_pcr = cost_synth_linear = 2e18], the DP
    planner reports no block and no base for a target of length [1]. *)
Lemma dp_counters_miss_bases_above_sentinel :
  exists stats,
    solve_dp_for_chromosome (s2l "A") 1 [build_index (s2l "T")] 2e18 0 2e18 0
    = Some stats /\
    (reuse_bases stats + synth_bases stats)%Z = 0%Z /\
    ~ stats_consistent 1 stats.
Proof.
  eexists. split; [vm_compute; reflexivity|].
  split; [reflexivity|].
  intros (_ & _ & H). simpl in H. discriminate.
Qed.

(** C10 with exact sums.  For a target of length [N < 2^64]:
    - the result of the greedy planner has [segments = reuse_moves +
      synth_moves], [joins = segments - 1] when [segments > 0] and [0]
      otherwise, and [reuse_bases + synth_bases = N];
    - the result of the DP planner has [segments = reuse_moves +
      synth_moves] and [joins = segments - 1] when [segments > 0] and [0]
      otherwise; it has [reuse_bases + synth_bases = N] when [W <= 65535],
      the cost parameters are non-negative, the indexes meet the contract
      of the oracle and the reported cost is below the sentinel [1e18]. *)
Theorem counters_are_consistent
    (chrom_seq : list ascii) (W : Z) (indexes : list fm_index)
    (cost_pcr cost_join cost_synth_linear cost_synth_quad : Q) :
  let N := length chrom_seq in
  (Z.of_nat N < 18446744073709551616)%Z ->
  (exists greedy : GreedyStats,
     solve_greedy_for_chromosome_stats chrom_seq W indexes cost_pcr cost_join
       cost_synth_linear cost_synth_quad = Some greedy /\
     stats_consistent N greedy) /\
  (exists dp : PlannerStats,
     solve_dp_for_chromosome chrom_seq W indexes cost_pcr cost_join
       cost_synth_linear cost_synth_quad = Some dp /\
     segments dp = (reuse_moves dp + synth_moves dp)%Z /\
     joins dp = (if (0 <? segments dp)%Z then segments dp - 1 else 0)%Z /\
     ((W <= 65535)%Z ->
      (0 <= cost_pcr)%Q -> (0 <= cost_join)%Q ->
      (0 <= cost_synth_linear)%Q -> (0 <= cost_synth_quad)%Q ->
      Forall index_coherent indexes ->
      (cost dp < 1e18)%Q ->
      stats_consistent N dp)).
Proof.
  intros N HN.
  assert (Hgen : forall (c : Q) (bs : list block), (length bs <= N)%nat ->
            let st := make_stats c N (counts_of bs) in
            segments st = (reuse_moves st + synth_moves st)%Z /\
            joins st = (if (0 <? segments st)%Z then segments st - 1 else 0)%Z).
  { intros c bs Hlen st.
    destruct (make_stats_counts c N bs HN Hlen) as (Hseg & Hr & Hs & Hj & _).
    fold st in Hseg, Hr, Hs, Hj.
    destruct (moves_of_total bs) as (E & _ & _).
    rewrite Hseg, Hr, Hs, Hj. split; [lia|].
    destruct (0 <? Z.of_nat (length bs))%Z eqn:E0.
    - apply Z.ltb_lt in E0. lia.
    - apply Z.ltb_ge in E0. lia. }
  assert (Hbases : forall (c : Q) (bs : list block),
            chain 0 bs N ->
            Forall (fun x => (b_start x <= b_end x)%nat /\
                             b_len x = Z.of_nat (block_length x)) bs ->
            (reuse_bases (make_stats c N (counts_of bs))
             + synth_bases (make_stats c N (counts_of bs)))%Z = Z.of_nat N).
  { intros c bs Hchain Hall.
    destruct (bases_of_total 0 N bs Hchain Hall) as (E & P1 & P2 & _).
    cbn [make_stats counts_of reuse_bases synth_bases c_reuse_bases c_synth_bases].
    rewrite !wrap64_small by lia. lia. }
  split.
  - destruct (greedy_run chrom_seq W indexes cost_pcr cost_join cost_synth_linear
                cost_synth_quad) as (c & Hg & Hchain & Hall & _).
    fold N in Hg, Hchain, Hall.
    assert (Hlen : (length (greedy_blocks chrom_seq W indexes N 0) <= N)%nat).
    { change (0 + length (greedy_blocks chrom_seq W indexes N 0) <= N)%nat.
      apply chain_length; [exact Hchain|].
      eapply Forall_impl; [exact Hall|]. by intros b (H & _). }
    eexists. split; [exact Hg|].
    destruct (Hgen c _ Hlen) as [H1 H2].
    split; [exact H1|]. split; [exact H2|].
    apply Hbases; [exact Hchain|].
    eapply Forall_impl; [exact Hall|]. intros b (H & Hl & _). split; [lia | exact Hl].
  - destruct (dp_run chrom_seq W indexes cost_pcr cost_join cost_synth_linear
                cost_synth_quad (length indexes =? 1)%nat) as (bs & Hlen & Hrun & Hdp).
    fold N in Hlen, Hrun, Hdp.
    eexists. split; [exact Hdp|].
    destruct (Hgen (DP (dp_fill chrom_seq W indexes cost_pcr cost_join cost_synth_linear
                          cost_synth_quad (length indexes =? 1)%nat) !!! N) bs Hlen)
      as [H1 H2].
    split; [exact H1|]. split; [exact H2|].
    intros HW Hpcr Hjoin Hlin Hquad Hcoh Hlt.
    split; [exact H1|]. split; [exact H2|].
    destruct (dp_result chrom_seq W indexes cost_pcr cost_join cost_synth_linear
                cost_synth_quad Hcoh)
      as (stats & bs' & Hsolve & Hblocks & Hstats & _ & _ & _ & Hback).
    assert (Hbs : bs' = bs).
    { rewrite (dp_blocks_run chrom_seq W indexes cost_pcr cost_join cost_synth_linear
                 cost_synth_quad bs Hrun) in Hblocks. by injection Hblocks. }
    subst bs'.
    destruct (Hback HW Hpcr Hjoin Hlin Hquad) as (Hchain & Hok & _).
    { by rewrite Hstats. }
    apply Hbases; [exact Hchain|].
    eapply Forall_impl; [exact Hok|].
    intros b ((Hb1 & Hb2 & _) & Hl & _). unfold block_length in *. split; [lia | exact Hl].
Qed.

Lemma counters_are_consistent_witness :
  (exists greedy : GreedyStats,
     solve_greedy_for_chromosome_stats (s2l "ACGTTACGGA") 3 [build_index (s2l "TTACG")]
       5 (3 # 2) (2 # 10) (1 # 10000) = Some greedy /\
     stats_consistent 10 greedy) /\
  (exists dp : PlannerStats,
     solve_dp_for_chromosome (s2l "ACGTTACGGA") 3 [build_index (s2l "TTACG")]
       5 (3 # 2) (2 # 10) (1 # 10000) = Some dp /\
     stats_consistent 10 dp).
Proof.
  destruct (counters_are_consistent (s2l "ACGTTACGGA") 3 [build_index (s2l "TTACG")]
              5 (3 # 2) (2 # 10) (1 # 10000)) as [Hg (dp & Hdp & _ & _ & Hall)].
  - simpl. lia.
  - split; [exact Hg|].
    exists dp. split; [exact Hdp|].
    apply Hall.
    + lia.
    + unfold Qle; simpl; lia.
    + unfold Qle; simpl; lia.
    + unfold Qle; simpl; lia.
    + unfold Qle; simpl; lia.
    + constructor; [|constructor]. apply build_index_coherent. simpl. lia.
    + vm_compute in Hdp. injection Hdp as <-. vm_compute. reflexivity.
Defined.

(** * Further properties of the programs *)

(** ** The sequence loader *)

Lemma toupper_idem (c : ascii) : toupper (toupper c) = toupper c.
Proof. destruct c as [[] [] [] [] [] [] [] []]; reflexivity. Qed.

Lemma is_base_spec (c : ascii) :
  is_base c = true <-> (c = "A"%char \/ c = "C"%char \/ c = "G"%char \/ c = "T"%char).
Proof.
  unfold is_base. rewrite !orb_true_iff, !Ascii.eqb_eq. tauto.
Qed.

Lemma is_base_toupper (c : ascii) : is_base c = true -> toupper c = c.
Proof.
  rewrite is_base_spec. intros [-> | [-> | [-> | ->]]]; reflexivity.
Qed.

Lemma append_bases_spec (line cur : list ascii) :
  append_bases line cur = cur ++ bases_of_text line.
Proof.
  unfold append_bases, bases_of_text. revert cur.
  induction line as [|c line IH]; intros cur; simpl.
  - by rewrite app_nil_r.
  - rewrite IH. destruct (is_base (toupper c)); [|reflexivity].
    by rewrite <- app_assoc.
Qed.

Lemma bases_of_text_app (x y : list ascii) :
  bases_of_text (x ++ y) = bases_of_text x ++ bases_of_text y.
Proof. unfold bases_of_text. by rewrite map_app, List.filter_app. Qed.

Lemma bases_of_text_is_bases (s : list ascii) : is_bases (bases_of_text s).
Proof.
  unfold is_bases, bases_of_text. apply List.Forall_forall.
  intros c Hc. apply List.filter_In in Hc as [_ Hc]. by apply is_base_spec.
Qed.

Lemma bases_of_text_id (s : list ascii) : is_bases s -> bases_of_text s = s.
Proof.
  unfold is_bases, bases_of_text. induction 1 as [|c s Hc Hs IH]; [reflexivity|].
  simpl. apply is_base_spec in Hc. rewrite (is_base_toupper c Hc), Hc. by rewrite IH.
Qed.

Lemma bases_of_text_idem (s : list ascii) :
  bases_of_text (bases_of_text s) = bases_of_text s.
Proof. apply bases_of_text_id, bases_of_text_is_bases. Qed.

Lemma bases_of_text_toupper (s : list ascii) :
  bases_of_text (map toupper s) = bases_of_text s.
Proof.
  unfold bases_of_text. rewrite map_map. f_equal.
  apply map_ext. intros c. apply toupper_idem.
Qed.

(** *** Keys *)

Lemma lex_leb_antisym (x y : list ascii) :
  lex_leb x y = true -> lex_leb y x = true -> x = y.
Proof.
  revert y. induction x as [|a x IH]; intros [|b y] H1 H2; simpl in *; try done.
  destruct (ascii_ltb a b) eqn:Eab.
  - by rewrite (ascii_ltb_asym a b Eab) in H2.
  - destruct (ascii_ltb b a) eqn:Eba; [done|].
    rewrite (ascii_ltb_eq a b Eab Eba). f_equal. by apply IH.
Qed.

Lemma lex_ltb_irrefl (x : list ascii) : lex_ltb x x = false.
Proof. unfold lex_ltb. by rewrite lex_leb_refl. Qed.

Lemma lex_ltb_trans (x y z : list ascii) :
  lex_ltb x y = true -> lex_ltb y z = true -> lex_ltb x z = true.
Proof.
  unfold lex_ltb. rewrite !negb_true_iff. intros H1 H2.
  destruct (lex_leb z x) eqn:E; [|reflexivity].
  rewrite (lex_leb_trans y z x (lex_leb_total _ _ H2) E) in H1. discriminate.
Qed.

Lemma lex_ltb_eq (x y : list ascii) :
  lex_ltb x y = false -> lex_ltb y x = false -> x = y.
Proof.
  unfold lex_ltb. rewrite !negb_false_iff. intros H1 H2. by apply lex_leb_antisym.
Qed.

Lemma lex_ltb_neq (x y : list ascii) : lex_ltb x y = true -> x <> y.
Proof. intros H ->. by rewrite lex_ltb_irrefl in H. Qed.

(** *** Assignment in the map *)

Lemma map_assign_In (h v : list ascii) (m : fasta_map) :
  keys_ascending m ->
  forall k x, In (k, x) (map_assign h v m) <->
              (k = h /\ x = v) \/ (k <> h /\ In (k, x) m).
Proof.
  induction 1 as [|[k' v'] m Hs IH Hall]; intros k x.
  - simpl. split.
    + intros [E|[]]. injection E as <- <-. by left.
    + intros [[-> ->]|[_ []]]. by left.
  - assert (Hlater : forall k0 x0, In (k0, x0) m -> lex_ltb k' k0 = true).
    { intros k0 x0 Hin. apply (proj1 (List.Forall_forall _ _) Hall (k0, x0) Hin). }
    cbn [map_assign].
    destruct (lex_ltb h k') eqn:E1; [|destruct (lex_ltb k' h) eqn:E2].
    + split.
      * intros [E|[E|Hin]].
        -- injection E as <- <-. by left.
        -- injection E as <- <-. right. split; [by apply not_eq_sym, lex_ltb_neq | by left].
        -- right. split; [|by right].
           apply not_eq_sym, lex_ltb_neq. eapply lex_ltb_trans; [exact E1|].
           by eapply Hlater.
      * intros [[-> ->]|[_ Hin]]; [by left | by right].
    + split.
      * intros [E|Hin].
        -- injection E as <- <-. right. split; [by apply lex_ltb_neq | by left].
        -- apply IH in Hin as [Heq|[Hne Hin]]; [by left|]. right. split; [exact Hne | by right].
      * intros [[-> ->]|[Hne [E|Hin]]].
        -- right. apply IH. by left.
        -- by left.
        -- right. apply IH. by right.
    + pose proof (lex_ltb_eq h k' E1 E2) as ->.
      split.
      * intros [E|Hin].
        -- injection E as <- <-. by left.
        -- right. split; [|by right]. apply not_eq_sym, lex_ltb_neq. by eapply Hlater.
      * intros [[-> ->]|[Hne [E|Hin]]].
        -- by left.
        -- injection E as E _. by destruct Hne.
        -- by right.
Qed.

Lemma map_assign_ascending (h v : list ascii) (m : fasta_map) :
  keys_ascending m -> keys_ascending (map_assign h v m).
Proof.
  induction 1 as [|[k' v'] m Hs IH Hall]; cbn [map_assign].
  - constructor; constructor.
  - destruct (lex_ltb h k') eqn:E1; [|destruct (lex_ltb k' h) eqn:E2].
    + constructor; [by constructor|].
      constructor; [exact E1|].
      apply List.Forall_forall. intros [k0 x0] Hin. cbn [fst].
      eapply lex_ltb_trans; [exact E1|].
      apply (proj1 (List.Forall_forall _ _) Hall (k0, x0) Hin).
    + constructor; [exact IH|].
      apply List.Forall_forall. intros [k0 x0] Hin. cbn [fst].
      apply (map_assign_In h v m Hs) in Hin as [[-> _]|[_ Hin]]; [exact E2|].
      apply (proj1 (List.Forall_forall _ _) Hall (k0, x0) Hin).
    + by constructor.
Qed.

(** A key above every key of the map is added at the end. *)
Lemma map_assign_last (h v : list ascii) (m : fasta_map) :
  Forall (fun r => lex_ltb (fst r) h = true) m ->
  map_assign h v m = m ++ [(h, v)].
Proof.
  induction 1 as [|[k' v'] m Hk Hall IH]; [reflexivity|].
  cbn [map_assign fst] in *.
  assert (E : lex_ltb h k' = false).
  { unfold lex_ltb in *. apply negb_true_iff in Hk. apply negb_false_iff.
    by apply lex_leb_total. }
  by rewrite E, Hk, IH.
Qed.

(** *** Lines *)

Lemma getlines_line (line text : list ascii) :
  ~ In "010"%char line ->
  getlines (line ++ "010"%char :: text) = line :: getlines text.
Proof.
  induction line as [|c line IH]; intros Hnl; [reflexivity|].
  cbn [app getlines].
  destruct (Ascii.eqb c "010") eqn:E.
  - apply Ascii.eqb_eq in E. subst c. exfalso. apply Hnl. by left.
  - rewrite IH; [reflexivity|]. intros Hin. apply Hnl. by right.
Qed.

Lemma getlines_no_line_feed (text : list ascii) :
  Forall (fun line => ~ In "010"%char line) (getlines text).
Proof.
  induction text as [|c text IH]; [constructor|].
  cbn [getlines]. destruct (Ascii.eqb c "010") eqn:E.
  - constructor; [by intros []|exact IH].
  - apply Ascii.eqb_neq in E.
    destruct (getlines text) as [|line lines].
    + constructor; [|constructor]. intros [->|[]]. by destruct E.
    + apply Forall_cons_1 in IH as [Hl Hls].
      constructor; [|exact Hls]. intros [->|Hin]; [by destruct E | by apply Hl].
Qed.

(** *** The loop *)

Lemma read_lines_app (lines lines' : list (list ascii)) :
  read_lines (lines ++ lines')
  = store_record (fold_left fasta_line lines' (fold_left fasta_line lines fasta_start)).
Proof. unfold read_lines. by rewrite fold_left_app. Qed.

(** Sequence lines add their bases to the current sequence, and nothing else. *)
Lemma fold_sequence_lines (seqs : list (list ascii)) (st : fasta_state) :
  Forall sequence_line seqs ->
  fold_left fasta_line seqs st
  = {| fs_sequences := fs_sequences st;
       fs_header := fs_header st;
       fs_current_sequence := fs_current_sequence st ++ bases_of_text (concat seqs) |}.
Proof.
  intros Hall. revert st. induction Hall as [|line seqs Hl Hall IH]; intros st.
  - simpl. rewrite app_nil_r. by destruct st.
  - cbn [fold_left concat]. rewrite IH, bases_of_text_app.
    destruct line as [|c rest].
    + simpl. reflexivity.
    + cbn [fasta_line]. simpl in Hl.
      apply Ascii.eqb_neq in Hl. rewrite Hl.
      cbn [fs_sequences fs_header fs_current_sequence].
      by rewrite append_bases_spec, <- app_assoc.
Qed.

Lemma map_assign_ok (h v : list ascii) (m : fasta_map) :
  h <> [] -> is_bases v -> fasta_map_ok m -> fasta_map_ok (map_assign h v m).
Proof.
  intros Hh Hv [Hs Hall]. split; [by apply map_assign_ascending|].
  apply List.Forall_forall. intros [k x] Hin.
  apply (map_assign_In h v m Hs) in Hin as [[-> ->]|[_ Hin]]; [done|].
  apply (proj1 (List.Forall_forall _ _) Hall (k, x) Hin).
Qed.

Lemma store_record_ok (st : fasta_state) :
  fasta_map_ok (fs_sequences st) -> is_bases (fs_current_sequence st) ->
  fasta_map_ok (store_record st).
Proof.
  intros Hm Hc. unfold store_record.
  destruct (fs_header st) as [|c h] eqn:E; [exact Hm|].
  by apply map_assign_ok.
Qed.

Lemma fasta_line_ok (st : fasta_state) (line : list ascii) :
  fasta_map_ok (fs_sequences st) -> is_bases (fs_current_sequence st) ->
  fasta_map_ok (fs_sequences (fasta_line st line)) /\
  is_bases (fs_current_sequence (fasta_line st line)).
Proof.
  intros Hm Hc. destruct line as [|c rest]; [done|].
  cbn [fasta_line]. destruct (Ascii.eqb c ">").
  - cbn [fs_sequences fs_current_sequence]. split; [by apply store_record_ok | constructor].
  - cbn [fs_sequences fs_current_sequence]. split; [exact Hm|].
    rewrite append_bases_spec. apply Forall_app. split; [exact Hc|].
    apply bases_of_text_is_bases.
Qed.

Lemma fold_fasta_line_ok (lines : list (list ascii)) (st : fasta_state) :
  fasta_map_ok (fs_sequences st) -> is_bases (fs_current_sequence st) ->
  fasta_map_ok (fs_sequences (fold_left fasta_line lines st)) /\
  is_bases (fs_current_sequence (fold_left fasta_line lines st)).
Proof.
  revert st. induction lines as [|line lines IH]; intros st Hm Hc; [done|].
  cbn [fold_left]. destruct (fasta_line_ok st line Hm Hc) as [Hm' Hc'].
  by apply IH.
Qed.

Lemma read_lines_ok (lines : list (list ascii)) : fasta_map_ok (read_lines lines).
Proof.
  unfold read_lines.
  destruct (fold_fasta_line_ok lines fasta_start) as [Hm Hc].
  - split; constructor.
  - constructor.
  - by apply store_record_ok.
Qed.

(** Every key of the map is the rest of a header line. *)
Lemma store_record_keys (P : list ascii -> Prop) (st : fasta_state) :
  Forall (fun r => P (fst r)) (fs_sequences st) ->
  keys_ascending (fs_sequences st) ->
  (fs_header st <> [] -> P (fs_header st)) ->
  Forall (fun r => P (fst r)) (store_record st).
Proof.
  intros Hall Hs Hh. unfold store_record.
  destruct (fs_header st) as [|c h] eqn:E; [exact Hall|].
  apply List.Forall_forall. intros [k x] Hin.
  apply (map_assign_In _ _ _ Hs) in Hin as [[-> _]|[_ Hin]]; [by apply Hh|].
  apply (proj1 (List.Forall_forall _ _) Hall (k, x) Hin).
Qed.

Lemma fold_fasta_line_keys (P : list ascii -> Prop) (lines : list (list ascii))
    (st : fasta_state) :
  Forall (fun line => forall rest, line = ">"%char :: rest -> rest <> [] -> P rest) lines ->
  fasta_map_ok (fs_sequences st) -> is_bases (fs_current_sequence st) ->
  Forall (fun r => P (fst r)) (fs_sequences st) ->
  (fs_header st <> [] -> P (fs_header st)) ->
  Forall (fun r => P (fst r)) (fs_sequences (fold_left fasta_line lines st)) /\
  (fs_header (fold_left fasta_line lines st) <> [] ->
   P (fs_header (fold_left fasta_line lines st))).
Proof.
  intros Hlines. revert st.
  induction Hlines as [|line lines Hl Hlines IH]; intros st Hm Hc Hall Hh; [done|].
  cbn [fold_left].
  destruct (fasta_line_ok st line Hm Hc) as [Hm' Hc'].
  apply IH; [exact Hm' | exact Hc' | |].
  - destruct line as [|c rest]; [exact Hall|]. cbn [fasta_line].
    destruct (Ascii.eqb c ">"); cbn [fs_sequences]; [|exact Hall].
    apply store_record_keys; [exact Hall | by destruct Hm | exact Hh].
  - destruct line as [|c rest]; [exact Hh|]. cbn [fasta_line].
    destruct (Ascii.eqb c ">") eqn:E; cbn [fs_header]; [|exact Hh].
    apply Ascii.eqb_eq in E. subst c. intros Hne. by apply (Hl rest).
Qed.

Lemma read_lines_keys (P : list ascii -> Prop) (lines : list (list ascii)) :
  Forall (fun line => forall rest, line = ">"%char :: rest -> rest <> [] -> P rest) lines ->
  Forall (fun r => P (fst r)) (read_lines lines).
Proof.
  intros Hlines. unfold read_lines.
  destruct (fold_fasta_line_ok lines fasta_start) as [Hm Hc];
    [split; constructor | constructor |].
  destruct (fold_fasta_line_keys P lines fasta_start Hlines) as [Hall Hh];
    [split; constructor | constructor | constructor | done |].
  apply store_record_keys; [exact Hall | by destruct Hm | exact Hh].
Qed.

(** Appending a record to the lines. *)
Lemma read_lines_record (lines seqs : list (list ascii)) (h : list ascii) :
  Forall sequence_line seqs ->
  read_lines (lines ++ (">"%char :: h) :: seqs)
  = match h with
    | [] => read_lines lines
    | _ :: _ => map_assign h (bases_of_text (concat seqs)) (read_lines lines)
    end.
Proof.
  intros Hseqs. rewrite read_lines_app. cbn [fold_left fasta_line].
  rewrite Ascii.eqb_refl, fold_sequence_lines by exact Hseqs.
  unfold store_record at 1. cbn [fs_header fs_current_sequence fs_sequences app].
  reflexivity.
Qed.


Lemma sorted_snoc {A : Type} (R : A -> A -> Prop) (l : list A) (x : A) :
  StronglySorted R (l ++ [x]) -> StronglySorted R l /\ Forall (fun a => R a x) l.
Proof.
  induction l as [|a l IH]; intros Hs; [split; constructor|].
  simpl in Hs. apply StronglySorted_inv in Hs as [Hs Hall].
  destruct (IH Hs) as [Hs' Hx].
  apply Forall_app in Hall as [Hall Hax].
  split; [by constructor|]. constructor; [by apply Forall_inv in Hax | exact Hx].
Qed.

Lemma is_bases_no_line_feed (s : list ascii) : is_bases s -> ~ In "010"%char s.
Proof.
  intros Hs Hin. apply (proj1 (List.Forall_forall _ _) Hs) in Hin.
  destruct Hin as [H|[H|[H|H]]]; discriminate.
Qed.

Lemma fasta_text_cons (r : list ascii * list ascii) (records : fasta_map) :
  fasta_text (r :: records)
  = (">"%char :: fst r) ++ "010"%char :: (snd r ++ "010"%char :: fasta_text records).
Proof.
  unfold fasta_text. cbn [map concat].
  rewrite <- !app_assoc. reflexivity.
Qed.

Lemma getlines_fasta_text (records : fasta_map) :
  Forall (fun r => ~ In "010"%char (fst r) /\ is_bases (snd r)) records ->
  getlines (fasta_text records)
  = concat (map (fun r => [">"%char :: fst r; snd r]) records).
Proof.
  induction 1 as [|[h s] records [Hh Hs] Hall IH]; [reflexivity|].
  rewrite fasta_text_cons. cbn [map concat fst snd] in *.
  rewrite (getlines_line (">"%char :: h)).
  2:{ intros [E|Hin]; [discriminate | by apply Hh]. }
  rewrite (getlines_line s) by (by apply is_bases_no_line_feed).
  by rewrite IH.
Qed.

Lemma read_lines_records (records : fasta_map) :
  keys_ascending records ->
  Forall (fun r => fst r <> [] /\ is_bases (snd r)) records ->
  read_lines (concat (map (fun r => [">"%char :: fst r; snd r]) records)) = records.
Proof.
  induction records as [|[h s] records IH] using rev_ind; intros Hs Hall; [reflexivity|].
  apply sorted_snoc in Hs as [Hs Hlast].
  apply Forall_app in Hall as [Hall Hr]. apply Forall_inv in Hr as [Hh Hb].
  cbn [fst snd] in *.
  rewrite map_app, concat_app. cbn [map concat fst snd app].
  rewrite (read_lines_record _ [s] h).
  2:{ constructor; [|constructor]. destruct s as [|c s]; [done|].
      apply Forall_inv in Hb. simpl.
      destruct Hb as [-> | [-> | [-> | ->]]]; discriminate. }
  rewrite IH by done. cbn [concat]. rewrite app_nil_r, bases_of_text_id by exact Hb.
  destruct h as [|c h]; [done|].
  apply map_assign_last. eapply Forall_impl; [exact Hlast|]. by intros [k x].
Qed.

(** Whatever the text of the file, the loader returns a map whose headers
    are in strictly ascending order (so no header comes twice), each the
    non-empty rest of a line of the file that starts with ">", and whose
    sequences hold only the characters A, C, G and T. *)
Theorem read_fasta_and_clean_returns_clean_records (text : list ascii) :
  exists records : fasta_map,
    read_fasta_and_clean (Some text) = Some records /\
    keys_ascending records /\
    Forall (fun r => fst r <> [] /\
                     In (">"%char :: fst r) (getlines text) /\
                     ~ In "010"%char (fst r) /\
                     is_bases (snd r)) records.
Proof.
  exists (read_lines (getlines text)). split; [reflexivity|].
  destruct (read_lines_ok (getlines text)) as [Hs Hall]. split; [exact Hs|].
  pose proof (read_lines_keys (fun rest => In (">"%char :: rest) (getlines text))
                (getlines text)) as Hkeys.
  assert (Hin : Forall (fun r => In (">"%char :: fst r) (getlines text))
                  (read_lines (getlines text))).
  { apply Hkeys. apply List.Forall_forall. by intros line Hl rest -> _. }
  apply List.Forall_forall. intros r Hr.
  destruct (proj1 (List.Forall_forall _ _) Hall r Hr) as [Hne Hb].
  pose proof (proj1 (List.Forall_forall _ _) Hin r Hr) as Hline.
  split; [exact Hne|]. split; [exact Hline|]. split; [|exact Hb].
  intros Hnl.
  apply (proj1 (List.Forall_forall _ _) (getlines_no_line_feed text) _ Hline).
  by right.
Qed.

(** A record appended to the lines of a file (a header line, then lines
    that are not header lines) is added to the map of the lines before it:
    its sequence is the bases of its lines, it replaces the record that had
    the same header, and every other record stays; with an empty header the
    record is dropped. *)
Theorem read_fasta_appended_record
    (lines seqs : list (list ascii)) (h : list ascii) :
  Forall sequence_line seqs ->
  let before := read_lines lines in
  let after := read_lines (lines ++ (">"%char :: h) :: seqs) in
  (h = [] -> after = before) /\
  (h <> [] ->
   forall k x, In (k, x) after <->
               (k = h /\ x = bases_of_text (concat seqs)) \/ (k <> h /\ In (k, x) before)).
Proof.
  intros Hseqs before after. subst before after.
  rewrite (read_lines_record lines seqs h Hseqs).
  split.
  - by intros ->.
  - intros Hh. destruct h as [|c h]; [done|].
    apply map_assign_In. by destruct (read_lines_ok lines).
Qed.

Lemma read_fasta_appended_record_witness :
  In (s2l "chr1", s2l "GGCA")
     (read_lines ([s2l ">chr1"; s2l "ACGT"; s2l ">chr2"; s2l "TT"]
                  ++ (">"%char :: s2l "chr1") :: [s2l "ggNc"; s2l "a"])) /\
  In (s2l "chr2", s2l "TT")
     (read_lines ([s2l ">chr1"; s2l "ACGT"; s2l ">chr2"; s2l "TT"]
                  ++ (">"%char :: s2l "chr1") :: [s2l "ggNc"; s2l "a"])) /\
  ~ In (s2l "chr1", s2l "ACGT")
       (read_lines ([s2l ">chr1"; s2l "ACGT"; s2l ">chr2"; s2l "TT"]
                    ++ (">"%char :: s2l "chr1") :: [s2l "ggNc"; s2l "a"])).
Proof.
  destruct (read_fasta_appended_record
              [s2l ">chr1"; s2l "ACGT"; s2l ">chr2"; s2l "TT"]
              [s2l "ggNc"; s2l "a"] (s2l "chr1")) as [_ H].
  - repeat constructor; discriminate.
  - specialize (H ltac:(discriminate)). split; [|split].
    + apply H. left. split; reflexivity.
    + apply H. right. split; [discriminate|]. vm_compute. right. left. reflexivity.
    + intros Hin. apply H in Hin as [[_ E]|[Hne _]]; [discriminate | by destruct Hne].
Defined.

Lemma fold_headerless (post : list (list ascii)) (st st' : fasta_state) :
  fs_sequences st = fs_sequences st' -> fs_header st = [] -> fs_header st' = [] ->
  store_record (fold_left fasta_line post st)
  = store_record (fold_left fasta_line post st').
Proof.
  revert st st'. induction post as [|line post IH]; intros st st' Hs Hh Hh'.
  - cbn [fold_left]. unfold store_record. by rewrite Hh, Hh'.
  - cbn [fold_left]. destruct line as [|c rest]; [by apply IH|].
    cbn [fasta_line]. destruct (Ascii.eqb c ">").
    + assert (E : store_record st = store_record st')
        by (unfold store_record; by rewrite Hh, Hh').
      by rewrite E.
    + by apply IH.
Qed.

(** Only the bases of the sequence lines count: lines that are not header
    lines can be replaced by other such lines with the same bases (wrapped
    differently, in the other case, with blank lines or other characters
    between the bases) without changing the map; and the lines before the
    first header line are dropped. *)
Theorem read_fasta_reads_only_the_bases
    (pre post xs ys : list (list ascii)) :
  Forall sequence_line xs -> Forall sequence_line ys ->
  (bases_of_text (concat xs) = bases_of_text (concat ys) ->
   read_lines (pre ++ xs ++ post) = read_lines (pre ++ ys ++ post)) /\
  read_lines (xs ++ post) = read_lines post.
Proof.
  intros Hxs Hys. split.
  - intros Hb. rewrite !read_lines_app, !fold_left_app.
    rewrite (fold_sequence_lines xs) by exact Hxs.
    rewrite (fold_sequence_lines ys) by exact Hys.
    by rewrite Hb.
  - rewrite read_lines_app, (fold_sequence_lines xs) by exact Hxs.
    unfold read_lines. by apply fold_headerless.
Qed.

Lemma read_fasta_reads_only_the_bases_witness :
  read_lines ([s2l ">chr1"] ++ [s2l "acgtNN"; []; s2l "ac-gt"] ++ [s2l ">chr2"; s2l "T"])
  = read_lines ([s2l ">chr1"] ++ [s2l "ACG"; s2l "TACGT"] ++ [s2l ">chr2"; s2l "T"]) /\
  read_lines ([s2l "acgtNN"; []; s2l "ac-gt"] ++ [s2l ">chr2"; s2l "T"])
  = read_lines [s2l ">chr2"; s2l "T"].
Proof.
  destruct (read_fasta_reads_only_the_bases
              [s2l ">chr1"] [s2l ">chr2"; s2l "T"]
              [s2l "acgtNN"; []; s2l "ac-gt"] [s2l "ACG"; s2l "TACGT"]) as [H1 H2].
  - repeat constructor; discriminate.
  - repeat constructor; discriminate.
  - split; [apply H1; reflexivity | exact H2].
Defined.

(** A file that holds records in ascending order of their headers, each as
    the line ">header" followed by one line of bases, is read back as
    these records: the headers must be non-empty and hold no line feed. *)
Theorem read_fasta_round_trip (records : fasta_map) :
  keys_ascending records ->
  Forall (fun r => fst r <> [] /\ ~ In "010"%char (fst r) /\ is_bases (snd r)) records ->
  read_fasta_and_clean (Some (fasta_text records)) = Some records.
Proof.
  intros Hs Hall. unfold read_fasta_and_clean. f_equal.
  rewrite getlines_fasta_text.
  - apply read_lines_records; [exact Hs|].
    eapply Forall_impl; [exact Hall|]. by intros r (H1 & _ & H3).
  - eapply Forall_impl; [exact Hall|]. by intros r (_ & H2 & H3).
Qed.

Lemma read_fasta_round_trip_witness :
  read_fasta_and_clean
    (Some (fasta_text [(s2l "chr1", s2l "ACGT"); (s2l "chr10 x", []); (s2l "chr2", s2l "GG")]))
  = Some [(s2l "chr1", s2l "ACGT"); (s2l "chr10 x", []); (s2l "chr2", s2l "GG")].
Proof.
  apply (read_fasta_round_trip
           [(s2l "chr1", s2l "ACGT"); (s2l "chr10 x", []); (s2l "chr2", s2l "GG")]).
  - repeat constructor.
  - repeat constructor; try discriminate; simpl; intuition discriminate.
Defined.

(** ** The runs *)

Lemma wrap64_idem (z : Z) : wrap64 (wrap64 z) = wrap64 z.
Proof. unfold wrap64. apply Zmod_mod. Qed.

Lemma wrap64_add (a b : Z) : wrap64 (wrap64 a + wrap64 b) = wrap64 (a + b).
Proof. unfold wrap64. symmetry. apply Zplus_mod. Qed.

Lemma wrap64_add_r (a b : Z) : wrap64 (a + wrap64 b) = wrap64 (a + b).
Proof. unfold wrap64. apply Zplus_mod_idemp_r. Qed.

Lemma run_records_spec (solve : list ascii -> option PlannerStats)
    (records : fasta_map) (out : list row) (total : PlannerStats) :
  (forall s, exists st, solve s = Some st) ->
  exists sts : list PlannerStats,
    Forall2 (fun r st => solve (snd r) = Some st) (nonempty_records records) sts /\
    run_records solve records out total
    = Some (out ++ zip_with row_of (nonempty_records records) sts,
            totals_of total (nonempty_records records) sts).
Proof.
  intros Htotal. revert out total.
  induction records as [|[h s] records IH]; intros out total.
  - exists []. split; [constructor|]. simpl. by rewrite app_nil_r.
  - cbn [run_records]. unfold nonempty_records. cbn [List.filter snd].
    destruct (length s =? 0)%nat eqn:E; cbn [negb].
    + apply IH.
    + destruct (Htotal s) as [st Hst]. rewrite Hst.
      destruct (IH (out ++ [{| r_header := clean_header h; r_length := length s;
                               r_cost := cost st |}])
                   (accumulate total st (length s))) as (sts & Hall & Hrun).
      exists (st :: sts). split; [by constructor|].
      rewrite Hrun. cbn [zip_with]. rewrite <- app_assoc. reflexivity.
Qed.

Lemma totals_of_cost (total : PlannerStats) (rs : fasta_map) (sts : list PlannerStats) :
  length rs = length sts ->
  cost (totals_of total rs sts)
  = fold_left (fun a r => (a + r_cost r)%Q) (zip_with row_of rs sts) (cost total).
Proof.
  unfold totals_of. revert total sts.
  induction rs as [|r rs IH]; intros total [|st sts] Hlen; try done.
  cbn [zip zip_with fold_left]. simpl in Hlen. rewrite IH by lia. reflexivity.
Qed.

Lemma totals_of_field (field : PlannerStats -> Z)
    (total : PlannerStats) (rs : fasta_map) (sts : list PlannerStats) :
  (forall t st n, field (accumulate t st n) = wrap64 (field t + field st)) ->
  length rs = length sts ->
  wrap64 (field total) = field total ->
  field (totals_of total rs sts) = wrap64 (field total + sum_of field sts).
Proof.
  intros Hf. unfold totals_of, sum_of. revert total sts.
  induction rs as [|r rs IH]; intros total [|st sts] Hlen Hw; try done.
  - cbn [zip zip_with fold_left map fold_right]. by rewrite Z.add_0_r.
  - cbn [zip zip_with fold_left]. simpl in Hlen.
    rewrite IH by (rewrite ?Hf, ?wrap64_idem; lia || done).
    cbn [map fold_right fst snd]. rewrite Hf, wrap64_add_l. f_equal. lia.
Qed.

Lemma totals_of_length (total : PlannerStats) (rs : fasta_map) (sts : list PlannerStats) :
  length rs = length sts ->
  wrap64 (length_ total) = length_ total ->
  length_ (totals_of total rs sts)
  = wrap64 (length_ total + Z.of_nat (list_sum (map (fun r => length (snd r)) rs))).
Proof.
  unfold totals_of. revert total sts.
  induction rs as [|r rs IH]; intros total [|st sts] Hlen Hw; try done.
  - cbn [zip zip_with fold_left map list_sum]. by rewrite Z.add_0_r.
  - cbn [zip zip_with fold_left]. simpl in Hlen.
    rewrite IH; [|lia|cbn [accumulate length_]; by rewrite wrap64_idem].
    cbn [map list_sum fst snd accumulate length_].
    rewrite wrap64_add_r, wrap64_add_l. f_equal.
    unfold list_sum. cbn [fold_right]. lia.
Qed.

(** *** The greedy planner on one record *)

Section GreedyRecord.

Variable chrom_seq : list ascii.
Variable W : Z.
Variable indexes : list fm_index.
Variables cost_pcr cost_join cost_synth_linear cost_synth_quad : Q.

(** A synthesis block of the greedy sweep holds one base. *)
Lemma greedy_blocks_synth (fuel i : nat) :
  Forall (fun b => b_reuse b = false -> b_len b = 1%Z)
         (greedy_blocks chrom_seq W indexes fuel i).
Proof.
  revert i. induction fuel as [|fuel IH]; intros i; cbn [greedy_blocks]; [constructor|].
  destruct (i <? length chrom_seq)%nat; [|constructor].
  pose proof (greedy_choice_spec chrom_seq W indexes i) as Hch.
  destruct (greedy_choice chrom_seq W indexes i) as [w r].
  constructor; [|apply IH]. cbn [b_reuse b_len]. intros ->.
  destruct Hch as [_ Hf]. by destruct (Hf eq_refl) as [-> _].
Qed.

Lemma synth_bases_are_moves (bs : list block) :
  Forall (fun b => b_reuse b = false -> b_len b = 1%Z) bs ->
  bases_of false bs = moves_of false bs.
Proof.
  induction 1 as [|b bs Hb Hall IH].
  - reflexivity.
  - rewrite bases_of_cons, moves_of_cons, IH.
    destruct (b_reuse b) eqn:E; cbn [Bool.eqb]; [reflexivity|].
    by rewrite Hb.
Qed.

(** The counters of the greedy planner for a target of length below 2^64. *)
Lemma greedy_stats_exact :
  let N := length chrom_seq in
  (Z.of_nat N < 18446744073709551616)%Z ->
  exists st : GreedyStats,
    solve_greedy_for_chromosome_stats chrom_seq W indexes cost_pcr cost_join
      cost_synth_linear cost_synth_quad = Some st /\
    length_ st = Z.of_nat N /\
    segments st = (reuse_moves st + synth_moves st)%Z /\
    (reuse_bases st + synth_bases st)%Z = Z.of_nat N /\
    synth_bases st = synth_moves st /\
    (0 <= reuse_moves st)%Z /\ (0 <= synth_moves st)%Z /\
    (0 <= reuse_bases st)%Z /\
    (segments st <= Z.of_nat N)%Z /\
    ((0 < N)%nat -> (1 <= segments st)%Z /\ joins st = (segments st - 1)%Z).
Proof.
  intros N HN.
  destruct (greedy_run chrom_seq W indexes cost_pcr cost_join cost_synth_linear
              cost_synth_quad) as (c & Hg & Hchain & Hall & _).
  fold N in Hg, Hchain, Hall.
  set (bs := greedy_blocks chrom_seq W indexes N 0) in *.
  assert (Hlen : (length bs <= N)%nat).
  { change (0 + length bs <= N)%nat. apply (chain_length 0 N bs Hchain).
    eapply Forall_impl; [exact Hall|]. by intros b (H & _). }
  destruct (make_stats_counts c N bs HN Hlen) as (Hseg & Hr & Hs & Hj & Hl).
  destruct (moves_of_total bs) as (Em & Pm1 & Pm2).
  destruct (bases_of_total 0 N bs Hchain) as (Eb & Pb1 & Pb2 & _).
  { eapply Forall_impl; [exact Hall|]. intros b (H & Hbl & _). split; [lia | exact Hbl]. }
  pose proof (synth_bases_are_moves bs (greedy_blocks_synth N 0)) as Esynth.
  assert (Hrb : reuse_bases (make_stats c N (counts_of bs)) = bases_of true bs).
  { cbn [make_stats counts_of reuse_bases c_reuse_bases]. apply wrap64_small. lia. }
  assert (Hsb : synth_bases (make_stats c N (counts_of bs)) = bases_of false bs).
  { cbn [make_stats counts_of synth_bases c_synth_bases]. apply wrap64_small. lia. }
  eexists. split; [exact Hg|].
  rewrite Hseg, Hr, Hs, Hj, Hl, Hrb, Hsb.
  repeat split; try lia.
  - destruct bs as [|b bs']; [|simpl; lia]. simpl in Hchain. lia.
  - destruct bs as [|b bs']; [simpl in Hchain; lia|]. simpl. lia.
Qed.

End GreedyRecord.


Lemma fold_row_costs (rs : fasta_map) (sts : list PlannerStats) (q : Q) :
  length rs = length sts ->
  fold_left (fun a r => (a + r_cost r)%Q) (zip_with row_of rs sts) q
  = fold_left (fun a stats => (a + cost stats)%Q) sts q.
Proof.
  revert sts q. induction rs as [|r rs IH]; intros [|st sts] q Hlen; try done.
  cbn [zip_with fold_left]. simpl in Hlen. by rewrite IH by lia.
Qed.

(** The run of [main] on an index and a file that are read. *)
Lemma planner_main_run
    (solve : list fm_index -> list ascii -> option PlannerStats)
    (index : fm_index) (text : list ascii) :
  (forall chrom_seq, exists stats, solve [index] chrom_seq = Some stats) ->
  let records := read_lines (getlines text) in
  exists results : list PlannerStats,
    Forall2 (fun r stats => solve [index] (snd r) = Some stats)
            (nonempty_records records) results /\
    planner_main solve (Some index) (Some text)
    = Some {| exit_code := 0;
              printed_rows := zip_with row_of (nonempty_records records) results;
              printed_total := Some (totals_of stats0 (nonempty_records records) results) |}.
Proof.
  intros Htotal records.
  destruct (run_records_spec (solve [index]) records [] stats0 Htotal)
    as (sts & Hall & Hrun).
  exists sts. split; [exact Hall|].
  unfold planner_main. cbn [load_single_fm_index length Nat.eqb read_fasta_and_clean].
  fold records. by rewrite Hrun.
Qed.

(** When the index or the target file cannot be read, the run ends with
    exit code 1 and prints no row.  Otherwise, for a planner that returns on
    every target (as both do), the run ends with exit code 0, whatever the
    text of the file: it calls the planner with the one index loaded, on the
    non-empty records in ascending order of their headers; it prints for
    each the row of its cleaned header, its length and the cost of its
    result; and the totals are the sum of the costs, added in this order
    from 0, and the sums modulo 2^64 of the lengths and of each counter. *)
Theorem planner_main_rows_and_totals
    (solve : list fm_index -> list ascii -> option PlannerStats)
    (index : fm_index) (text : list ascii) :
  (forall indexes chrom_seq, exists stats, solve indexes chrom_seq = Some stats) ->
  (forall fasta,
      planner_main solve None fasta
      = Some {| exit_code := 1; printed_rows := []; printed_total := None |}) /\
  (forall loaded,
      planner_main solve loaded None
      = Some {| exit_code := 1; printed_rows := []; printed_total := None |}) /\
  exists (records : fasta_map) (results : list PlannerStats) (total : PlannerStats),
    read_fasta_and_clean (Some text) = Some records /\
    Forall2 (fun r stats => solve [index] (snd r) = Some stats)
            (nonempty_records records) results /\
    planner_main solve (Some index) (Some text)
    = Some {| exit_code := 0;
              printed_rows := zip_with row_of (nonempty_records records) results;
              printed_total := Some total |} /\
    cost total = fold_left (fun a stats => (a + cost stats)%Q) results 0%Q /\
    length_ total
    = wrap64 (Z.of_nat (list_sum (map (fun r => length (snd r))
                                      (nonempty_records records)))) /\
    reuse_moves total = wrap64 (sum_of reuse_moves results) /\
    synth_moves total = wrap64 (sum_of synth_moves results) /\
    joins total = wrap64 (sum_of joins results) /\
    segments total = wrap64 (sum_of segments results) /\
    reuse_bases total = wrap64 (sum_of reuse_bases results) /\
    synth_bases total = wrap64 (sum_of synth_bases results).
Proof.
  intros Htotal. split; [reflexivity|]. split; [by intros [index'|]|].
  exists (read_lines (getlines text)).
  destruct (planner_main_run solve index text (Htotal [index])) as (sts & Hall & Hrun).
  exists sts, (totals_of stats0 (nonempty_records (read_lines (getlines text))) sts).
  pose proof (Forall2_length _ _ _ Hall) as Hlen.
  split; [reflexivity|]. split; [exact Hall|]. split; [exact Hrun|].
  split.
  { rewrite totals_of_cost by exact Hlen. cbn [cost stats0].
    by apply fold_row_costs. }
  split.
  { by rewrite totals_of_length. }
  repeat split; by rewrite totals_of_field.
Qed.

Lemma planner_main_rows_and_totals_witness :
  exists (records : fasta_map) (results : list PlannerStats) (total : PlannerStats),
    read_fasta_and_clean
      (Some (fasta_text [(s2l "chr1, a", s2l "ACGTTACGGA"); (s2l "chr2", [])]))
    = Some records /\
    Forall2 (fun r stats =>
               solve_dp_for_chromosome (snd r) 3 [build_index (s2l "TTACG")]
                 5 (3 # 2) (2 # 10) (1 # 10000) = Some stats)
            (nonempty_records records) results /\
    dp_main 3 5 (3 # 2) (2 # 10) (1 # 10000) (Some (build_index (s2l "TTACG")))
      (Some (fasta_text [(s2l "chr1, a", s2l "ACGTTACGGA"); (s2l "chr2", [])]))
    = Some {| exit_code := 0;
              printed_rows := zip_with row_of (nonempty_records records) results;
              printed_total := Some total |} /\
    cost total = fold_left (fun a stats => (a + cost stats)%Q) results 0%Q /\
    length_ total
    = wrap64 (Z.of_nat (list_sum (map (fun r => length (snd r))
                                      (nonempty_records records)))).
Proof.
  destruct (planner_main_rows_and_totals
              (fun indexes chrom_seq =>
                 solve_dp_for_chromosome chrom_seq 3 indexes 5 (3 # 2) (2 # 10) (1 # 10000))
              (build_index (s2l "TTACG"))
              (fasta_text [(s2l "chr1, a", s2l "ACGTTACGGA"); (s2l "chr2", [])]))
    as (_ & _ & records & results & total & H1 & H2 & H3 & H4 & H5 & _).
  - intros indexes chrom_seq.
    destruct (dp_run chrom_seq 3 indexes 5 (3 # 2) (2 # 10) (1 # 10000)
                (length indexes =? 1)%nat) as (bs & _ & _ & Hdp).
    eexists. exact Hdp.
  - exists records, results, total. repeat split; assumption.
Defined.

(** *** The totals of the greedy run *)

Lemma greedy_record_sums (rs : fasta_map) (sts : list PlannerStats) :
  Forall2 greedy_record_ok rs sts ->
  let L := Z.of_nat (list_sum (map (fun r => length (snd r)) rs)) in
  sum_of segments sts = (sum_of reuse_moves sts + sum_of synth_moves sts)%Z /\
  (sum_of reuse_bases sts + sum_of synth_bases sts)%Z = L /\
  sum_of synth_bases sts = sum_of synth_moves sts /\
  (sum_of joins sts + Z.of_nat (length sts))%Z = sum_of segments sts /\
  (0 <= sum_of reuse_moves sts)%Z /\ (0 <= sum_of synth_moves sts)%Z /\
  (0 <= sum_of reuse_bases sts)%Z /\ (0 <= sum_of joins sts)%Z /\
  (sum_of segments sts <= L)%Z.
Proof.
  induction 1 as [|r st rs sts Hok Hall IH].
  - cbv. repeat split; discriminate.
  - unfold sum_of in *. cbn [map fold_right length]. unfold list_sum in *. cbn [fold_right].
    cbv zeta in IH.
    destruct Hok as (H1 & H2 & H3 & H4 & H5 & H6 & H7 & H8 & H9).
    destruct IH as (I1 & I2 & I3 & I4 & I5 & I6 & I7 & I8 & I9).
    repeat split; lia.
Qed.

(** The greedy run, whatever the text of the file: it ends with exit code
    0 and prints one row per non-empty record; and when the records hold
    fewer than 2^64 bases in all, its totals agree: the length is the
    number of bases of the records, every base is counted once as reused or
    synthesised, every segment is a reuse or a synthesis move, every
    synthesis move is one base, and the joins are the segments minus one
    per row. *)
Theorem greedy_main_totals_are_consistent
    (W : Z) (cost_pcr cost_join cost_synth_linear cost_synth_quad : Q)
    (index : fm_index) (text : list ascii) :
  exists (records : fasta_map) (rows : list row) (total : PlannerStats),
    read_fasta_and_clean (Some text) = Some records /\
    greedy_main W cost_pcr cost_join cost_synth_linear cost_synth_quad
      (Some index) (Some text)
    = Some {| exit_code := 0; printed_rows := rows; printed_total := Some total |} /\
    length rows = length (nonempty_records records) /\
    let bases := Z.of_nat (list_sum (map (fun r => length (snd r)) records)) in
    ((bases < 18446744073709551616)%Z ->
     length_ total = bases /\
     segments total = (reuse_moves total + synth_moves total)%Z /\
     (reuse_bases total + synth_bases total)%Z = length_ total /\
     synth_bases total = synth_moves total /\
     (joins total + Z.of_nat (length rows))%Z = segments total).
Proof.
  set (solve := fun indexes chrom_seq =>
         solve_greedy_for_chromosome_stats chrom_seq W indexes cost_pcr cost_join
           cost_synth_linear cost_synth_quad).
  destruct (planner_main_run solve index text) as (sts & Hall & Hrun).
  { intros s. destruct (greedy_run s W [index] cost_pcr cost_join cost_synth_linear
                          cost_synth_quad) as (c & Hg & _).
    eexists. exact Hg. }
  set (records := read_lines (getlines text)) in *.
  set (rs := nonempty_records records) in *.
  pose proof (Forall2_length _ _ _ Hall) as Hlen.
  exists records, (zip_with row_of rs sts), (totals_of stats0 rs sts).
  split; [reflexivity|]. split; [exact Hrun|].
  split; [by rewrite length_zip_with, <- Hlen, Nat.min_id|].
  intros bases Hbases.
  assert (Hsame : list_sum (map (fun r => length (snd r)) rs)
                  = list_sum (map (fun r => length (snd r)) records)).
  { subst rs. unfold nonempty_records. clear.
    induction records as [|[h s] records IH]; [reflexivity|].
    cbn [List.filter map snd]. unfold list_sum in *. cbn [fold_right].
    destruct (length s =? 0)%nat eqn:E; cbn [negb map snd fold_right].
    - apply Nat.eqb_eq in E. lia.
    - lia. }
  assert (Hrec : Forall2 greedy_record_ok rs sts).
  { assert (Hin : Forall (fun r => In r records /\ (0 < length (snd r))%nat) rs).
    { apply List.Forall_forall. intros r Hr. subst rs. unfold nonempty_records in Hr.
      apply List.filter_In in Hr as [Hr Hne]. split; [exact Hr|].
      apply negb_true_iff, Nat.eqb_neq in Hne. lia. }
    assert (Hle : forall r, In r records ->
                    (length (snd r) <= list_sum (map (fun r => length (snd r)) records))%nat).
    { clear. induction records as [|r0 records IH]; intros r Hr; [destruct Hr|].
      destruct Hr as [->|Hr].
      - unfold list_sum. cbn [map fold_right]. lia.
      - specialize (IH r Hr). unfold list_sum in *. cbn [map fold_right]. lia. }
    clear Hrun Hlen Hsame. revert Hin.
    induction Hall as [|r st rs' sts' Hst Hall IH]; intros Hin; [constructor|].
    apply Forall_cons_1 in Hin as [[Hr Hpos] Hin].
    constructor; [|by apply IH].
    destruct (greedy_stats_exact (snd r) W [index] cost_pcr cost_join
                cost_synth_linear cost_synth_quad) as (st' & Hst' & G).
    { specialize (Hle r Hr). subst bases. lia. }
    subst solve. cbv beta in Hst. rewrite Hst in Hst'. injection Hst' as <-.
    destruct G as (G0 & G1 & G2 & G3 & G4 & G5 & G6 & G7 & G8).
    destruct (G8 Hpos) as [G9 G10].
    unfold greedy_record_ok. cbv zeta. repeat split; lia. }
  destruct (greedy_record_sums rs sts Hrec) as (S1 & S2 & S3 & S4 & S5 & S6 & S7 & S8 & S9).
  cbv zeta in S2, S9. rewrite Hsame in S2, S9. fold bases in S2, S9.
  rewrite length_zip_with, <- Hlen, Nat.min_id.
  rewrite totals_of_length, Hsame by done. fold bases.
  rewrite !totals_of_field by done. cbn [stats0 segments reuse_moves synth_moves joins
    reuse_bases synth_bases length_]. rewrite !Z.add_0_l.
  rewrite !wrap64_small by lia.
  repeat split; lia.
Qed.

(** *** The header of a row *)

(** The label printed for a record has the length of its header and the
    same characters, but for every blank and every comma, which become
    underscores: it holds neither; a header without blank or comma is
    printed as it is, and cleaning twice changes nothing more. *)
Theorem clean_header_replaces_blanks_and_commas (h : list ascii) :
  length (clean_header h) = length h /\
  ~ In " "%char (clean_header h) /\
  ~ In ","%char (clean_header h) /\
  (forall i c, h !! i = Some c ->
     clean_header h !! i
     = Some (if (Ascii.eqb c " " || Ascii.eqb c ",")%bool then "_"%char else c)) /\
  (~ In " "%char h -> ~ In ","%char h -> clean_header h = h) /\
  clean_header (clean_header h) = clean_header h.
Proof.
  unfold clean_header.
  split; [apply length_map|].
  assert (Hno : forall c, In c (map (fun c => if (Ascii.eqb c " " || Ascii.eqb c ",")%bool
                                              then "_"%char else c) h) ->
                          c <> " "%char /\ c <> ","%char).
  { intros c Hc. apply List.in_map_iff in Hc as (c0 & <- & _).
    destruct (Ascii.eqb c0 " ") eqn:E1; [split; discriminate|].
    destruct (Ascii.eqb c0 ",") eqn:E2; [split; discriminate|].
    apply Ascii.eqb_neq in E1. apply Ascii.eqb_neq in E2. by split. }
  split; [intros Hin; by destruct (Hno _ Hin)|].
  split; [intros Hin; by destruct (Hno _ Hin)|].
  split.
  { intros i c Hi. by rewrite list_lookup_fmap, Hi. }
  split.
  { intros H1 H2. rewrite <- (map_id h) at 2. apply map_ext_in.
    intros c Hc.
    destruct (Ascii.eqb c " ") eqn:E1; [apply Ascii.eqb_eq in E1; by subst|].
    destruct (Ascii.eqb c ",") eqn:E2; [apply Ascii.eqb_eq in E2; by subst|].
    reflexivity. }
  rewrite map_map. apply map_ext. intros c.
  destruct (Ascii.eqb c " ") eqn:E1; [reflexivity|].
  destruct (Ascii.eqb c ",") eqn:E2; [reflexivity|].
  cbn [orb]. by rewrite E1, E2.
Qed.

(** ** The plans *)

(** The backtracking stops on a recorded length [0]. *)
Lemma backtrack_on_length_0 {A : Type} (f : block -> A -> A) (fuel cur : nat)
    (t : dp_tables) (acc : A) :
  (0 < fuel)%nat -> chosen_len t !!! cur = 0%Z ->
  backtrack f fuel t cur acc = Some acc.
Proof.
  intros Hfuel Hlen. destruct fuel as [|fuel]; [exfalso; by apply (Nat.lt_irrefl 0)|].
  cbn [backtrack]. rewrite Hlen.
  destruct (0 <? cur)%nat; [|reflexivity].
  by rewrite orb_true_r.
Qed.

(** *** A maximum block length that is not positive *)

Section NoCandidate.

Variable chrom_seq : list ascii.
Variable W : Z.
Variable indexes : list fm_index.
Variables cost_pcr cost_join cost_synth_linear cost_synth_quad : Q.
Hypothesis HW : (W <= 0)%Z.

Abbreviation nstep := (dp_step chrom_seq W indexes cost_pcr cost_join
                         cost_synth_linear cost_synth_quad).
Abbreviation nsweep := (dp_sweep chrom_seq W indexes cost_pcr cost_join
                          cost_synth_linear cost_synth_quad).

Lemma dp_step_no_candidate (single_index : bool) (i : nat) (t : dp_tables) :
  nstep single_index i t
  = {| DP := <[i := 1e18%Q]> (DP t); pred := pred t;
       chosen_len := chosen_len t; chosen_is_reuse := chosen_is_reuse t |}.
Proof.
  unfold dp_step, update_min_cost_for_i.
  replace (Z.min W (Z.of_nat i) <=? 0)%Z with true by (symmetry; apply Z.leb_le; lia).
  replace (Z.to_nat (Z.min W (Z.of_nat i))) with 0%nat by lia.
  cbn [scan_fallback].
  destruct single_index; [destruct indexes|]; reflexivity.
Qed.

Lemma dp_sweep_no_candidate (single_index : bool) (n i : nat) (t : dp_tables) :
  (forall j, (1 <= j < length (DP t))%nat -> DP t !!! j = 1e18%Q) ->
  (forall j, (1 <= j < length (DP t))%nat ->
     DP (nsweep single_index n i t) !!! j = 1e18%Q) /\
  chosen_len (nsweep single_index n i t) = chosen_len t.
Proof.
  revert i t. induction n as [|n IH]; intros i t Ht; [done|].
  cbn [dp_sweep]. rewrite dp_step_no_candidate.
  destruct (IH (S i) {| DP := <[i := 1e18%Q]> (DP t); pred := pred t;
                        chosen_len := chosen_len t;
                        chosen_is_reuse := chosen_is_reuse t |}) as [H1 H2].
  - intros j Hj. cbn [DP] in Hj |- *. rewrite length_insert in Hj.
    destruct (decide (j = i)) as [->|Hne].
    + apply list_lookup_total_insert_eq. lia.
    + rewrite list_lookup_total_insert_ne by done. by apply Ht.
  - cbn [DP chosen_len] in H1, H2. rewrite length_insert in H1. done.
Qed.

Lemma solve_dp_no_candidate (single_index : bool) :
  (1 <= length chrom_seq)%nat ->
  solve_dp_with chrom_seq W indexes cost_pcr cost_join cost_synth_linear
    cost_synth_quad single_index
  = Some {| cost := 1e18; reuse_moves := 0; synth_moves := 0; joins := 0; segments := 0;
            reuse_bases := 0; synth_bases := 0;
            length_ := wrap64 (Z.of_nat (length chrom_seq)) |}.
Proof.
  intros HN. unfold solve_dp_with, dp_fill.
  replace (length chrom_seq =? 0)%nat with false by (symmetry; apply Nat.eqb_neq; lia).
  destruct (dp_sweep_no_candidate single_index (length chrom_seq) 1
              (init_tables (length chrom_seq))) as [H1 H2].
  { intros j Hj. unfold init_tables in *. cbn [DP] in *.
    rewrite length_insert, length_replicate in Hj.
    rewrite list_lookup_total_insert_ne by lia.
    apply lookup_total_replicate_2. lia. }
  rewrite (backtrack_on_length_0 (fun b => count_block (b_reuse b) (b_len b))
             (length chrom_seq) (length chrom_seq)).
  - unfold make_stats. cbn [c_segments c_reuse_moves c_synth_moves c_reuse_bases
      c_synth_bases counters0 Z.ltb Z.compare]. rewrite H1; [reflexivity|].
    unfold init_tables. cbn [DP]. rewrite length_insert, length_replicate. lia.
  - lia.
  - rewrite H2. unfold init_tables. cbn [chosen_len].
    apply lookup_total_replicate_2. lia.
Qed.

End NoCandidate.

(** With [W <= 0] no block is allowed, so a non-empty target has no
    partition: the DP planner reports the sentinel [1e18] as cost, with no
    block and every counter at 0. *)
Theorem dp_reports_the_sentinel_when_W_is_not_positive
    (chrom_seq : list ascii) (W : Z) (indexes : list fm_index)
    (cost_pcr cost_join cost_synth_linear cost_synth_quad : Q) :
  (W <= 0)%Z -> (1 <= length chrom_seq)%nat ->
  solve_dp_for_chromosome chrom_seq W indexes cost_pcr cost_join cost_synth_linear
    cost_synth_quad
  = Some {| cost := 1e18; reuse_moves := 0; synth_moves := 0; joins := 0; segments := 0;
            reuse_bases := 0; synth_bases := 0;
            length_ := wrap64 (Z.of_nat (length chrom_seq)) |} /\
  dp_blocks chrom_seq W indexes cost_pcr cost_join cost_synth_linear cost_synth_quad
  = Some [] /\
  (forall ws, ~ is_partition W (length chrom_seq) ws).
Proof.
  intros HW HN. split; [by apply solve_dp_no_candidate|]. split.
  - unfold dp_blocks, dp_fill.
    destruct (dp_sweep_no_candidate chrom_seq W indexes cost_pcr cost_join
                cost_synth_linear cost_synth_quad HW (length indexes =? 1)%nat
                (length chrom_seq) 1 (init_tables (length chrom_seq))) as [_ H2].
    { intros j Hj. unfold init_tables in *. cbn [DP] in *.
      rewrite length_insert, length_replicate in Hj.
      rewrite list_lookup_total_insert_ne by lia.
      apply lookup_total_replicate_2. lia. }
    apply backtrack_on_length_0; [lia|].
    rewrite H2. unfold init_tables. cbn [chosen_len].
    apply lookup_total_replicate_2. lia.
  - intros ws [Hall Hsum]. destruct Hall as [|w ws [Hw1 HwW] Hall].
    + simpl in Hsum. lia.
    + lia.
Qed.

Lemma dp_reports_the_sentinel_when_W_is_not_positive_witness :
  solve_dp_for_chromosome (s2l "ACGT") 0 [build_index (s2l "ACGT")] 5 1 (2 # 10) 0
  = Some {| cost := 1e18; reuse_moves := 0; synth_moves := 0; joins := 0; segments := 0;
            reuse_bases := 0; synth_bases := 0;
            length_ := wrap64 (Z.of_nat (length (s2l "ACGT"))) |} /\
  dp_blocks (s2l "ACGT") 0 [build_index (s2l "ACGT")] 5 1 (2 # 10) 0 = Some [] /\
  (forall ws, ~ is_partition 0 (length (s2l "ACGT")) ws).
Proof.
  apply (dp_reports_the_sentinel_when_W_is_not_positive (s2l "ACGT") 0
           [build_index (s2l "ACGT")] 5 1 (2 # 10) 0).
  - lia.
  - simpl. lia.
Defined.

(** *** The maximum block length *)

Section BlockLength.

Variable chrom_seq : list ascii.
Variable indexes : list fm_index.
Variables cost_pcr cost_join cost_synth_linear cost_synth_quad : Q.

Abbreviation bN := (length chrom_seq).

(** A larger maximum block length never raises an entry of the table. *)
Lemma dp_entries_antitone (W W' : Z) (t t' : dp_tables) :
  (W <= W')%Z ->
  tables_inv chrom_seq W indexes cost_pcr cost_join cost_synth_linear cost_synth_quad bN t ->
  tables_inv chrom_seq W' indexes cost_pcr cost_join cost_synth_linear cost_synth_quad bN t' ->
  forall i, (i <= bN)%nat -> (DP t' !!! i <= DP t !!! i)%Q.
Proof.
  intros HW Hinv Hinv'.
  induction i as [i IH] using lt_wf_ind. intros Hi.
  destruct (decide (i = 0%nat)) as [->|Hne].
  { destruct Hinv as (_ & _ & _ & _ & H0 & _). destruct Hinv' as (_ & _ & _ & _ & H0' & _).
    rewrite H0, H0'. lra. }
  pose proof Hinv as (_ & _ & _ & _ & _ & Hcells & _).
  pose proof Hinv' as (_ & _ & _ & _ & _ & Hcells' & _).
  destruct (Hcells i ltac:(lia)) as (_ & _ & Hcase).
  destruct (Hcells' i ltac:(lia)) as (Hcap' & Hle' & _).
  destruct Hcase as [(Hun & _) | (w & Hc & E1 & _)]; [by rewrite Hun|].
  destruct Hc as (Hw1 & Hwi & HwW).
  assert (Hc' : candidate W' i w) by (unfold candidate; lia).
  pose proof (Hle' w Hc') as Hup.
  pose proof (IH (i - w)%nat ltac:(lia) ltac:(lia)) as Hprev.
  rewrite E1. unfold path_cost in *.
  destruct (0 <? i - w)%nat; lra.
Qed.

(** The sweep reads [W] through [min(W, i)] only. *)
Lemma dp_step_saturated (W W' : Z) (single_index : bool) (i : nat) (t : dp_tables) :
  (Z.of_nat i <= W)%Z -> (Z.of_nat i <= W')%Z ->
  dp_step chrom_seq W indexes cost_pcr cost_join cost_synth_linear cost_synth_quad
    single_index i t
  = dp_step chrom_seq W' indexes cost_pcr cost_join cost_synth_linear cost_synth_quad
      single_index i t.
Proof.
  intros H1 H2. unfold dp_step, update_min_cost_for_i.
  by rewrite !Z.min_r by lia.
Qed.

Lemma dp_sweep_saturated (W W' : Z) (single_index : bool) (n i : nat) (t : dp_tables) :
  (Z.of_nat (i + n) <= W + 1)%Z -> (Z.of_nat (i + n) <= W' + 1)%Z ->
  dp_sweep chrom_seq W indexes cost_pcr cost_join cost_synth_linear cost_synth_quad
    single_index n i t
  = dp_sweep chrom_seq W' indexes cost_pcr cost_join cost_synth_linear cost_synth_quad
      single_index n i t.
Proof.
  revert i t. induction n as [|n IH]; intros i t H1 H2; [reflexivity|].
  cbn [dp_sweep]. rewrite (dp_step_saturated W W') by lia. apply IH; lia.
Qed.

Lemma greedy_loop_saturated (W W' : Z) (fuel : nat) (st : greedy_state) :
  (Z.of_nat bN <= W)%Z -> (Z.of_nat bN <= W')%Z ->
  greedy_loop chrom_seq W indexes cost_pcr cost_join cost_synth_linear cost_synth_quad
    fuel st
  = greedy_loop chrom_seq W' indexes cost_pcr cost_join cost_synth_linear cost_synth_quad
      fuel st.
Proof.
  intros H1 H2. revert st. induction fuel as [|fuel IH]; intros st; [reflexivity|].
  cbn [greedy_loop]. destruct (g_i st <? bN)%nat; [|reflexivity].
  rewrite <- IH. f_equal. unfold greedy_step.
  by rewrite !Z.min_r by lia.
Qed.

End BlockLength.

(** Raising the maximum block length never raises the cost that the DP
    planner reports, for indexes that meet the contract of the oracle. *)
Theorem dp_cost_does_not_rise_with_W
    (chrom_seq : list ascii) (W W' : Z) (indexes : list fm_index)
    (cost_pcr cost_join cost_synth_linear cost_synth_quad : Q) :
  (W <= W')%Z ->
  Forall index_coherent indexes ->
  exists (dp dp' : PlannerStats),
    solve_dp_for_chromosome chrom_seq W indexes cost_pcr cost_join
      cost_synth_linear cost_synth_quad = Some dp /\
    solve_dp_for_chromosome chrom_seq W' indexes cost_pcr cost_join
      cost_synth_linear cost_synth_quad = Some dp' /\
    (cost dp' <= cost dp)%Q.
Proof.
  intros HW Hcoh.
  destruct (dp_run chrom_seq W indexes cost_pcr cost_join cost_synth_linear
              cost_synth_quad (length indexes =? 1)%nat) as (bs & _ & _ & Hdp).
  destruct (dp_run chrom_seq W' indexes cost_pcr cost_join cost_synth_linear
              cost_synth_quad (length indexes =? 1)%nat) as (bs' & _ & _ & Hdp').
  eexists _, _. split; [exact Hdp|]. split; [exact Hdp'|].
  cbn [cost make_stats].
  apply (dp_entries_antitone chrom_seq indexes cost_pcr cost_join cost_synth_linear
           cost_synth_quad W W'); [exact HW | by apply dp_fill_inv | by apply dp_fill_inv | lia].
Qed.

Lemma dp_cost_does_not_rise_with_W_witness :
  exists (dp dp' : PlannerStats),
    solve_dp_for_chromosome (s2l "ACGTTACGGA") 2 [build_index (s2l "TTACG")]
      5 (3 # 2) (2 # 10) (1 # 10000) = Some dp /\
    solve_dp_for_chromosome (s2l "ACGTTACGGA") 5 [build_index (s2l "TTACG")]
      5 (3 # 2) (2 # 10) (1 # 10000) = Some dp' /\
    (cost dp' <= cost dp)%Q.
Proof.
  apply (dp_cost_does_not_rise_with_W (s2l "ACGTTACGGA") 2 5 [build_index (s2l "TTACG")]
           5 (3 # 2) (2 # 10) (1 # 10000)).
  - lia.
  - constructor; [|constructor]. apply build_index_coherent. simpl. lia.
Defined.

(** A maximum block length beyond the length of the target changes
    nothing: both planners return the same result for every [W >= N]. *)
Theorem results_do_not_depend_on_W_beyond_the_target_length
    (chrom_seq : list ascii) (W W' : Z) (indexes : list fm_index)
    (cost_pcr cost_join cost_synth_linear cost_synth_quad : Q) :
  (Z.of_nat (length chrom_seq) <= W)%Z -> (Z.of_nat (length chrom_seq) <= W')%Z ->
  solve_dp_for_chromosome chrom_seq W indexes cost_pcr cost_join
    cost_synth_linear cost_synth_quad
  = solve_dp_for_chromosome chrom_seq W' indexes cost_pcr cost_join
      cost_synth_linear cost_synth_quad /\
  dp_blocks chrom_seq W indexes cost_pcr cost_join cost_synth_linear cost_synth_quad
  = dp_blocks chrom_seq W' indexes cost_pcr cost_join cost_synth_linear cost_synth_quad /\
  solve_greedy_for_chromosome_stats chrom_seq W indexes cost_pcr cost_join
    cost_synth_linear cost_synth_quad
  = solve_greedy_for_chromosome_stats chrom_seq W' indexes cost_pcr cost_join
      cost_synth_linear cost_synth_quad.
Proof.
  intros H1 H2.
  assert (Hfill : forall b,
            dp_fill chrom_seq W indexes cost_pcr cost_join cost_synth_linear
              cost_synth_quad b
            = dp_fill chrom_seq W' indexes cost_pcr cost_join cost_synth_linear
                cost_synth_quad b).
  { intros b. unfold dp_fill. apply dp_sweep_saturated; lia. }
  split; [|split].
  - unfold solve_dp_for_chromosome, solve_dp_with. by rewrite Hfill.
  - unfold dp_blocks. by rewrite Hfill.
  - unfold solve_greedy_for_chromosome_stats.
    by rewrite (greedy_loop_saturated chrom_seq indexes cost_pcr cost_join
                  cost_synth_linear cost_synth_quad W W') by lia.
Qed.

Lemma results_do_not_depend_on_W_beyond_the_target_length_witness :
  solve_dp_for_chromosome (s2l "ACGTTACGGA") 10 [build_index (s2l "TTACG")]
    5 (3 # 2) (2 # 10) (1 # 10000)
  = solve_dp_for_chromosome (s2l "ACGTTACGGA") 500 [build_index (s2l "TTACG")]
      5 (3 # 2) (2 # 10) (1 # 10000) /\
  dp_blocks (s2l "ACGTTACGGA") 10 [build_index (s2l "TTACG")] 5 (3 # 2) (2 # 10) (1 # 10000)
  = dp_blocks (s2l "ACGTTACGGA") 500 [build_index (s2l "TTACG")]
      5 (3 # 2) (2 # 10) (1 # 10000) /\
  solve_greedy_for_chromosome_stats (s2l "ACGTTACGGA") 10 [build_index (s2l "TTACG")]
    5 (3 # 2) (2 # 10) (1 # 10000)
  = solve_greedy_for_chromosome_stats (s2l "ACGTTACGGA") 500 [build_index (s2l "TTACG")]
      5 (3 # 2) (2 # 10) (1 # 10000).
Proof.
  apply (results_do_not_depend_on_W_beyond_the_target_length (s2l "ACGTTACGGA") 10 500
           [build_index (s2l "TTACG")] 5 (3 # 2) (2 # 10) (1 # 10000)).
  - simpl. lia.
  - simpl. lia.
Defined.

(** ** The reference index and the substrings of its text *)

Lemma suffixes_self (s : list ascii) : In s (suffixes s).
Proof. destruct s; by left. Qed.

Lemma suffixes_In (x s : list ascii) : In x (suffixes s) <-> exists a, s = a ++ x.
Proof.
  split.
  - induction s as [|c s IH]; cbn [suffixes].
    + intros [<-|[]]. by exists [].
    + intros [<-|Hin]; [by exists []|].
      destruct (IH Hin) as [a ->]. by exists (c :: a).
  - intros [a ->]. induction a as [|c a IH]; [apply suffixes_self|].
    cbn [app suffixes]. by right.
Qed.

Lemma is_prefix_spec (p x : list ascii) :
  is_prefix p x = true <-> exists b, x = p ++ b.
Proof.
  revert x. induction p as [|a p IH]; intros x.
  - split; [by exists x | done].
  - destruct x as [|c x]; cbn [is_prefix].
    + split; [done | by intros [b Hb]].
    + destruct (Ascii.eqb a c) eqn:E.
      * apply Ascii.eqb_eq in E. subst c. rewrite IH. split.
        -- intros [b ->]. by exists b.
        -- intros [b Hb]. injection Hb as ->. by exists b.
      * apply Ascii.eqb_neq in E. split; [done|].
        intros [b Hb]. injection Hb as Hac _. by destruct E.
Qed.

Lemma count_occurs (src p : list ascii) :
  (0 < fm_count (build_index src) p)%N <-> exists a b, src = a ++ p ++ b.
Proof.
  rewrite count_positive. split.
  - intros (x & Hx & Hp). apply lex_sort_In, suffixes_In in Hx as [a ->].
    apply is_prefix_spec in Hp as [b ->]. by exists a, b.
  - intros (a & b & ->). exists (p ++ b). split.
    + apply lex_sort_In, suffixes_In. by exists a.
    + apply is_prefix_spec. by exists b.
Qed.

Lemma extend_empty_interval (src : list ascii) (c : ascii) :
  fm_backward_search (build_index src) 1 0 c = (0%N, (1%N, 0%N)).
Proof.
  cbn [build_index fm_backward_search].
  destruct (sa_extend (suffix_array src) (N.to_nat 1) (N.to_nat 0) c) as [|k ks] eqn:E;
    [reflexivity|].
  exfalso.
  assert (Hin : In k (sa_extend (suffix_array src) (N.to_nat 1) (N.to_nat 0) c))
    by (rewrite E; by left).
  unfold sa_extend in Hin. apply List.filter_In in Hin as [_ Hk].
  destruct (nth k (suffix_array src) []) as [|a t]; [done|].
  apply andb_true_iff in Hk as [_ Hk].
  unfold sa_rows in Hk. change (S (N.to_nat 0) - N.to_nat 1)%nat with 0%nat in Hk.
  by cbn [firstn existsb] in Hk.
Qed.

Lemma bsearch_none (src : list ascii) (c : ascii) (p : list ascii) :
  fst (bsearch (build_index src) (c :: p)) = 0%N ->
  bsearch (build_index src) (c :: p) = (0%N, (1%N, 0%N)).
Proof.
  cbn [bsearch]. destruct (bsearch (build_index src) p) as [o [l r]].
  cbn [build_index fm_backward_search].
  destruct (sa_extend _ _ _ c) as [|k ks]; [done|].
  cbn [fst length]. lia.
Qed.

Lemma bsearch_occurs (src p : list ascii) :
  (Z.of_nat (length src) < 18446744073709551615)%Z ->
  (0 < fst (bsearch (build_index src) p))%N <-> (0 < fm_count (build_index src) p)%N.
Proof.
  intros Hsize. pose proof (build_index_coherent src Hsize) as [Hmono Hext].
  induction p as [|c p IH].
  - split; intros _.
    + apply count_occurs. by exists [], src.
    + cbn [bsearch fst build_index fm_size]. rewrite suffix_array_length. lia.
  - destruct (decide (p = [])) as [->|Hne]; [apply Hext; by left|].
    destruct (N.eq_dec (fm_count (build_index src) p) 0%N) as [E0|E0].
    + split.
      * intros Hpos. exfalso.
        assert (Hz : fst (bsearch (build_index src) p) = 0%N) by lia.
        destruct p as [|c' p']; [done|].
        apply bsearch_none in Hz. cbn [bsearch] in Hpos, Hz. rewrite Hz in Hpos.
        rewrite extend_empty_interval in Hpos. simpl in Hpos. lia.
      * intros Hpos. apply (Hmono c p Hne) in Hpos. lia.
    + apply Hext. right. lia.
Qed.

(** The reference index of a text of fewer than 2^64 - 1 characters is the
    substring oracle of the text: the one-shot query of [query_kmer] and
    the incremental search of [update_min_cost_for_i] both answer that a
    pattern occurs exactly when it is a contiguous part of the text. *)
Theorem reference_index_answers_substring_membership (src kmer : list ascii) :
  (Z.of_nat (length src) < 18446744073709551615)%Z ->
  (query_kmer [build_index src] kmer = true <-> exists a b, src = a ++ kmer ++ b) /\
  ((0 < fst (bsearch (build_index src) kmer))%N <-> exists a b, src = a ++ kmer ++ b).
Proof.
  intros Hsize. split.
  - unfold query_kmer. cbn [existsb]. rewrite orb_false_r, N.ltb_lt. apply count_occurs.
  - rewrite bsearch_occurs by exact Hsize. apply count_occurs.
Qed.

Lemma reference_index_answers_substring_membership_witness :
  (query_kmer [build_index (s2l "TTACG")] (s2l "TAC") = true
   <-> exists a b, s2l "TTACG" = a ++ s2l "TAC" ++ b) /\
  ((0 < fst (bsearch (build_index (s2l "TTACG")) (s2l "TAC")))%N
   <-> exists a b, s2l "TTACG" = a ++ s2l "TAC" ++ b).
Proof.
  apply (reference_index_answers_substring_membership (s2l "TTACG") (s2l "TAC")).
  simpl. lia.
Defined.

(** ** The plans depend on the source through the reusable blocks only *)

Section SameBlocks.

Variable chrom_seq : list ascii.
Variable W : Z.
Variables indexes indexes' : list fm_index.
Variables cost_pcr cost_join cost_synth_linear cost_synth_quad : Q.

Hypothesis Hsame :
  forall j w, (1 <= w)%nat -> (Z.of_nat w <= W)%Z -> (j + w <= length chrom_seq)%nat ->
              reusable chrom_seq indexes j w = reusable chrom_seq indexes' j w.

Lemma scan_fallback_same (n i w : nat) (tm : dp_tables * Q) :
  (1 <= w)%nat -> (i <= length chrom_seq)%nat ->
  (Z.of_nat (w + n) <= Z.min W (Z.of_nat i) + 1)%Z ->
  scan_fallback chrom_seq indexes cost_pcr cost_join cost_synth_linear cost_synth_quad
    n i w tm
  = scan_fallback chrom_seq indexes' cost_pcr cost_join cost_synth_linear cost_synth_quad
      n i w tm.
Proof.
  revert w tm. induction n as [|n IH]; intros w tm Hw Hi Hn; [reflexivity|].
  cbn [scan_fallback].
  pose proof (Hsame (i - w)%nat w Hw ltac:(lia) ltac:(lia)) as E.
  unfold reusable, query_kmer in E. rewrite E. apply IH; lia.
Qed.

Lemma dp_fill_same :
  dp_fill chrom_seq W indexes cost_pcr cost_join cost_synth_linear cost_synth_quad false
  = dp_fill chrom_seq W indexes' cost_pcr cost_join cost_synth_linear cost_synth_quad false.
Proof.
  unfold dp_fill. generalize (init_tables (length chrom_seq)).
  assert (H : forall n i t, (i + n <= length chrom_seq + 1)%nat -> (1 <= i)%nat ->
            dp_sweep chrom_seq W indexes cost_pcr cost_join cost_synth_linear
              cost_synth_quad false n i t
            = dp_sweep chrom_seq W indexes' cost_pcr cost_join cost_synth_linear
                cost_synth_quad false n i t).
  { induction n as [|n IH]; intros i t Hn Hi; [reflexivity|].
    cbn [dp_sweep]. rewrite IH by lia. f_equal.
    unfold dp_step.
    destruct (Z.to_nat (Z.min W (Z.of_nat i))) as [|m] eqn:Em; [reflexivity|].
    rewrite scan_fallback_same; [reflexivity | lia | lia | lia]. }
  intros t. apply H; lia.
Qed.

Lemma find_best_w_same (n i : nat) :
  (n <= Z.to_nat W)%nat -> (i + n <= length chrom_seq)%nat ->
  find_best_w chrom_seq indexes n i = find_best_w chrom_seq indexes' n i.
Proof.
  induction n as [|n IH]; intros Hn Hi; [reflexivity|].
  cbn [find_best_w].
  pose proof (Hsame i (S n) ltac:(lia) ltac:(lia) Hi) as E. unfold reusable in E.
  rewrite E, IH by lia. reflexivity.
Qed.

Lemma greedy_loop_same (fuel : nat) (st : greedy_state) :
  greedy_loop chrom_seq W indexes cost_pcr cost_join cost_synth_linear cost_synth_quad
    fuel st
  = greedy_loop chrom_seq W indexes' cost_pcr cost_join cost_synth_linear cost_synth_quad
      fuel st.
Proof.
  revert st. induction fuel as [|fuel IH]; intros st; [reflexivity|].
  cbn [greedy_loop]. destruct (g_i st <? length chrom_seq)%nat eqn:E; [|reflexivity].
  apply Nat.ltb_lt in E.
  rewrite <- IH. f_equal. unfold greedy_step.
  rewrite find_best_w_same by lia. reflexivity.
Qed.

End SameBlocks.

Lemma dp_fill_branch (chrom_seq : list ascii) (W : Z) (indexes : list fm_index)
    (cost_pcr cost_join cost_synth_linear cost_synth_quad : Q) :
  Forall index_coherent indexes ->
  dp_fill chrom_seq W indexes cost_pcr cost_join cost_synth_linear cost_synth_quad
    (length indexes =? 1)%nat
  = dp_fill chrom_seq W indexes cost_pcr cost_join cost_synth_linear cost_synth_quad false.
Proof.
  intros Hcoh. destruct indexes as [|index [|index' rest]]; try reflexivity.
  cbn [length Nat.eqb]. apply dp_fill_fallback. by apply Forall_inv in Hcoh.
Qed.

(** Two sources in which the same blocks of the target (of at most [W]
    bases) occur give the same plans: for indexes that meet the contract of
    the oracle, however many they are and in whatever order, the results of
    both planners and the blocks of the DP planner are the same. *)
Theorem plans_depend_on_the_reusable_blocks_only
    (chrom_seq : list ascii) (W : Z) (indexes indexes' : list fm_index)
    (cost_pcr cost_join cost_synth_linear cost_synth_quad : Q) :
  Forall index_coherent indexes -> Forall index_coherent indexes' ->
  (forall j w, (1 <= w)%nat -> (Z.of_nat w <= W)%Z -> (j + w <= length chrom_seq)%nat ->
               reusable chrom_seq indexes j w = reusable chrom_seq indexes' j w) ->
  solve_dp_for_chromosome chrom_seq W indexes cost_pcr cost_join
    cost_synth_linear cost_synth_quad
  = solve_dp_for_chromosome chrom_seq W indexes' cost_pcr cost_join
      cost_synth_linear cost_synth_quad /\
  dp_blocks chrom_seq W indexes cost_pcr cost_join cost_synth_linear cost_synth_quad
  = dp_blocks chrom_seq W indexes' cost_pcr cost_join cost_synth_linear cost_synth_quad /\
  solve_greedy_for_chromosome_stats chrom_seq W indexes cost_pcr cost_join
    cost_synth_linear cost_synth_quad
  = solve_greedy_for_chromosome_stats chrom_seq W indexes' cost_pcr cost_join
      cost_synth_linear cost_synth_quad.
Proof.
  intros Hcoh Hcoh' Hsame.
  assert (Hfill :
    dp_fill chrom_seq W indexes cost_pcr cost_join cost_synth_linear cost_synth_quad
      (length indexes =? 1)%nat
    = dp_fill chrom_seq W indexes' cost_pcr cost_join cost_synth_linear cost_synth_quad
        (length indexes' =? 1)%nat).
  { rewrite !dp_fill_branch by done. by apply dp_fill_same. }
  split; [|split].
  - unfold solve_dp_for_chromosome, solve_dp_with. by rewrite Hfill.
  - unfold dp_blocks. by rewrite Hfill.
  - unfold solve_greedy_for_chromosome_stats.
    by rewrite (greedy_loop_same chrom_seq W indexes indexes' cost_pcr cost_join
                  cost_synth_linear cost_synth_quad Hsame).
Qed.

Lemma plans_depend_on_the_reusable_blocks_only_witness :
  solve_dp_for_chromosome (s2l "ACGTTACGGA") 3
    [build_index (s2l "TTACG")] 5 (3 # 2) (2 # 10) (1 # 10000)
  = solve_dp_for_chromosome (s2l "ACGTTACGGA") 3
      [build_index (s2l "TACG"); build_index (s2l "TTAC")] 5 (3 # 2) (2 # 10) (1 # 10000) /\
  dp_blocks (s2l "ACGTTACGGA") 3
    [build_index (s2l "TTACG")] 5 (3 # 2) (2 # 10) (1 # 10000)
  = dp_blocks (s2l "ACGTTACGGA") 3
      [build_index (s2l "TACG"); build_index (s2l "TTAC")] 5 (3 # 2) (2 # 10) (1 # 10000) /\
  solve_greedy_for_chromosome_stats (s2l "ACGTTACGGA") 3
    [build_index (s2l "TTACG")] 5 (3 # 2) (2 # 10) (1 # 10000)
  = solve_greedy_for_chromosome_stats (s2l "ACGTTACGGA") 3
      [build_index (s2l "TACG"); build_index (s2l "TTAC")] 5 (3 # 2) (2 # 10) (1 # 10000).
Proof.
  apply (plans_depend_on_the_reusable_blocks_only (s2l "ACGTTACGGA") 3
           [build_index (s2l "TTACG")] [build_index (s2l "TACG"); build_index (s2l "TTAC")]
           5 (3 # 2) (2 # 10) (1 # 10000)).
  - constructor; [|constructor]. apply build_index_coherent. simpl. lia.
  - constructor; [|constructor; [|constructor]]; apply build_index_coherent; simpl; lia.
  - intros j w H1 H2 H3. simpl in H3.
    do 11 (destruct j as [|j]; [do 4 (destruct w as [|w]; [first [lia | reflexivity]|]); lia|]).
    lia.
Defined.

(** ** The cost parameters *)

Section CostParameters.

Variable chrom_seq : list ascii.
Variable W : Z.
Variable indexes : list fm_index.
Variables cost_pcr cost_join cost_synth_linear cost_synth_quad : Q.
Variables cost_pcr' cost_join' cost_synth_linear' cost_synth_quad' : Q.

Hypothesis Hpcr : (cost_pcr <= cost_pcr')%Q.
Hypothesis Hjoin : (cost_join <= cost_join')%Q.
Hypothesis Hlin : (cost_synth_linear <= cost_synth_linear')%Q.
Hypothesis Hquad : (cost_synth_quad <= cost_synth_quad')%Q.

Lemma acquisition_cost_monotone (r : bool) (L : nat) :
  (acquisition_cost cost_pcr cost_synth_linear cost_synth_quad r L
   <= acquisition_cost cost_pcr' cost_synth_linear' cost_synth_quad' r L)%Q.
Proof.
  unfold acquisition_cost. destruct r; [exact Hpcr|].
  assert (H0 : (0 <= to_double L)%Q).
  { unfold to_double. change 0%Q with (inject_Z 0). rewrite <- Zle_Qle. lia. }
  nra.
Qed.

(** Dearer parameters never lower an entry of the table. *)
Lemma dp_entries_monotone (t t' : dp_tables) :
  tables_inv chrom_seq W indexes cost_pcr cost_join cost_synth_linear cost_synth_quad
    (length chrom_seq) t ->
  tables_inv chrom_seq W indexes cost_pcr' cost_join' cost_synth_linear' cost_synth_quad'
    (length chrom_seq) t' ->
  forall i, (i <= length chrom_seq)%nat -> (DP t !!! i <= DP t' !!! i)%Q.
Proof.
  intros Hinv Hinv'.
  induction i as [i IH] using lt_wf_ind. intros Hi.
  destruct (decide (i = 0%nat)) as [->|Hne].
  { destruct Hinv as (_ & _ & _ & _ & H0 & _). destruct Hinv' as (_ & _ & _ & _ & H0' & _).
    rewrite H0, H0'. lra. }
  pose proof Hinv as (_ & _ & _ & _ & _ & Hcells & _).
  pose proof Hinv' as (_ & _ & _ & _ & _ & Hcells' & _).
  destruct (Hcells i ltac:(lia)) as (Hcap & Hle & _).
  destruct (Hcells' i ltac:(lia)) as (_ & _ & Hcase').
  destruct Hcase' as [(Hun & _) | (w & Hc & E1 & _)]; [by rewrite Hun|].
  pose proof Hc as (Hw1 & Hwi & HwW).
  pose proof (Hle w Hc) as Hup.
  pose proof (IH (i - w)%nat ltac:(lia) ltac:(lia)) as Hprev.
  pose proof (acquisition_cost_monotone (reusable chrom_seq indexes (i - w) w) w) as Hacq.
  rewrite E1. unfold path_cost in *.
  destruct (0 <? i - w)%nat; lra.
Qed.

End CostParameters.

(** Raising cost parameters never lowers the cost that the DP planner
    reports, for indexes that meet the contract of the oracle. *)
Theorem dp_cost_does_not_fall_with_the_cost_parameters
    (chrom_seq : list ascii) (W : Z) (indexes : list fm_index)
    (cost_pcr cost_join cost_synth_linear cost_synth_quad : Q)
    (cost_pcr' cost_join' cost_synth_linear' cost_synth_quad' : Q) :
  (cost_pcr <= cost_pcr')%Q -> (cost_join <= cost_join')%Q ->
  (cost_synth_linear <= cost_synth_linear')%Q -> (cost_synth_quad <= cost_synth_quad')%Q ->
  Forall index_coherent indexes ->
  exists (dp dp' : PlannerStats),
    solve_dp_for_chromosome chrom_seq W indexes cost_pcr cost_join
      cost_synth_linear cost_synth_quad = Some dp /\
    solve_dp_for_chromosome chrom_seq W indexes cost_pcr' cost_join'
      cost_synth_linear' cost_synth_quad' = Some dp' /\
    (cost dp <= cost dp')%Q.
Proof.
  intros Hpcr Hjoin Hlin Hquad Hcoh.
  destruct (dp_run chrom_seq W indexes cost_pcr cost_join cost_synth_linear
              cost_synth_quad (length indexes =? 1)%nat) as (bs & _ & _ & Hdp).
  destruct (dp_run chrom_seq W indexes cost_pcr' cost_join' cost_synth_linear'
              cost_synth_quad' (length indexes =? 1)%nat) as (bs' & _ & _ & Hdp').
  eexists _, _. split; [exact Hdp|]. split; [exact Hdp'|].
  cbn [cost make_stats].
  apply (dp_entries_monotone chrom_seq W indexes cost_pcr cost_join cost_synth_linear
           cost_synth_quad cost_pcr' cost_join' cost_synth_linear' cost_synth_quad'
           Hpcr Hjoin Hlin Hquad); [by apply dp_fill_inv | by apply dp_fill_inv | lia].
Qed.

Lemma dp_cost_does_not_fall_with_the_cost_parameters_witness :
  exists (dp dp' : PlannerStats),
    solve_dp_for_chromosome (s2l "ACGTTACGGA") 3 [build_index (s2l "TTACG")]
      5 (3 # 2) (2 # 10) (1 # 10000) = Some dp /\
    solve_dp_for_chromosome (s2l "ACGTTACGGA") 3 [build_index (s2l "TTACG")]
      6 (3 # 2) (3 # 10) (1 # 10000) = Some dp' /\
    (cost dp <= cost dp')%Q.
Proof.
  apply (dp_cost_does_not_fall_with_the_cost_parameters (s2l "ACGTTACGGA") 3
           [build_index (s2l "TTACG")] 5 (3 # 2) (2 # 10) (1 # 10000)
           6 (3 # 2) (3 # 10) (1 # 10000)).
  - unfold Qle; simpl; lia.
  - unfold Qle; simpl; lia.
  - unfold Qle; simpl; lia.
  - unfold Qle; simpl; lia.
  - constructor; [|constructor]. apply build_index_coherent. simpl. lia.
Defined.

(** The greedy planner never looks at the cost parameters to choose its
    blocks: with other parameters it reports the same counters and the same
    length, and only the cost differs. *)
Theorem greedy_plan_ignores_the_cost_parameters
    (chrom_seq : list ascii) (W : Z) (indexes : list fm_index)
    (cost_pcr cost_join cost_synth_linear cost_synth_quad : Q)
    (cost_pcr' cost_join' cost_synth_linear' cost_synth_quad' : Q) :
  exists (stats stats' : GreedyStats),
    solve_greedy_for_chromosome_stats chrom_seq W indexes cost_pcr cost_join
      cost_synth_linear cost_synth_quad = Some stats /\
    solve_greedy_for_chromosome_stats chrom_seq W indexes cost_pcr' cost_join'
      cost_synth_linear' cost_synth_quad' = Some stats' /\
    reuse_moves stats = reuse_moves stats' /\
    synth_moves stats = synth_moves stats' /\
    joins stats = joins stats' /\
    segments stats = segments stats' /\
    reuse_bases stats = reuse_bases stats' /\
    synth_bases stats = synth_bases stats' /\
    length_ stats = length_ stats'.
Proof.
  destruct (greedy_run chrom_seq W indexes cost_pcr cost_join cost_synth_linear
              cost_synth_quad) as (c & Hg & _).
  destruct (greedy_run chrom_seq W indexes cost_pcr' cost_join' cost_synth_linear'
              cost_synth_quad') as (c' & Hg' & _).
  eexists _, _. split; [exact Hg|]. split; [exact Hg'|].
  repeat split.
Qed.

(** ** The searches of the incremental sweep *)

Section SearchCount.

Variable chrom_seq : list ascii.
Variable W : Z.
Variable index : fm_index.
Hypothesis Hcoh : index_coherent index.

Abbreviation found j w := (0 <? fm_count index (substr chrom_seq j w))%N.

(** The loop searches the lengths from [w] on, up to the first that does
    not occur. *)
Lemma scan_incremental_searches_spec (i n w : nat) (l r : N) :
  (i <= length chrom_seq)%nat -> (1 <= w)%nat -> (w + n <= S i)%nat ->
  (l, r) = snd (bsearch index (substr chrom_seq (S (i - w)) (w - 1))) ->
  (w = 1%nat \/ found (S (i - w)) (w - 1) = true) ->
  let k := scan_incremental_searches chrom_seq n i w index l r in
  (k <= n)%nat /\
  (forall w', (w <= w')%nat -> (S w' < w + k)%nat -> found (i - w') w' = true) /\
  ((k < n)%nat -> (1 <= k)%nat /\ found (i - (w + k - 1)) (w + k - 1) = false).
Proof.
  intros Hi. revert w l r.
  induction n as [|n IH]; intros w l r Hw Hn Hlr Hprev.
  { cbn [scan_incremental_searches]. split; [lia|]. split; intros; lia. }
  cbn [scan_incremental_searches].
  assert (Hsub : substr chrom_seq (i - w) w
                = chrom_seq !!! (i - w)%nat :: substr chrom_seq (S (i - w)) (w - 1)).
  { destruct w as [|k]; [lia|]. rewrite substr_cons by lia.
    by replace (S k - 1)%nat with k by lia. }
  assert (Hbs : fm_backward_search index l r (chrom_seq !!! (i - w)%nat)
                = bsearch index (substr chrom_seq (i - w) w)).
  { rewrite Hsub. cbn [bsearch].
    destruct (bsearch index (substr chrom_seq (S (i - w)) (w - 1))) as [o [l0 r0]].
    simpl in Hlr. by inversion Hlr. }
  assert (Hagree : (0 < fst (bsearch index (substr chrom_seq (i - w) w)))%N
                   <-> (0 < fm_count index (substr chrom_seq (i - w) w))%N).
  { rewrite Hsub. destruct Hcoh as [_ Hext]. apply Hext.
    destruct Hprev as [->|Hocc].
    - left. reflexivity.
    - right. by apply N.ltb_lt. }
  rewrite Hbs.
  destruct (bsearch index (substr chrom_seq (i - w) w)) as [occ [l2 r2]] eqn:Ebs.
  simpl in Hagree.
  assert (Hreuse : (0 <? occ)%N = found (i - w) w).
  { destruct (0 <? occ)%N eqn:E1, (found (i - w) w) eqn:E2; try reflexivity.
    - apply N.ltb_lt, Hagree, N.ltb_lt in E1. congruence.
    - apply N.ltb_lt, Hagree, N.ltb_lt in E2. congruence. }
  destruct (occ =? 0)%N eqn:Eocc.
  - apply N.eqb_eq in Eocc. subst occ. cbv zeta.
    split; [lia|]. split; [intros; lia|]. intros _. split; [lia|].
    replace (w + 1 - 1)%nat with w by lia. by rewrite <- Hreuse.
  - apply N.eqb_neq in Eocc.
    assert (Hfound : found (i - w) w = true).
    { rewrite <- Hreuse. apply N.ltb_lt. lia. }
    destruct n as [|n'].
    { cbn [scan_incremental_searches]. cbv zeta. split; [lia|].
      split; [|intros; lia]. intros w' H1 H2. by replace w' with w by lia. }
    destruct (IH (S w) l2 r2) as (K1 & K2 & K3); [lia | lia | | |].
    + replace (S (i - S w)) with (i - w)%nat by lia.
      replace (S w - 1)%nat with w by lia. by rewrite Ebs.
    + right. replace (S (i - S w)) with (i - w)%nat by lia.
      by replace (S w - 1)%nat with w by lia.
    + cbv zeta in K1, K2, K3 |- *.
      set (k' := scan_incremental_searches chrom_seq (S n') i (S w) index l2 r2) in *.
      split; [lia|]. split.
      * intros w' H1 H2. destruct (decide (w' = w)) as [->|Hne]; [exact Hfound|].
        apply K2; lia.
      * intros Hlt. destruct (K3 ltac:(lia)) as [K4 K5]. split; [lia|].
        by replace (w + S k' - 1)%nat with (S w + k' - 1)%nat by lia.
Qed.

End SearchCount.

(** At a position [i] the incremental sweep calls [sdsl::backward_search]
    for the lengths [1], [2], ... up to the first length whose block does
    not occur in the source, or up to [min(W, i)], and never again after
    that: for an index that meets the contract of the oracle, the number
    [k] of its calls is at most [min(W, i)], every block of fewer than [k]
    bases that ends at [i] is reusable, and when [k < min(W, i)] the block
    of [k] bases is not. *)
Theorem incremental_sweep_searches_up_to_the_first_miss
    (chrom_seq : list ascii) (W : Z) (index : fm_index) (i : nat) :
  index_coherent index -> (i <= length chrom_seq)%nat ->
  let m := Z.to_nat (Z.min W (Z.of_nat i)) in
  let k := update_min_cost_searches chrom_seq W i index in
  (k <= m)%nat /\
  (forall w, (1 <= w < k)%nat -> reusable chrom_seq [index] (i - w) w = true) /\
  ((k < m)%nat -> (1 <= k)%nat /\ reusable chrom_seq [index] (i - k) k = false).
Proof.
  intros Hcoh Hi m k. subst k. unfold update_min_cost_searches.
  destruct (Z.min W (Z.of_nat i) <=? 0)%Z eqn:E.
  { apply Z.leb_le in E. split; [lia|]. split; intros; lia. }
  apply Z.leb_gt in E. fold m.
  destruct (scan_incremental_searches_spec chrom_seq index Hcoh i m 1 0
              ((fm_size index + 18446744073709551615) mod 18446744073709551616)%N)
    as (K1 & K2 & K3); [exact Hi | lia | lia | reflexivity | by left |].
  cbv zeta in K1, K2, K3.
  set (k := scan_incremental_searches chrom_seq m i 1 index 0 _) in *.
  assert (Hre : forall j w, reusable chrom_seq [index] j w
                            = (0 <? fm_count index (substr chrom_seq j w))%N).
  { intros j w. unfold reusable, query_kmer. cbn [existsb]. apply orb_false_r. }
  split; [exact K1|]. split.
  - intros w Hw. rewrite Hre. apply K2; lia.
  - intros Hlt. destruct (K3 Hlt) as [K4 K5]. split; [exact K4|].
    rewrite Hre. by replace (1 + k - 1)%nat with k in K5 by lia.
Qed.

Lemma incremental_sweep_searches_up_to_the_first_miss_witness :
  update_min_cost_searches (s2l "ACGTTACGGA") 8 7 (build_index (s2l "TTACG")) = 5%nat /\
  (forall w, (1 <= w < 5)%nat ->
     reusable (s2l "ACGTTACGGA") [build_index (s2l "TTACG")] (7 - w) w = true) /\
  reusable (s2l "ACGTTACGGA") [build_index (s2l "TTACG")] (7 - 5) 5 = false.
Proof.
  destruct (incremental_sweep_searches_up_to_the_first_miss (s2l "ACGTTACGGA") 8
              (build_index (s2l "TTACG")) 7) as (K1 & K2 & K3).
  - apply build_index_coherent. simpl. lia.
  - simpl. lia.
  - assert (E : update_min_cost_searches (s2l "ACGTTACGGA") 8 7 (build_index (s2l "TTACG"))
                = 5%nat) by (vm_compute; reflexivity).
    cbv zeta in K1, K2, K3. rewrite E in K1, K2, K3.
    split; [exact E|]. split; [exact K2|]. apply K3. simpl. lia.
Defined.

(** ** The DP planner in binary64 *)

Section TablesBinary64.

Variable chrom_seq : list ascii.
Variable W : Z.
Variable indexes : list fm_index.
Variables cost_pcr cost_join cost_synth_linear cost_synth_quad : float.

Abbreviation tN := (length chrom_seq).

Abbreviation trecorded := (recorded W).
Abbreviation tok := (tables_ok chrom_seq W).

Lemma relax_tables_ok (i w : nat) (r : bool) (pc : float)
    (tm : Binary64.dp_tables * float) :
  (i <= tN)%nat -> candidate W i w -> tok (fst tm) ->
  tok (fst (Binary64.relax i (i - w) w r pc tm)).
Proof.
  intros Hi Hw (L1 & L2 & Hall). unfold Binary64.relax.
  destruct (pc <? snd tm)%float; [|by repeat split].
  cbn [fst]. split; [cbn [Binary64.pred]; by rewrite length_insert|].
  split; [cbn [Binary64.chosen_len]; by rewrite length_insert|].
  intros x Hx. unfold recorded. cbn [Binary64.pred Binary64.chosen_len].
  destruct (decide (x = i)) as [->|Hne].
  - right. exists w. split; [exact Hw|].
    rewrite !list_lookup_total_insert_eq by lia. by split.
  - rewrite !list_lookup_total_insert_ne by done. by apply Hall.
Qed.

Lemma synth_tail_tables_ok (n i w2 : nat) (tm : Binary64.dp_tables * float) :
  (i <= tN)%nat -> (1 <= w2)%nat -> (w2 + n <= S i)%nat ->
  (Z.of_nat (w2 + n) <= W + 1)%Z -> tok (fst tm) ->
  tok (fst (Binary64.synth_tail cost_join cost_synth_linear cost_synth_quad
                    n i w2 tm)).
Proof.
  revert w2 tm. induction n as [|n IH]; intros w2 tm Hi Hw Hn HW Hok; [exact Hok|].
  cbn [Binary64.synth_tail]. apply IH; [lia | lia | lia | lia |].
  apply relax_tables_ok; [lia | unfold candidate; lia | exact Hok].
Qed.

Lemma scan_incremental_tables_ok (n i w : nat) (index : fm_index) (l r : N)
    (tm : Binary64.dp_tables * float) :
  (i <= tN)%nat -> (1 <= w)%nat -> (w + n <= S i)%nat ->
  (Z.of_nat (w + n) <= W + 1)%Z -> tok (fst tm) ->
  tok (fst (Binary64.scan_incremental chrom_seq cost_pcr cost_join
                    cost_synth_linear cost_synth_quad n i w index l r tm)).
Proof.
  revert w l r tm. induction n as [|n IH]; intros w l r tm Hi Hw Hn HW Hok; [exact Hok|].
  cbn [Binary64.scan_incremental].
  destruct (fm_backward_search index l r (chrom_seq !!! (i - w)%nat)) as [occ [l2 r2]].
  destruct (occ =? 0)%N.
  - apply synth_tail_tables_ok; [lia | lia | lia | lia |].
    apply relax_tables_ok; [lia | unfold candidate; lia | exact Hok].
  - apply IH; [lia | lia | lia | lia |].
    apply relax_tables_ok; [lia | unfold candidate; lia | exact Hok].
Qed.

Lemma scan_fallback_tables_ok (n i w : nat) (tm : Binary64.dp_tables * float) :
  (i <= tN)%nat -> (1 <= w)%nat -> (w + n <= S i)%nat ->
  (Z.of_nat (w + n) <= W + 1)%Z -> tok (fst tm) ->
  tok (fst (Binary64.scan_fallback chrom_seq indexes cost_pcr cost_join
                    cost_synth_linear cost_synth_quad n i w tm)).
Proof.
  revert w tm. induction n as [|n IH]; intros w tm Hi Hw Hn HW Hok; [exact Hok|].
  cbn [Binary64.scan_fallback]. apply IH; [lia | lia | lia | lia |].
  apply relax_tables_ok; [lia | unfold candidate; lia | exact Hok].
Qed.

Lemma dp_step_tables_ok (single_index : bool) (i : nat) (t : Binary64.dp_tables) :
  (1 <= i <= tN)%nat -> tok t ->
  tok (Binary64.dp_step chrom_seq W indexes cost_pcr cost_join cost_synth_linear
               cost_synth_quad single_index i t).
Proof.
  intros Hi Hok. unfold Binary64.dp_step.
  match goal with
  | |- tok {| Binary64.DP := _; Binary64.pred := Binary64.pred (fst ?x);
                    Binary64.chosen_len := _; Binary64.chosen_is_reuse := _ |} =>
      assert (H : tok (fst x))
  end.
  { destruct single_index.
    - destruct indexes as [|index0 rest]; [exact Hok|].
      unfold Binary64.update_min_cost_for_i.
      destruct (Z.min W (Z.of_nat i) <=? 0)%Z eqn:E; [exact Hok|].
      apply Z.leb_gt in E.
      apply scan_incremental_tables_ok; [lia | lia | lia | lia | exact Hok].
    - destruct (Z.min W (Z.of_nat i) <=? 0)%Z eqn:E.
      + apply Z.leb_le in E.
        replace (Z.to_nat (Z.min W (Z.of_nat i))) with 0%nat by lia. exact Hok.
      + apply Z.leb_gt in E.
        apply scan_fallback_tables_ok; [lia | lia | lia | lia | exact Hok]. }
  exact H.
Qed.

Lemma dp_sweep_tables_ok (single_index : bool) (n i : nat) (t : Binary64.dp_tables) :
  (1 <= i)%nat -> (i + n <= S tN)%nat -> tok t ->
  tok (Binary64.dp_sweep chrom_seq W indexes cost_pcr cost_join cost_synth_linear
               cost_synth_quad single_index n i t).
Proof.
  revert i t. induction n as [|n IH]; intros i t Hi Hn Hok; [exact Hok|].
  simpl. apply IH; [lia | lia |]. apply dp_step_tables_ok; [lia | exact Hok].
Qed.

Lemma dp_fill_tables_ok (single_index : bool) :
  tok (Binary64.dp_fill chrom_seq W indexes cost_pcr cost_join cost_synth_linear
               cost_synth_quad single_index).
Proof.
  unfold Binary64.dp_fill. apply dp_sweep_tables_ok; [lia | lia |].
  unfold tables_ok, recorded, Binary64.init_tables.
  cbn [Binary64.pred Binary64.chosen_len].
  rewrite !length_replicate. split; [lia|]. split; [lia|].
  intros i Hi. left. rewrite !lookup_total_replicate_2 by lia. by split.
Qed.

(** The backtracking from [cur] ends within [cur] iterations, on blocks
    that follow each other up to [cur]; it stops at a position where
    nothing is recorded, or where the length recorded is [0], or at [0]. *)
Lemma backtrack_blocks (t : Binary64.dp_tables) :
  tok t ->
  forall (fuel cur : nat), (cur <= fuel)%nat -> (cur <= tN)%nat ->
  exists (start : nat) (bs : list block),
    (length bs <= cur)%nat /\
    chain start bs cur /\
    Forall (fun b => (b_end b <= cur)%nat /\
                     candidate W (b_end b) (block_length b) /\
                     b_len b = wrap16 (Z.of_nat (block_length b)) /\
                     b_len b <> 0%Z /\
                     b_reuse b = Binary64.chosen_is_reuse t !!! b_end b) bs /\
    (start = 0%nat \/
     Binary64.pred t !!! start = (-1)%Z \/ Binary64.chosen_len t !!! start = 0%Z) /\
    forall (A : Type) (f : block -> A -> A) (acc : A),
      Binary64.backtrack f fuel t cur acc = Some (fold_right f acc bs).
Proof.
  intros (L1 & L2 & Hall) fuel.
  induction fuel as [|fuel IH]; intros cur Hfuel Hcur.
  - exists 0%nat, []. replace cur with 0%nat by lia.
    split; [simpl; lia|]. split; [reflexivity|]. split; [constructor|].
    split; [by left|]. reflexivity.
  - destruct (decide (cur = 0%nat)) as [->|Hpos].
    { exists 0%nat, []. split; [simpl; lia|]. split; [reflexivity|].
      split; [constructor|]. split; [by left|]. reflexivity. }
    destruct ((Binary64.pred t !!! cur <? 0)%Z
              || (Binary64.chosen_len t !!! cur =? 0)%Z)%bool eqn:Estop.
    + exists cur, []. split; [simpl; lia|]. split; [reflexivity|].
      split; [constructor|]. split.
      * right. apply orb_true_iff in Estop as [E|E].
        -- apply Z.ltb_lt in E.
           destruct (Hall cur ltac:(lia)) as [[Hp _]|(w & _ & Hp & _)]; [by left | lia].
        -- apply Z.eqb_eq in E. by right.
      * intros A f acc. cbn [Binary64.backtrack].
        replace (0 <? cur)%nat with true by (symmetry; apply Nat.ltb_lt; lia).
        by rewrite Estop.
    + apply orb_false_iff in Estop as [E1 E2].
      apply Z.ltb_ge in E1. apply Z.eqb_neq in E2.
      destruct (Hall cur ltac:(lia)) as [[Hp _]|(w & Hw & Hp & Hlen)]; [lia|].
      assert (Hw' := Hw). destruct Hw' as (Hw1 & Hw2 & Hw3).
      destruct (IH (cur - w)%nat ltac:(lia) ltac:(lia))
        as (start & bs & Hn & Hc & Hbs & Hstart & Hrun).
      exists start,
        (bs ++ [{| b_start := cur - w; b_end := cur;
                   b_len := Binary64.chosen_len t !!! cur;
                   b_reuse := Binary64.chosen_is_reuse t !!! cur |}]).
      split; [rewrite length_app; simpl; lia|].
      split; [apply chain_app with (m := (cur - w)%nat); [exact Hc | by simpl]|].
      split.
      { apply Forall_app. split.
        - eapply Forall_impl; [exact Hbs|]. intros b (Hb & Hrest).
          split; [lia | exact Hrest].
        - constructor; [|constructor].
          unfold block_length. cbn [b_start b_end b_len b_reuse].
          replace (cur - (cur - w))%nat with w by lia.
          split; [lia|]. split; [exact Hw|]. split; [exact Hlen|].
          split; [exact E2 | reflexivity]. }
      split; [exact Hstart|].
      intros A f acc. cbn [Binary64.backtrack].
      replace (0 <? cur)%nat with true by (symmetry; apply Nat.ltb_lt; lia).
      replace ((Binary64.pred t !!! cur <? 0)%Z
               || (Binary64.chosen_len t !!! cur =? 0)%Z)%bool with false
        by (symmetry; apply orb_false_iff; split; [by apply Z.ltb_ge | by apply Z.eqb_neq]).
      rewrite Hp, Nat2Z.id, Hrun, fold_right_app. reflexivity.
Qed.

End TablesBinary64.

(** The counters reported for at most [N < 2^64] blocks. *)
Lemma make_stats_counts_binary64 (c : float) (N : nat) (bs : list block) :
  (Z.of_nat N < 18446744073709551616)%Z ->
  (length bs <= N)%nat ->
  let s := Binary64.make_stats c N (counts_of bs) in
  Binary64.cost s = c /\
  Binary64.segments s = Z.of_nat (length bs) /\
  Binary64.reuse_moves s = moves_of true bs /\
  Binary64.synth_moves s = moves_of false bs /\
  Binary64.joins s = Z.of_nat (length bs - 1) /\
  Binary64.length_ s = Z.of_nat N.
Proof.
  intros HN Hlen s. subst s. unfold Binary64.make_stats, counts_of.
  cbn [Binary64.cost Binary64.segments Binary64.reuse_moves Binary64.synth_moves
       Binary64.joins Binary64.length_ c_segments c_reuse_moves c_synth_moves].
  destruct (moves_of_total bs) as (E & P1 & P2).
  rewrite !(wrap64_small (Z.of_nat (length bs))) by lia.
  rewrite (wrap64_small (moves_of true bs)), (wrap64_small (moves_of false bs)),
    (wrap64_small (Z.of_nat N)) by lia.
  repeat split.
  destruct (0 <? Z.of_nat (length bs))%Z eqn:E0.
  - apply Z.ltb_lt in E0. rewrite wrap64_small by lia. lia.
  - apply Z.ltb_ge in E0. lia.
Qed.

(** In binary64 and whatever the costs, the DP planner returns, and its
    counters are those of blocks that follow each other without gap or
    overlap up to [N], each of a candidate length: for a target of
    [N < 2^64] bases [segments] is their number and the sum of
    [reuse_moves] and [synth_moves], [joins] is one less (or [0]), and,
    when [min(W, N) <= 65535], [reuse_bases + synth_bases] is the number of
    bases they cover, which is [N] exactly when the first block starts at
    [0].  The first block starts at [0] or at a position for which the
    sweep recorded nothing or a length that the cast to [uint16_t] made
    [0]. *)
Theorem dp_counters_are_those_of_contiguous_blocks
    (chrom_seq : list ascii) (W : Z) (indexes : list fm_index)
    (cost_pcr cost_join cost_synth_linear cost_synth_quad : float) :
  let N := length chrom_seq in
  let t := Binary64.dp_fill chrom_seq W indexes cost_pcr cost_join cost_synth_linear
             cost_synth_quad (length indexes =? 1)%nat in
  (Z.of_nat N < 18446744073709551616)%Z ->
  exists (s : Binary64.PlannerStats) (start : nat) (blocks : list block),
    Binary64.solve_dp_for_chromosome chrom_seq W indexes cost_pcr cost_join
      cost_synth_linear cost_synth_quad = Some s /\
    Binary64.dp_blocks chrom_seq W indexes cost_pcr cost_join
      cost_synth_linear cost_synth_quad = Some blocks /\
    chain start blocks N /\
    Forall (fun b => (1 <= block_length b)%nat /\
                     (Z.of_nat (block_length b) <= Z.min W (Z.of_nat N))%Z /\
                     b_len b = wrap16 (Z.of_nat (block_length b))) blocks /\
    (start = 0%nat \/ Binary64.pred t !!! start = (-1)%Z
     \/ Binary64.chosen_len t !!! start = 0%Z) /\
    Binary64.cost s = Binary64.DP t !!! N /\
    Binary64.length_ s = Z.of_nat N /\
    Binary64.segments s = Z.of_nat (length blocks) /\
    Binary64.reuse_moves s = moves_of true blocks /\
    Binary64.synth_moves s = moves_of false blocks /\
    Binary64.segments s = (Binary64.reuse_moves s + Binary64.synth_moves s)%Z /\
    Binary64.joins s = (if (0 <? Binary64.segments s)%Z
                        then Binary64.segments s - 1 else 0)%Z /\
    ((Z.min W (Z.of_nat N) <= 65535)%Z ->
     (Binary64.reuse_bases s + Binary64.synth_bases s)%Z = Z.of_nat (N - start)).
Proof.
  intros N t HN.
  destruct (backtrack_blocks chrom_seq W t
              (dp_fill_tables_ok chrom_seq W indexes cost_pcr cost_join
                 cost_synth_linear cost_synth_quad (length indexes =? 1)%nat)
              N N ltac:(lia) ltac:(fold N; lia))
    as (start & bs & Hlen & Hc & Hbs & Hstart & Hrun).
  fold N in Hc.
  assert (Hsolve : Binary64.solve_dp_for_chromosome chrom_seq W indexes cost_pcr
                     cost_join cost_synth_linear cost_synth_quad
                   = Some (Binary64.make_stats (Binary64.DP t !!! N) N (counts_of bs))).
  { unfold Binary64.solve_dp_for_chromosome, Binary64.solve_dp_with. fold N. fold t.
    rewrite Hrun, fold_count_blocks.
    destruct (N =? 0)%nat eqn:E0; [|reflexivity].
    apply Nat.eqb_eq in E0.
    assert (bs = []) as -> by (destruct bs; [reflexivity | simpl in Hlen; lia]).
    subst t. unfold Binary64.dp_fill. fold N. rewrite E0. reflexivity. }
  destruct (make_stats_counts_binary64 (Binary64.DP t !!! N) N bs HN Hlen)
    as (S0 & S1 & S2 & S3 & S4 & S5).
  cbv zeta in S0, S1, S2, S3, S4, S5.
  destruct (moves_of_total bs) as (M1 & M2 & M3).
  exists (Binary64.make_stats (Binary64.DP t !!! N) N (counts_of bs)), start, bs.
  split; [exact Hsolve|].
  split.
  { unfold Binary64.dp_blocks. fold N. fold t. by rewrite Hrun, fold_cons_blocks. }
  split; [exact Hc|].
  assert (Hlens : Forall (fun b => (1 <= block_length b)%nat /\
                     (Z.of_nat (block_length b) <= Z.min W (Z.of_nat N))%Z /\
                     b_len b = wrap16 (Z.of_nat (block_length b))) bs).
  { eapply Forall_impl; [exact Hbs|].
    intros b (Hb & (H1 & H2 & H3) & H4 & _). split; [lia|]. split; [lia | exact H4]. }
  split; [exact Hlens|]. split; [exact Hstart|].
  split; [exact S0|]. split; [exact S5|]. split; [exact S1|].
  split; [exact S2|]. split; [exact S3|].
  split; [rewrite S1, S2, S3; lia|].
  split.
  { rewrite S4, S1. destruct (0 <? Z.of_nat (length bs))%Z eqn:E.
    - apply Z.ltb_lt in E. lia.
    - apply Z.ltb_ge in E. lia. }
  intros H16.
  destruct (bases_of_total start N bs Hc) as (B1 & B2 & B3 & B4).
  { eapply Forall_impl; [exact Hlens|]. intros b (H1 & H2 & H3).
    unfold block_length in *. split; [lia|].
    rewrite H3. unfold wrap16. apply Z.mod_small. lia. }
  unfold Binary64.make_stats, counts_of.
  cbn [Binary64.reuse_bases Binary64.synth_bases c_reuse_bases c_synth_bases].
  rewrite !wrap64_small by lia. exact B1.
Qed.

Lemma dp_counters_are_those_of_contiguous_blocks_witness :
  exists (s : Binary64.PlannerStats) (start : nat) (blocks : list block),
    Binary64.solve_dp_for_chromosome (s2l "ACGTTACGGA") 3 [build_index (s2l "TTACG")]
      5 0x1.8p+0 0x1.999999999999ap-3 0x1.a36e2eb1c432dp-14 = Some s /\
    Binary64.dp_blocks (s2l "ACGTTACGGA") 3 [build_index (s2l "TTACG")]
      5 0x1.8p+0 0x1.999999999999ap-3 0x1.a36e2eb1c432dp-14 = Some blocks /\
    chain start blocks 10 /\
    Binary64.segments s = Z.of_nat (length blocks) /\
    Binary64.segments s = (Binary64.reuse_moves s + Binary64.synth_moves s)%Z /\
    (Binary64.reuse_bases s + Binary64.synth_bases s)%Z = Z.of_nat (10 - start).
Proof.
  destruct (dp_counters_are_those_of_contiguous_blocks (s2l "ACGTTACGGA") 3
              [build_index (s2l "TTACG")] 5 0x1.8p+0 0x1.999999999999ap-3
              0x1.a36e2eb1c432dp-14)
    as (s & start & blocks & H1 & H2 & H3 & _ & _ & _ & _ & H4 & _ & _ & H5 & _ & H6);
    [simpl; lia|].
  exists s, start, blocks.
  split; [exact H1|]. split; [exact H2|]. split; [exact H3|].
  split; [exact H4|]. split; [exact H5|]. apply H6. simpl. lia.
Defined.

(** ** The plans of the greedy planner in binary64 *)

Section CostOnlyBinary64.

Variable chrom_seq : list ascii.
Variable W : Z.
Variable indexes : list fm_index.
Variables cost_pcr cost_join cost_synth_per_base : float.

Abbreviation oN := (length chrom_seq).
Abbreviation oblocks := (greedy_blocks chrom_seq W indexes).
Abbreviation ostep := (Binary64.cost_only_step chrom_seq W indexes cost_pcr cost_join
                         cost_synth_per_base).
Abbreviation oloop := (Binary64.cost_only_loop chrom_seq W indexes cost_pcr cost_join
                         cost_synth_per_base).
Abbreviation ocharge := (cost_only_charge cost_pcr cost_join cost_synth_per_base).

Lemma cost_only_step_charge (i : nat) (c : float) :
  let '(w, r) := greedy_choice chrom_seq W indexes i in
  ostep (i, c) =
  ((i + w)%nat,
   ocharge c {| b_start := i; b_end := i + w; b_len := Z.of_nat w; b_reuse := r |}).
Proof.
  unfold greedy_choice, Binary64.cost_only_step, cost_only_charge.
  cbn [fst snd b_start b_reuse].
  by destruct (0 <? find_best_w chrom_seq indexes _ i)%nat.
Qed.

Lemma cost_only_loop_trace (fuel i : nat) (c : float) :
  (i <= oN)%nat -> (oN - i <= fuel)%nat ->
  oloop fuel (i, c) = Some (oN, fold_left ocharge (oblocks fuel i) c).
Proof.
  revert i c. induction fuel as [|fuel IH]; intros i c Hi Hfuel.
  - cbn [Binary64.cost_only_loop greedy_blocks fst].
    replace (i <? oN)%nat with false by (symmetry; apply Nat.ltb_ge; lia).
    cbn [fold_left]. by replace oN with i by lia.
  - cbn [Binary64.cost_only_loop greedy_blocks fst].
    destruct (i <? oN)%nat eqn:E.
    2:{ apply Nat.ltb_ge in E. cbn [fold_left]. by replace oN with i by lia. }
    apply Nat.ltb_lt in E.
    pose proof (cost_only_step_charge i c) as Hstep.
    pose proof (greedy_choice_bounds chrom_seq W indexes i E) as (Hb1 & Hb2 & _).
    destruct (greedy_choice chrom_seq W indexes i) as [w r]. simpl in Hb1, Hb2.
    rewrite Hstep, IH by lia. reflexivity.
Qed.

Lemma cost_only_run_binary64 :
  Binary64.solve_greedy_for_chromosome chrom_seq W indexes cost_pcr cost_join
    cost_synth_per_base
  = Some (fold_left ocharge (oblocks oN 0) 0%float).
Proof.
  unfold Binary64.solve_greedy_for_chromosome.
  destruct (oN =? 0)%nat eqn:E0.
  - apply Nat.eqb_eq in E0. rewrite E0. reflexivity.
  - rewrite cost_only_loop_trace by lia. reflexivity.
Qed.

End CostOnlyBinary64.

(** The function [solve_greedy_for_chromosome], which returns the cost
    alone, cuts the target as [solve_greedy_for_chromosome_stats] does, into
    the blocks of the greedy policy, and pays them in order from [0.0],
    each block before its junction: [cost_pcr] for a reuse block and
    [cost_synth_per_base * 1 + 0.0 * 1 * 1] for a synthesised base, then
    [cost_join] unless the block starts the target, every sum and product
    rounded in binary64.  On the empty target it returns [0.0]. *)
Theorem cost_only_greedy_pays_each_block_before_its_junction
    (chrom_seq : list ascii) (W : Z) (indexes : list fm_index)
    (cost_pcr cost_join cost_synth_per_base cost_synth_quad : float) :
  exists blocks : list block,
    chain 0 blocks (length chrom_seq) /\
    Forall (greedy_policy chrom_seq W indexes) blocks /\
    Binary64.solve_greedy_for_chromosome chrom_seq W indexes cost_pcr cost_join
      cost_synth_per_base
    = Some (fold_left (cost_only_charge cost_pcr cost_join cost_synth_per_base)
              blocks 0%float) /\
    exists stats : Binary64.GreedyStats,
      Binary64.solve_greedy_for_chromosome_stats chrom_seq W indexes cost_pcr cost_join
        cost_synth_per_base cost_synth_quad = Some stats /\
      Binary64.cost stats
      = fold_left (greedy_charge cost_pcr cost_join cost_synth_per_base cost_synth_quad)
          blocks 0%float /\
      Binary64.segments stats = wrap64 (Z.of_nat (length blocks)).
Proof.
  exists (greedy_blocks chrom_seq W indexes (length chrom_seq) 0).
  destruct (greedy_blocks_policy chrom_seq W indexes (length chrom_seq) 0)
    as [Hc Hall]; [lia | lia |].
  split; [exact Hc|]. split; [exact Hall|].
  split; [apply cost_only_run_binary64|].
  eexists. split; [apply greedy_run_binary64|]. by split.
Qed.

(** *** Targets of which every block occurs in the source, or none *)

Section UniformBinary64.

Variable chrom_seq : list ascii.
Variable W : Z.
Variable indexes : list fm_index.

Abbreviation vN := (length chrom_seq).
Abbreviation vblocks := (greedy_blocks chrom_seq W indexes).

Lemma greedy_blocks_where_nothing_occurs (fuel i : nat) :
  (forall j w, (1 <= w)%nat -> (Z.of_nat w <= W)%Z -> (j + w <= vN)%nat ->
               ~ occurs_in indexes (firstn w (skipn j chrom_seq))) ->
  (i <= vN)%nat -> (vN - i <= fuel)%nat ->
  vblocks fuel i = single_bases i (vN - i).
Proof.
  intros Hnone. revert i. induction fuel as [|fuel IH]; intros i Hi Hfuel.
  - cbn [greedy_blocks]. by replace (vN - i)%nat with 0%nat by lia.
  - cbn [greedy_blocks]. destruct (i <? vN)%nat eqn:E.
    2:{ apply Nat.ltb_ge in E. by replace (vN - i)%nat with 0%nat by lia. }
    apply Nat.ltb_lt in E.
    pose proof (greedy_choice_spec chrom_seq W indexes i) as Hch.
    destruct (greedy_choice chrom_seq W indexes i) as [w r].
    cbv zeta in Hch. destruct Hch as [Ht Hf].
    destruct r.
    { destruct (Ht eq_refl) as (Hw & Hr & _).
      apply query_kmer_occurs in Hr. exfalso. apply (Hnone i w); [lia | lia | lia | exact Hr]. }
    destruct (Hf eq_refl) as (-> & _).
    rewrite IH by lia.
    replace (vN - i)%nat with (S (vN - (i + 1))) by lia.
    unfold single_bases. cbn [seq map]. by replace (S i) with (i + 1)%nat by lia.
Qed.

End UniformBinary64.

Lemma fold_single_bases (f : float -> float) (g : float -> block -> float) (n i : nat)
    (c : float) :
  (forall x j, (i <= j)%nat ->
     g x {| b_start := j; b_end := j + 1; b_len := 1; b_reuse := false |} = f x) ->
  fold_left g (single_bases i n) c = Nat.iter n f c.
Proof.
  intros Hg. revert i c Hg. induction n as [|n IH]; intros i c Hg; [reflexivity|].
  unfold single_bases. cbn [seq map fold_left].
  change (fold_left g (single_bases (S i) n) (g c {| b_start := i; b_end := i + 1;
            b_len := 1; b_reuse := false |}) = Nat.iter (S n) f c).
  rewrite IH by (intros; apply Hg; lia). rewrite Hg by lia.
  clear. induction n as [|n IH]; [reflexivity|]. simpl in *. by rewrite IH.
Qed.

Lemma counts_of_single_bases (i n : nat) :
  moves_of true (single_bases i n) = 0%Z /\
  moves_of false (single_bases i n) = Z.of_nat n /\
  bases_of true (single_bases i n) = 0%Z /\
  bases_of false (single_bases i n) = Z.of_nat n /\
  length (single_bases i n) = n.
Proof.
  revert i. induction n as [|n IH]; intros i; [by cbv|].
  destruct (IH (S i)) as (I1 & I2 & I3 & I4 & I5).
  unfold single_bases in *. cbn [seq map].
  rewrite !moves_of_cons, !bases_of_cons, I1, I2, I3, I4.
  cbn [b_reuse b_len Bool.eqb length]. rewrite I5. lia.
Qed.

(** Where no block of at most [W] bases of the target occurs in the source,
    the greedy planner synthesises a target of [1 <= N < 2^64] bases one
    base at a time: [N] synthesis moves of one base, no reuse, [N - 1]
    joins, and the cost is the left-to-right sum, rounded in binary64 at
    every step, that starts at
    [0.0 + (cost_synth_linear * 1 + cost_synth_quad * 1 * 1)] and adds
    [cost_join] and then the cost of a base for each further base. *)
Theorem greedy_synthesises_one_base_at_a_time_where_nothing_occurs
    (chrom_seq : list ascii) (W : Z) (indexes : list fm_index)
    (cost_pcr cost_join cost_synth_linear cost_synth_quad : float) :
  let N := length chrom_seq in
  let base := (cost_synth_linear * 1 + cost_synth_quad * 1 * 1)%float in
  (1 <= N)%nat -> (Z.of_nat N < 18446744073709551616)%Z ->
  (forall i w, (1 <= w)%nat -> (Z.of_nat w <= W)%Z -> (i + w <= N)%nat ->
               ~ occurs_in indexes (firstn w (skipn i chrom_seq))) ->
  Binary64.solve_greedy_for_chromosome_stats chrom_seq W indexes cost_pcr cost_join
    cost_synth_linear cost_synth_quad
  = Some {| Binary64.cost :=
              Nat.iter (N - 1) (fun c => (c + cost_join + base)%float) (0 + base)%float;
            Binary64.reuse_moves := 0;
            Binary64.synth_moves := Z.of_nat N;
            Binary64.joins := Z.of_nat (N - 1);
            Binary64.segments := Z.of_nat N;
            Binary64.reuse_bases := 0;
            Binary64.synth_bases := Z.of_nat N;
            Binary64.length_ := Z.of_nat N |}.
Proof.
  intros N base H1 HN Hnone.
  rewrite greedy_run_binary64. fold N.
  rewrite (greedy_blocks_where_nothing_occurs chrom_seq W indexes N 0 Hnone)
    by (fold N; lia).
  fold N. replace (N - 0)%nat with N by lia.
  destruct (counts_of_single_bases 0 N) as (C1 & C2 & C3 & C4 & C5).
  unfold Binary64.make_stats, counts_of.
  cbn [c_segments c_reuse_moves c_synth_moves c_reuse_bases c_synth_bases].
  rewrite C1, C2, C3, C4, C5.
  rewrite !(wrap64_small (Z.of_nat N)) by lia.
  change (wrap64 0) with 0%Z.
  replace (0 <? Z.of_nat N)%Z with true by (symmetry; apply Z.ltb_lt; lia).
  rewrite wrap64_small by lia.
  replace (Z.of_nat N - 1)%Z with (Z.of_nat (N - 1)) by lia.
  f_equal. f_equal.
  destruct N as [|n]; [lia|]. replace (S n - 1)%nat with n by lia.
  unfold single_bases. cbn [seq map fold_left].
  change (fold_left (greedy_charge cost_pcr cost_join cost_synth_linear cost_synth_quad)
            (single_bases 1 n)
            (greedy_charge cost_pcr cost_join cost_synth_linear cost_synth_quad 0
               {| b_start := 0; b_end := 0 + 1; b_len := 1; b_reuse := false |})
          = Nat.iter n (fun c => (c + cost_join + base)%float) (0 + base)%float).
  rewrite (fold_single_bases (fun c => (c + cost_join + base)%float)).
  - reflexivity.
  - intros x j Hj. unfold greedy_charge. cbn [b_start b_reuse].
    by replace (0 <? j)%nat with true by (symmetry; apply Nat.ltb_lt; lia).
Qed.

Lemma greedy_synthesises_one_base_at_a_time_where_nothing_occurs_witness :
  Binary64.solve_greedy_for_chromosome_stats (s2l "ACGT") 2 [build_index (s2l "NNN")]
    5 1 0x1.999999999999ap-3 0x1.a36e2eb1c432dp-14
  = Some {| Binary64.cost := 0x1.e67381d7dbf48p+1;
            Binary64.reuse_moves := 0;
            Binary64.synth_moves := 4;
            Binary64.joins := 3;
            Binary64.segments := 4;
            Binary64.reuse_bases := 0;
            Binary64.synth_bases := 4;
            Binary64.length_ := 4 |}.
Proof.
  rewrite (greedy_synthesises_one_base_at_a_time_where_nothing_occurs (s2l "ACGT") 2
             [build_index (s2l "NNN")] 5 1 0x1.999999999999ap-3 0x1.a36e2eb1c432dp-14).
  - vm_compute. reflexivity.
  - simpl. lia.
  - simpl. lia.
  - intros i w H1 H2 H3 (index & [<-|[]] & Hocc).
    assert (w = 1 \/ w = 2)%nat as [->| ->] by lia;
      (assert (i = 0 \/ i = 1 \/ i = 2 \/ i = 3)%nat as [->|[->|[->| ->]]]
         by (simpl in H3; lia));
      vm_compute in Hocc; discriminate.
Defined.

Section ReuseBinary64.

Variables cost_pcr cost_join cost_synth_linear cost_synth_quad : float.

Abbreviation rcharge := (greedy_charge cost_pcr cost_join cost_synth_linear
                           cost_synth_quad).

(** Reuse blocks that follow each other from a position after the start
    of the target are paid a junction and a reuse each. *)
Lemma fold_reuse_blocks (a z : nat) (bs : list block) (c : float) :
  (0 < a)%nat -> chain a bs z ->
  Forall (fun b => b_reuse b = true /\ (b_start b < b_end b)%nat) bs ->
  fold_left rcharge bs c
  = Nat.iter (length bs) (fun c => (c + cost_join + cost_pcr)%float) c.
Proof.
  intros Ha Hc Hall. revert a c Ha Hc.
  induction Hall as [|b bs [Hr Hlt] Hall IH]; intros a c Ha Hc; [reflexivity|].
  destruct Hc as [Hs Hc]. cbn [fold_left length].
  rewrite (IH (b_end b)) by (try exact Hc; lia).
  unfold greedy_charge at 1. rewrite Hr, Hs.
  replace (0 <? a)%nat with true by (symmetry; apply Nat.ltb_lt; lia).
  clear. induction (length bs) as [|n IHn]; [reflexivity|]. simpl in *. by rewrite IHn.
Qed.

End ReuseBinary64.

Lemma moves_of_uniform (r : bool) (bs : list block) :
  Forall (fun b => b_reuse b = r) bs ->
  moves_of r bs = Z.of_nat (length bs) /\ moves_of (negb r) bs = 0%Z /\
  bases_of (negb r) bs = 0%Z.
Proof.
  induction 1 as [|b bs Hb Hall IH].
  - by cbv.
  - destruct IH as (I1 & I2 & I3).
    rewrite !moves_of_cons, bases_of_cons, Hb, I1, I2, I3. cbn [length].
    destruct r; cbn [Bool.eqb negb]; lia.
Qed.

(** The greedy sweep over a target of which every block of at most [W]
    bases occurs in the source: [k] reuse blocks for what is left of the
    target, with [(k - 1) * W < N - i <= k * W]. *)
Lemma greedy_blocks_where_everything_occurs
    (chrom_seq : list ascii) (W : Z) (indexes : list fm_index) (fuel i k : nat) :
  let N := length chrom_seq in
  (1 <= W)%Z ->
  (forall j w, (1 <= w)%nat -> (Z.of_nat w <= W)%Z -> (j + w <= N)%nat ->
               occurs_in indexes (firstn w (skipn j chrom_seq))) ->
  (i <= N)%nat -> (N - i <= fuel)%nat ->
  ((Z.of_nat k - 1) * W < Z.of_nat (N - i) <= Z.of_nat k * W)%Z ->
  length (greedy_blocks chrom_seq W indexes fuel i) = k /\
  Forall (fun b => b_reuse b = true) (greedy_blocks chrom_seq W indexes fuel i).
Proof.
  intros N HW Hall. revert i k. induction fuel as [|fuel IH]; intros i k Hi Hfuel Hk.
  - cbn [greedy_blocks]. split; [simpl; nia | constructor].
  - cbn [greedy_blocks]. fold N. destruct (i <? N)%nat eqn:E.
    2:{ apply Nat.ltb_ge in E. split; [simpl; nia | constructor]. }
    apply Nat.ltb_lt in E.
    pose proof (greedy_choice_spec chrom_seq W indexes i) as Hch.
    destruct (greedy_choice chrom_seq W indexes i) as [w r].
    cbv zeta in Hch. fold N in Hch. destruct Hch as [Ht Hf].
    set (m := Z.to_nat (Z.min W (Z.of_nat (N - i)))) in *.
    assert (Hm : (1 <= m)%nat) by lia.
    assert (Hmr : reusable chrom_seq indexes i m = true).
    { apply query_kmer_occurs, Hall; lia. }
    destruct r.
    2:{ destruct (Hf eq_refl) as [_ Hnone]. rewrite (Hnone m) in Hmr by lia. discriminate. }
    destruct (Ht eq_refl) as (Hw & _ & Hmax).
    assert (w = m) as ->.
    { destruct (decide (w = m)) as [->|Hne]; [reflexivity|].
      rewrite (Hmax m) in Hmr by lia. discriminate. }
    destruct k as [|k]; [nia|].
    destruct (IH (i + m)%nat k) as [H1 H2]; [lia | lia | |].
    { destruct (Z.min_spec W (Z.of_nat (N - i))) as [[Hlt Em]|[Hge Em]]; nia. }
    split; [cbn [length]; by rewrite H1 | by constructor].
Qed.

(** Where every block of at most [W >= 1] bases of the target occurs in the
    source, the greedy planner cuts a target of [1 <= N < 2^64] bases into
    [k = ceil(N / W)] reuse blocks, of [W] bases each but for the last: [k]
    reuse moves of [N] bases in all, no synthesis, [k - 1] joins, and the
    cost is the left-to-right sum, rounded in binary64 at every step, that
    starts at [0.0 + cost_pcr] and adds [cost_join] and then [cost_pcr] for
    each further block. *)
Theorem greedy_cuts_a_wholly_reusable_target_into_blocks_of_W_bases
    (chrom_seq : list ascii) (W : Z) (indexes : list fm_index)
    (cost_pcr cost_join cost_synth_linear cost_synth_quad : float) (k : nat) :
  let N := length chrom_seq in
  (1 <= W)%Z -> (1 <= N)%nat -> (Z.of_nat N < 18446744073709551616)%Z ->
  ((Z.of_nat k - 1) * W < Z.of_nat N <= Z.of_nat k * W)%Z ->
  (forall i w, (1 <= w)%nat -> (Z.of_nat w <= W)%Z -> (i + w <= N)%nat ->
               occurs_in indexes (firstn w (skipn i chrom_seq))) ->
  Binary64.solve_greedy_for_chromosome_stats chrom_seq W indexes cost_pcr cost_join
    cost_synth_linear cost_synth_quad
  = Some {| Binary64.cost :=
              Nat.iter (k - 1) (fun c => (c + cost_join + cost_pcr)%float)
                (0 + cost_pcr)%float;
            Binary64.reuse_moves := Z.of_nat k;
            Binary64.synth_moves := 0;
            Binary64.joins := Z.of_nat (k - 1);
            Binary64.segments := Z.of_nat k;
            Binary64.reuse_bases := Z.of_nat N;
            Binary64.synth_bases := 0;
            Binary64.length_ := Z.of_nat N |}.
Proof.
  intros N HW H1 HN Hk Hall.
  rewrite greedy_run_binary64. fold N.
  set (bs := greedy_blocks chrom_seq W indexes N 0).
  destruct (greedy_blocks_policy chrom_seq W indexes N 0) as [Hc Hpol]; [lia | lia |].
  fold N bs in Hc, Hpol.
  destruct (greedy_blocks_where_everything_occurs chrom_seq W indexes N 0 k HW Hall)
    as [Hlen Hreuse].
  { lia. } { fold N. lia. } { fold N. replace (N - 0)%nat with N by lia. exact Hk. }
  fold bs in Hlen, Hreuse.
  destruct (moves_of_uniform true bs Hreuse) as (M1 & M2 & M3). cbn [negb] in M2, M3.
  assert (Hshape : Forall (fun b => b_reuse b = true /\ (b_start b < b_end b)%nat /\
                                    b_len b = Z.of_nat (block_length b)) bs).
  { apply Forall_forall. intros b Hb.
    rewrite Forall_forall in Hpol, Hreuse.
    specialize (Hpol b Hb). specialize (Hreuse b Hb).
    destruct Hpol as (_ & He & Hl & Hkind). rewrite Hreuse in Hkind.
    destruct Hkind as (Hw & _). unfold block_length.
    split; [exact Hreuse|]. split; [lia | exact Hl]. }
  destruct (bases_of_total 0 N bs Hc) as (B1 & B2 & B3 & _).
  { eapply Forall_impl; [exact Hshape|]. intros b (_ & Hlt & Hl). split; [lia | exact Hl]. }
  assert (Hk1 : (1 <= k)%nat) by nia.
  assert (Hkn : (Z.of_nat k <= Z.of_nat N)%Z) by nia.
  unfold Binary64.make_stats, counts_of.
  cbn [c_segments c_reuse_moves c_synth_moves c_reuse_bases c_synth_bases].
  rewrite M1, M2, M3, Hlen.
  replace (bases_of true bs) with (Z.of_nat N) by lia.
  rewrite !(wrap64_small (Z.of_nat k)), !(wrap64_small (Z.of_nat N)) by lia.
  change (wrap64 0) with 0%Z.
  replace (0 <? Z.of_nat k)%Z with true by (symmetry; apply Z.ltb_lt; lia).
  rewrite wrap64_small by lia.
  replace (Z.of_nat k - 1)%Z with (Z.of_nat (k - 1)) by lia.
  f_equal. f_equal.
  destruct bs as [|b bs']; [simpl in Hlen; lia|].
  destruct Hc as [Hs Hc]. apply Forall_cons_1 in Hshape as [(Hr & Hlt & _) Hshape].
  cbn [fold_left]. cbn [length] in Hlen.
  rewrite (fold_reuse_blocks cost_pcr cost_join cost_synth_linear cost_synth_quad
             (b_end b) N bs'); [|lia | exact Hc |].
  - replace (length bs') with (k - 1)%nat by lia.
    unfold greedy_charge. rewrite Hr, Hs. reflexivity.
  - eapply Forall_impl; [exact Hshape|]. intros x (Hx1 & Hx2 & _). by split.
Qed.

Lemma greedy_cuts_a_wholly_reusable_target_into_blocks_of_W_bases_witness :
  Binary64.solve_greedy_for_chromosome_stats (s2l "AAAAA") 2 [build_index (s2l "AAAAA")]
    0x1.6666666666666p-1 0x1.999999999999ap-4 1 0
  = Some {| Binary64.cost := 0x1.2666666666666p+1;
            Binary64.reuse_moves := 3;
            Binary64.synth_moves := 0;
            Binary64.joins := 2;
            Binary64.segments := 3;
            Binary64.reuse_bases := 5;
            Binary64.synth_bases := 0;
            Binary64.length_ := 5 |}.
Proof.
  rewrite (greedy_cuts_a_wholly_reusable_target_into_blocks_of_W_bases (s2l "AAAAA") 2
             [build_index (s2l "AAAAA")] 0x1.6666666666666p-1 0x1.999999999999ap-4 1 0 3).
  - vm_compute. reflexivity.
  - lia.
  - simpl. lia.
  - simpl. lia.
  - simpl. lia.
  - intros i w H1 H2 H3. exists (build_index (s2l "AAAAA")). split; [by left|].
    assert (w = 1 \/ w = 2)%nat as [->| ->] by lia;
      (assert (i = 0 \/ i = 1 \/ i = 2 \/ i = 3 \/ i = 4)%nat as [->|[->|[->|[->| ->]]]]
         by (simpl in H3; lia));
      vm_compute; reflexivity.
Defined.
